(** * grblesp: numeric field decoder and report encoders

    A shallow embedding of [read_float] and of the delay and vector helpers
    of src/lib/grbl/src/nuts_bolts.cpp, and of the report encoders of
    src/lib/grbl/src/report.cpp, with the properties the protocol
    specification states about them and further properties of the code. *)

From Stdlib Require Import ZArith List Bool String Ascii Lia QArith Qabs Lqa Qpower.
From Stdlib Require Import Floats.SpecFloat DecimalString.
Import ListNotations.

Local Open Scope Z_scope.

(** ** Machine integers *)

(** Conversion to [uint8_t] and [uint32_t]. *)
Definition uint8_t (z : Z) : Z := z mod 256.
Definition uint32_t (z : Z) : Z := z mod 4294967296.

(** [read_float] declares its exponent as [int88_t], a type that the sources
    at hand do not declare. It is taken as a signed integer type of
    [exponent_bits] bits that wraps in two's complement; the width is a
    parameter, of which only what holds of every integer type of C is known:
    it has eight bits at least. *)
Class ExponentType : Type := {
  exponent_bits : Z;
  exponent_bits_min : 8 <= exponent_bits
}.

(** Conversion to [int88_t]. *)
Definition int88_t {width : ExponentType} (z : Z) : Z :=
  (z + 2 ^ (exponent_bits - 1)) mod 2 ^ exponent_bits - 2 ^ (exponent_bits - 1).

(** The widths of [int8_t], [int16_t], [int32_t] and [int64_t]. *)
Definition exponent_int8 : ExponentType :=
  {| exponent_bits := 8; exponent_bits_min := Z.le_refl 8 |}.

Lemma le_8_16 : 8 <= 16. Proof. lia. Qed.
Lemma le_8_32 : 8 <= 32. Proof. lia. Qed.
Lemma le_8_64 : 8 <= 64. Proof. lia. Qed.

Definition exponent_int16 : ExponentType :=
  {| exponent_bits := 16; exponent_bits_min := le_8_16 |}.
Definition exponent_int32 : ExponentType :=
  {| exponent_bits := 32; exponent_bits_min := le_8_32 |}.
Definition exponent_int64 : ExponentType :=
  {| exponent_bits := 64; exponent_bits_min := le_8_64 |}.

(** ** Text *)

(** A line is the text before its terminating NUL.  [code c] is the value of
    a character as [unsigned char]. *)
Definition code (c : ascii) : Z := Z.of_N (N_of_ascii c).

(** [*ptr++] on the rest of the line: the character and the advanced pointer;
    at the end of the text the terminating NUL is read. *)
Definition fetch (ptr : string) : Z * string :=
  match ptr with
  | EmptyString => (0, EmptyString)
  | String c rest => (code c, rest)
  end.

(** [line + n]. *)
Fixpoint advance (n : nat) (line : string) : string :=
  match n, line with
  | O, _ => line
  | S k, EmptyString => EmptyString
  | S k, String _ rest => advance k rest
  end.

(** ** Floating point *)

(** The operations [read_float] performs on [float]. A multiplication by a
    literal ([0.01], [0.1], [10.0]) is taken in [double] and stored back into
    the [float] variable. *)
Class FloatOps (F : Type) : Type := {
  float_of_uint32 : Z -> F;     (* (float)integer_value *)
  fmul_0_01 : F -> F;           (* float_value *= 0.01  *)
  fmul_0_1 : F -> F;            (* float_value *= 0.1   *)
  fmul_10_0 : F -> F;           (* float_value *= 10.0  *)
  fneg : F -> F;                (* -float_value         *)
  fnonzero : F -> bool          (* float_value != 0     *)
}.

(** *** IEEE 754 binary32 with binary64 intermediate products *)

Module B32.

Definition float := spec_float.

Definition round32 (x : spec_float) : spec_float :=
  match x with
  | S754_finite s m e => binary_round 24 128 s m e
  | _ => x
  end.

Definition double_of_Z (z : Z) : spec_float := binary_normalize 53 1024 z 0 false.
Definition float_of_Z (z : Z) : spec_float := binary_normalize 24 128 z 0 false.

(** The literals, as the nearest [double]. *)
Definition d_0_01 : spec_float := SFdiv 53 1024 (double_of_Z 1) (double_of_Z 100).
Definition d_0_1 : spec_float := SFdiv 53 1024 (double_of_Z 1) (double_of_Z 10).
Definition d_10_0 : spec_float := double_of_Z 10.

Definition mul_literal (x lit : spec_float) : spec_float :=
  round32 (SFmul 53 1024 x lit).

Definition nonzero (x : spec_float) : bool :=
  match x with
  | S754_zero _ => false
  | _ => true
  end.

(** The rational value of a finite float. *)
Definition to_Q (x : spec_float) : Q :=
  match x with
  | S754_finite s m e =>
      let v := (inject_Z (Z.pos m) * Qpower 2 e)%Q in
      if s then Qopp v else v
  | _ => 0%Q
  end.

End B32.

#[export] Instance binary32_ops : FloatOps B32.float := {
  float_of_uint32 := B32.float_of_Z;
  fmul_0_01 x := B32.mul_literal x B32.d_0_01;
  fmul_0_1 x := B32.mul_literal x B32.d_0_1;
  fmul_10_0 x := B32.mul_literal x B32.d_10_0;
  fneg := SFopp;
  fnonzero := B32.nonzero
}.

(** *** Exact rational arithmetic, the reference the decoder is compared with *)

#[export] Instance exact_ops : FloatOps Q := {
  float_of_uint32 := inject_Z;
  fmul_0_01 x := (x * (1 # 100))%Q;
  fmul_0_1 x := (x * (1 # 10))%Q;
  fmul_10_0 x := (x * 10)%Q;
  fneg := Qopp;
  fnonzero x := negb (Qeq_bool x 0)
}.

(** ** read_float *)

Section ExponentWidth.
Context {width : ExponentType}.

Definition MAX_INT_DIGITS : Z := 8.

(** The variables of the digit loop. *)
Record scan : Type := {
  integer_value : Z;   (* uint32_t *)
  exponent : Z;        (* int88_t  *)
  num_digits : Z;      (* uint8_t  *)
  is_decimal : bool
}.

Definition scan_init : scan :=
  {| integer_value := 0; exponent := 0; num_digits := 0; is_decimal := false |}.

(** One pass through the body of [while(1)], up to the fetch of the next
    character: [None] is [break]. *)
Definition scan_char (s : scan) (current_char : Z) : option scan :=
  let current_char := uint8_t (current_char - 48) in
  if current_char <=? 9 then
    let num_digits' := uint8_t (num_digits s + 1) in
    if num_digits' <=? MAX_INT_DIGITS then
      Some {| integer_value :=
                uint32_t (uint32_t (Z.shiftl (uint32_t (uint32_t (Z.shiftl (integer_value s) 2)
                                                         + integer_value s)) 1)
                          + current_char);
              exponent := if is_decimal s then int88_t (exponent s - 1) else exponent s;
              num_digits := num_digits';
              is_decimal := is_decimal s |}
    else
      Some {| integer_value := integer_value s;
              exponent := if negb (is_decimal s) then int88_t (exponent s + 1) else exponent s;
              num_digits := num_digits';
              is_decimal := is_decimal s |}
  else if (current_char =? Z.land (46 - 48) 255) && negb (is_decimal s) then
    Some {| integer_value := integer_value s;
            exponent := exponent s;
            num_digits := num_digits s;
            is_decimal := true |}
  else None.

(** The digit loop. [ptr] is the text from the pointer on and [n] is
    [ptr - line]. When the text is exhausted the fetch reads the terminating
    NUL, on which the next pass breaks ([scan_char_NUL] below). *)
Fixpoint read_float_loop (ptr : string) (current_char : Z) (s : scan) (n : Z)
  : scan * Z :=
  match scan_char s current_char with
  | None => (s, n)
  | Some s' =>
      match ptr with
      | EmptyString => (s', n + 1)
      | String c rest => read_float_loop rest (code c) s' (n + 1)
      end
  end.

Section Decimal.
Context {F : Type} `{FloatOps F}.

(** [while (exponent <= -2) { float_value *= 0.01; exponent += 2; }]
    The loop runs at most [-exponent / 2] times; [fuel] bounds it. *)
Fixpoint scale_down (fuel : nat) (float_value : F) (exponent : Z) : F * Z :=
  match fuel with
  | O => (float_value, exponent)
  | S fuel' =>
      if exponent <=? -2
      then scale_down fuel' (fmul_0_01 float_value) (int88_t (exponent + 2))
      else (float_value, exponent)
  end.

(** [do { float_value *= 10.0; } while (--exponent > 0);] *)
Fixpoint scale_up (fuel : nat) (float_value : F) (exponent : Z) : F * Z :=
  match fuel with
  | O => (float_value, exponent)
  | S fuel' =>
      let float_value := fmul_10_0 float_value in
      let exponent := int88_t (exponent - 1) in
      if exponent >? 0 then scale_up fuel' float_value exponent
      else (float_value, exponent)
  end.

(** The body of [if (float_value != 0)]. *)
Definition apply_exponent (float_value : F) (exponent : Z) : F :=
  let '(float_value, exponent) :=
    scale_down (Z.to_nat (- exponent)) float_value exponent in
  if exponent <? 0 then fmul_0_1 float_value
  else if exponent >? 0 then fst (scale_up (Z.to_nat exponent) float_value exponent)
  else float_value.

(** Conversion of the integer and application of the decimal exponent. *)
Definition apply_decimal (integer_value exponent : Z) : F :=
  let float_value := float_of_uint32 integer_value in
  if fnonzero float_value then apply_exponent float_value exponent
  else float_value.

(** [read_float(line, &char_counter, &float_ptr)]: the returned flag and the
    contents of the two output locations afterwards. *)
Definition read_float (line : string) (char_counter : Z) (float_ptr : F)
  : bool * Z * F :=
  let ptr := advance (Z.to_nat char_counter) line in
  let '(current_char, ptr) := fetch ptr in
  let n := char_counter + 1 in
  let '(is_negative, current_char, ptr, n) :=
    if current_char =? 45 then
      let '(current_char, ptr) := fetch ptr in (true, current_char, ptr, n + 1)
    else if current_char =? 43 then
      let '(current_char, ptr) := fetch ptr in (false, current_char, ptr, n + 1)
    else (false, current_char, ptr, n) in
  let '(s, n) := read_float_loop ptr current_char scan_init n in
  if num_digits s =? 0 then (false, char_counter, float_ptr)
  else
    let float_value := apply_decimal (integer_value s) (exponent s) in
    (true, uint8_t (n - 1), if is_negative then fneg float_value else float_value).

End Decimal.

Definition read_float32 := @read_float B32.float binary32_ops.


(** ** Properties of the digit loop *)

Definition is_digit (c : ascii) : bool := (48 <=? code c) && (code c <=? 57).

Definition digit_value (c : ascii) : Z := code c - 48.

Fixpoint all_digits (s : string) : bool :=
  match s with
  | EmptyString => true
  | String c rest => is_digit c && all_digits rest
  end.

(** The decimal value of a run of digits appended to [acc]. *)
Fixpoint digits_value_from (acc : Z) (s : string) : Z :=
  match s with
  | EmptyString => acc
  | String c rest => digits_value_from (10 * acc + digit_value c) rest
  end.

Definition digits_value : string -> Z := digits_value_from 0.

Definition len (s : string) : Z := Z.of_nat (String.length s).

(** The fetch of the next character followed by the digit loop. *)
Definition loop_on (text : string) (s : scan) (n : Z) : scan * Z :=
  let '(current_char, ptr) := fetch text in
  read_float_loop ptr current_char s (n + 1).

Lemma code_range (c : ascii) : 0 <= code c < 256.
Proof.
  unfold code. pose proof (N_ascii_bounded c) as Hb. lia.
Qed.

Lemma scan_char_NUL (s : scan) : scan_char s 0 = None.
Proof. reflexivity. Qed.

Lemma loop_on_nil (s : scan) (n : Z) : loop_on EmptyString s n = (s, n + 1).
Proof. reflexivity. Qed.

Lemma loop_on_cons (c : ascii) (rest : string) (s : scan) (n : Z) :
  loop_on (String c rest) s n =
  match scan_char s (code c) with
  | None => (s, n + 1)
  | Some s' => loop_on rest s' (n + 1)
  end.
Proof.
  unfold loop_on. cbn [fetch].
  destruct rest as [|c' rest']; cbn [fetch read_float_loop];
    destruct (scan_char s (code c)) as [s'|]; reflexivity.
Qed.

Lemma uint8_digit (c : ascii) :
  (uint8_t (code c - 48) <=? 9) = is_digit c.
Proof.
  unfold uint8_t, is_digit. pose proof (code_range c) as Hc.
  destruct (Z.leb_spec 48 (code c)) as [H1|H1]; cbn [andb].
  - rewrite Z.mod_small by lia.
    destruct (Z.leb_spec (code c - 48) 9), (Z.leb_spec (code c) 57); lia || reflexivity.
  - replace (code c - 48) with (code c + 208 + (-1) * 256) by lia.
    rewrite Z.mod_add by lia. rewrite Z.mod_small by lia.
    destruct (Z.leb_spec (code c + 208) 9); lia || reflexivity.
Qed.

Lemma uint8_digit_value (c : ascii) :
  is_digit c = true -> uint8_t (code c - 48) = digit_value c.
Proof.
  unfold is_digit, uint8_t, digit_value. intros H.
  apply andb_prop in H as [H1 H2]. apply Z.leb_le in H1, H2.
  apply Z.mod_small. lia.
Qed.

Lemma uint8_point (c : ascii) :
  is_digit c = false ->
  (uint8_t (code c - 48) =? Z.land (46 - 48) 255) = (code c =? 46).
Proof.
  intros Hd. change (Z.land (46 - 48) 255) with 254.
  unfold uint8_t. pose proof (code_range c) as Hc.
  destruct (Z.leb_spec 48 (code c)) as [H1|H1].
  - rewrite Z.mod_small by lia.
    destruct (Z.eqb_spec (code c - 48) 254), (Z.eqb_spec (code c) 46); lia || reflexivity.
  - replace (code c - 48) with (code c + 208 + (-1) * 256) by lia.
    rewrite Z.mod_add by lia. rewrite Z.mod_small by lia.
    destruct (Z.eqb_spec (code c + 208) 254), (Z.eqb_spec (code c) 46); lia || reflexivity.
Qed.

Lemma digit_value_range (c : ascii) :
  is_digit c = true -> 0 <= digit_value c <= 9.
Proof.
  unfold is_digit, digit_value. intros H.
  apply andb_prop in H as [H1 H2]. apply Z.leb_le in H1, H2. lia.
Qed.

(** The shift-and-add expression is [integer_value * 10 + current_char]
    in [uint32_t]. *)
Lemma times_ten (v d : Z) :
  uint32_t (uint32_t (Z.shiftl (uint32_t (uint32_t (Z.shiftl v 2) + v)) 1) + d)
  = uint32_t (10 * v + d).
Proof.
  unfold uint32_t. rewrite !Z.shiftl_mul_pow2 by lia.
  change (2 ^ 2) with 4. change (2 ^ 1) with 2.
  Z.div_mod_to_equations. lia.
Qed.

(** The values the exponent holds at its width, and at every width. *)
Lemma int88_t_holds (z : Z) :
  - 2 ^ (exponent_bits - 1) <= z < 2 ^ (exponent_bits - 1) -> int88_t z = z.
Proof.
  intros Hz. unfold int88_t.
  pose proof exponent_bits_min as Hb.
  replace (2 ^ exponent_bits) with (2 * 2 ^ (exponent_bits - 1)).
  - rewrite Z.mod_small; lia.
  - rewrite <- Z.pow_succ_r by lia. f_equal. lia.
Qed.

Lemma exponent_bits_128 : 128 <= 2 ^ (exponent_bits - 1).
Proof.
  pose proof exponent_bits_min as Hb.
  change 128 with (2 ^ 7). apply Z.pow_le_mono_r; lia.
Qed.

Lemma int88_t_small (z : Z) : - 128 <= z < 128 -> int88_t z = z.
Proof.
  intros Hz. apply int88_t_holds. pose proof exponent_bits_128. lia.
Qed.

(** *** Strings *)

Lemma append_assoc (a b c : string) : ((a ++ b) ++ c = a ++ (b ++ c))%string.
Proof. induction a as [|x a IH]; cbn; [reflexivity | now rewrite IH]. Qed.

Lemma len_nonneg (s : string) : 0 <= len s.
Proof. unfold len. lia. Qed.

Lemma len_cons (c : ascii) (s : string) : len (String c s) = 1 + len s.
Proof. unfold len. cbn [String.length]. lia. Qed.

Lemma len_app (a b : string) : len (a ++ b) = len a + len b.
Proof.
  induction a as [|x a IH]; cbn [append].
  - unfold len at 2. cbn. lia.
  - rewrite !len_cons, IH. lia.
Qed.

Lemma advance_app (pre rest : string) :
  advance (Z.to_nat (len pre)) (pre ++ rest) = rest.
Proof.
  unfold len. rewrite Nat2Z.id.
  induction pre as [|x pre IH]; cbn; [reflexivity | exact IH].
Qed.

Lemma all_digits_app (a b : string) :
  all_digits (a ++ b) = all_digits a && all_digits b.
Proof.
  induction a as [|x a IH]; cbn; [reflexivity|].
  rewrite IH. now rewrite andb_assoc.
Qed.

Lemma digits_value_from_app (a b : string) (acc : Z) :
  digits_value_from acc (a ++ b) = digits_value_from (digits_value_from acc a) b.
Proof.
  revert acc. induction a as [|x a IH]; intros acc; cbn; [reflexivity | apply IH].
Qed.

(** *** A run of accepted digits *)

(** The loop variables after the digits [ds] have all been accepted. *)
Definition accepted (s : scan) (ds : string) : scan :=
  {| integer_value := digits_value_from (integer_value s) ds;
     exponent := if is_decimal s then exponent s - len ds else exponent s;
     num_digits := num_digits s + len ds;
     is_decimal := is_decimal s |}.

Lemma pow10_succ (k : Z) : 0 <= k -> 10 ^ (k + 1) = 10 * 10 ^ k.
Proof. intros Hk. now rewrite <- Z.pow_succ_r. Qed.

Lemma pow10_le_8 (k : Z) : k <= 8 -> 10 ^ k <= 100000000.
Proof.
  intros Hk. change 100000000 with (10 ^ 8). apply Z.pow_le_mono_r; lia.
Qed.

Lemma scan_char_accept (s : scan) (c : ascii) :
  is_digit c = true ->
  0 <= num_digits s < MAX_INT_DIGITS ->
  0 <= integer_value s < 10 ^ num_digits s ->
  - 128 < exponent s < 128 ->
  scan_char s (code c) = Some (accepted s (String c EmptyString)).
Proof.
  unfold MAX_INT_DIGITS. intros Hd Hn Hv He.
  unfold scan_char. rewrite uint8_digit, Hd.
  rewrite (uint8_digit_value c Hd).
  pose proof (digit_value_range c Hd) as Hr.
  assert (Hu : uint8_t (num_digits s + 1) = num_digits s + 1)
    by (unfold uint8_t; apply Z.mod_small; lia).
  rewrite Hu. unfold MAX_INT_DIGITS.
  destruct (Z.leb_spec (num_digits s + 1) 8) as [_|]; [|lia].
  rewrite times_ten.
  pose proof (pow10_succ (num_digits s) (proj1 Hn)) as Hp.
  pose proof (pow10_le_8 (num_digits s + 1) ltac:(lia)) as Hq.
  assert (Hw : uint32_t (10 * integer_value s + digit_value c)
               = 10 * integer_value s + digit_value c)
    by (unfold uint32_t; apply Z.mod_small; lia).
  rewrite Hw. unfold accepted. cbn [digits_value_from integer_value exponent
    num_digits is_decimal]. rewrite len_cons. change (len EmptyString) with 0.
  f_equal. f_equal.
  destruct (is_decimal s); [|reflexivity].
  rewrite int88_t_small by lia. lia.
Qed.

Lemma accepted_value_bound (s : scan) (ds : string) :
  all_digits ds = true ->
  0 <= num_digits s ->
  0 <= integer_value s < 10 ^ num_digits s ->
  0 <= digits_value_from (integer_value s) ds < 10 ^ (num_digits s + len ds).
Proof.
  revert s. induction ds as [|c ds IH]; intros s Hd Hn Hv.
  - cbn [digits_value_from]. change (len EmptyString) with 0.
    now rewrite Z.add_0_r.
  - cbn [all_digits] in Hd. apply andb_prop in Hd as [Hc Hd].
    pose proof (digit_value_range c Hc) as Hr.
    pose proof (pow10_succ (num_digits s) Hn) as Hp.
    cbn [digits_value_from]. rewrite len_cons.
    specialize (IH {| integer_value := 10 * integer_value s + digit_value c;
                      exponent := exponent s;
                      num_digits := num_digits s + 1;
                      is_decimal := is_decimal s |} Hd).
    cbn [integer_value num_digits] in IH.
    replace (num_digits s + (1 + len ds)) with (num_digits s + 1 + len ds) by lia.
    apply IH; lia.
Qed.

Lemma accepted_app (s : scan) (a b : string) :
  accepted (accepted s a) b = accepted s (a ++ b).
Proof.
  unfold accepted. cbn [integer_value exponent num_digits is_decimal].
  rewrite digits_value_from_app, len_app.
  f_equal; [destruct (is_decimal s)|]; lia.
Qed.

Lemma loop_on_digits (ds rest : string) (s : scan) (n : Z) :
  all_digits ds = true ->
  0 <= num_digits s ->
  num_digits s + len ds <= MAX_INT_DIGITS ->
  0 <= integer_value s < 10 ^ num_digits s ->
  - 120 < exponent s - len ds /\ exponent s < 120 ->
  loop_on (ds ++ rest) s n = loop_on rest (accepted s ds) (n + len ds).
Proof.
  unfold MAX_INT_DIGITS.
  revert s n. induction ds as [|c ds IH]; intros s n Hd Hn Hm Hv He.
  - cbn [append]. change (len EmptyString) with 0. rewrite Z.add_0_r.
    f_equal. unfold accepted. change (len EmptyString) with 0.
    destruct s as [v e k d]; cbn. f_equal; [destruct d|]; lia.
  - cbn [all_digits] in Hd. apply andb_prop in Hd as [Hc Hd].
    rewrite len_cons in Hm. pose proof (len_nonneg ds) as Hl.
    assert (He' : - 120 < exponent s - (1 + len ds) /\ exponent s < 120)
      by (rewrite len_cons in He; exact He).
    cbn [append]. rewrite loop_on_cons.
    rewrite (scan_char_accept s c Hc) by (unfold MAX_INT_DIGITS; lia).
    rewrite IH.
    + rewrite accepted_app. cbn [append]. rewrite len_cons. f_equal. lia.
    + exact Hd.
    + cbn. lia.
    + cbn [accepted num_digits]. rewrite len_cons. change (len EmptyString) with 0. lia.
    + cbn [accepted num_digits integer_value]. rewrite len_cons.
      change (len EmptyString) with 0.
      pose proof (accepted_value_bound s (String c EmptyString)) as Hb.
      rewrite len_cons in Hb. change (len EmptyString) with 0 in Hb.
      apply Hb; [cbn; now rewrite Hc | lia | lia].
    + cbn [accepted exponent]. rewrite len_cons in *. change (len EmptyString) with 0.
      destruct (is_decimal s); lia.
Qed.

Lemma scan_char_point (s : scan) :
  is_decimal s = false ->
  scan_char s 46 =
  Some {| integer_value := integer_value s; exponent := exponent s;
          num_digits := num_digits s; is_decimal := true |}.
Proof. intros Hd. unfold scan_char. rewrite Hd. reflexivity. Qed.

Lemma scan_char_stop (s : scan) (c : ascii) :
  is_digit c = false ->
  is_decimal s = true \/ code c <> 46 ->
  scan_char s (code c) = None.
Proof.
  intros Hd Hp. unfold scan_char.
  rewrite uint8_digit, Hd, (uint8_point c Hd).
  destruct Hp as [Hp|Hp].
  - rewrite Hp. now rewrite andb_false_r.
  - apply Z.eqb_neq in Hp. now rewrite Hp.
Qed.

(** ** Numerals *)

Inductive sign : Type := NoSign | Plus | Minus.

Definition sign_text (sg : sign) : string :=
  match sg with
  | NoSign => ""
  | Plus => "+"
  | Minus => "-"
  end.

(** A numeral [sign int_digits] or [sign int_digits . frac_digits]. *)
Record numeral : Type := {
  num_sign : sign;
  int_digits : string;
  has_point : bool;
  frac_digits : string
}.

Definition numeral_text (x : numeral) : string :=
  sign_text (num_sign x) ++ int_digits x
    ++ (if has_point x then "." ++ frac_digits x else "").

Definition nonempty (s : string) : bool :=
  match s with
  | EmptyString => false
  | String _ _ => true
  end.

Definition all_digits_of (x : numeral) : string := int_digits x ++ frac_digits x.

(** The grammar of the specification, [[+-]?digits[.digits]?]. *)
Definition in_grammar (x : numeral) : bool :=
  all_digits (int_digits x) && nonempty (int_digits x)
  && (if has_point x
      then all_digits (frac_digits x) && nonempty (frac_digits x)
      else negb (nonempty (frac_digits x))).

(** What the digit loop reads as a number: digits with at most one decimal
    point anywhere among them, and at least one digit. *)
Definition scannable (x : numeral) : bool :=
  all_digits (int_digits x) && all_digits (frac_digits x)
  && (has_point x || negb (nonempty (frac_digits x)))
  && nonempty (all_digits_of x).

(** The number of digit characters of the numeral. *)
Definition digit_count (x : numeral) : Z := len (all_digits_of x).

(** The mathematical value of the numeral. *)
Definition numeral_value (x : numeral) : Q :=
  let v := (inject_Z (digits_value (all_digits_of x))
            / inject_Z (10 ^ len (frac_digits x)))%Q in
  match num_sign x with
  | Minus => Qopp v
  | _ => v
  end.

(** The character after the numeral ends the scan: it is not a digit, and not
    a decimal point unless the numeral already has one. *)
Definition stops (x : numeral) (tail : string) : bool :=
  match tail with
  | EmptyString => true
  | String c _ => negb (is_digit c) && (has_point x || negb (code c =? 46))
  end.

Lemma in_grammar_scannable (x : numeral) :
  in_grammar x = true -> scannable x = true.
Proof.
  unfold in_grammar, scannable, all_digits_of.
  destruct x as [sg i p f]; cbn [int_digits has_point frac_digits].
  intros H. apply andb_prop in H as [H Hf]. apply andb_prop in H as [Hi Hn].
  rewrite Hi. destruct i as [|c i]; [discriminate|]. cbn [nonempty append].
  destruct p; cbn [orb].
  - apply andb_prop in Hf as [Hf _]. now rewrite Hf.
  - destruct f; [reflexivity | discriminate].
Qed.

Section ReadFloatScan.
Context {F : Type} `{FloatOps F}.

(** The end of [read_float], from the loop variables on. *)
Definition finish (char_counter : Z) (float_ptr : F) (is_negative : bool)
    (r : scan * Z) : bool * Z * F :=
  let '(s, n) := r in
  if num_digits s =? 0 then (false, char_counter, float_ptr)
  else
    let float_value := apply_decimal (integer_value s) (exponent s) in
    (true, uint8_t (n - 1), if is_negative then fneg float_value else float_value).

Lemma read_float_eq (line : string) (char_counter : Z) (float_ptr : F) :
  read_float line char_counter float_ptr =
  let text := advance (Z.to_nat char_counter) line in
  let c0 := fst (fetch text) in
  if c0 =? 45 then
    finish char_counter float_ptr true
      (loop_on (snd (fetch text)) scan_init (char_counter + 1))
  else if c0 =? 43 then
    finish char_counter float_ptr false
      (loop_on (snd (fetch text)) scan_init (char_counter + 1))
  else
    finish char_counter float_ptr false (loop_on text scan_init char_counter).
Proof.
  unfold read_float, finish, loop_on. cbv zeta.
  destruct (fetch (advance (Z.to_nat char_counter) line)) as [c0 p] eqn:E.
  cbn [fst snd].
  destruct (c0 =? 45); [|destruct (c0 =? 43)].
  - destruct (fetch p) as [c1 p1]. reflexivity.
  - destruct (fetch p) as [c1 p1]. reflexivity.
  - reflexivity.
Qed.

(** The loop variables after the digits and the point of [x]. *)
Definition scanned (x : numeral) : scan :=
  {| integer_value := digits_value (all_digits_of x);
     exponent := - len (frac_digits x);
     num_digits := digit_count x;
     is_decimal := has_point x |}.

Lemma loop_on_numeral (x : numeral) (tail : string) (n : Z) :
  scannable x = true ->
  digit_count x <= MAX_INT_DIGITS ->
  stops x tail = true ->
  loop_on (int_digits x ++ (if has_point x then "." ++ frac_digits x else "") ++ tail)
          scan_init n
  = (scanned x, n + len (int_digits x)
                + (if has_point x then 1 + len (frac_digits x) else 0) + 1).
Proof.
  unfold scanned, scannable, digit_count, all_digits_of, MAX_INT_DIGITS, stops.
  destruct x as [sg i p f]; cbn [int_digits has_point frac_digits num_sign].
  intros Hs Hc Ht.
  apply andb_prop in Hs as [Hs Hne]. apply andb_prop in Hs as [Hs Hpf].
  apply andb_prop in Hs as [Hi Hf].
  rewrite len_app in Hc. pose proof (len_nonneg i) as Hli.
  pose proof (len_nonneg f) as Hlf.
  assert (Hend : forall s m, is_decimal s = p -> loop_on tail s m = (s, m + 1)).
  { intros s m Hd. destruct tail as [|c tail]; [apply loop_on_nil|].
    rewrite loop_on_cons. apply andb_prop in Ht as [Hnd Hpt].
    apply negb_true_iff in Hnd.
    rewrite scan_char_stop; [reflexivity | exact Hnd |].
    rewrite Hd. destruct p; [now left | right].
    cbn [orb] in Hpt. apply negb_true_iff in Hpt. now apply Z.eqb_neq. }
  rewrite loop_on_digits;
    [| exact Hi | cbn; lia | unfold MAX_INT_DIGITS; cbn; lia | cbn; lia | cbn; lia].
  destruct p.
  - cbn [append]. rewrite loop_on_cons.
    change (code ".") with 46. rewrite scan_char_point by reflexivity.
    cbn [accepted integer_value exponent num_digits is_decimal scan_init].
    pose proof (accepted_value_bound scan_init i Hi ltac:(cbn; lia) ltac:(cbn; lia)) as Hb.
    cbn [scan_init integer_value num_digits] in Hb.
    rewrite loop_on_digits;
      [| exact Hf | cbn; lia | unfold MAX_INT_DIGITS; cbn; lia | cbn; exact Hb
       | cbn; lia].
    rewrite Hend by reflexivity. unfold accepted, digits_value.
    cbn [integer_value exponent num_digits is_decimal].
    rewrite digits_value_from_app, len_app. f_equal; try f_equal; lia.
  - cbn [orb] in Hpf. apply negb_true_iff in Hpf.
    destruct f; [|discriminate]. cbn [append].
    rewrite Hend by reflexivity. unfold accepted, digits_value.
    cbn [integer_value exponent num_digits is_decimal scan_init].
    rewrite digits_value_from_app, len_app. change (len EmptyString) with 0.
    cbn [digits_value_from]. f_equal; try f_equal; lia.
Qed.

End ReadFloatScan.

Lemma nonempty_len (s : string) : nonempty s = true -> 1 <= len s.
Proof.
  destruct s; [discriminate|]. intros _. rewrite len_cons.
  pose proof (len_nonneg s). lia.
Qed.

(** The text of a scannable numeral without its sign starts with a digit or
    with the decimal point, never with a sign character. *)
Lemma body_first_char (x : numeral) (tail : string) :
  scannable x = true ->
  let body := (int_digits x ++ (if has_point x then "." ++ frac_digits x else "")
               ++ tail)%string in
  (fst (fetch body) =? 45) = false /\ (fst (fetch body) =? 43) = false.
Proof.
  unfold scannable, all_digits_of.
  destruct x as [sg i p f]; cbn [int_digits has_point frac_digits].
  intros Hs. apply andb_prop in Hs as [Hs Hne]. apply andb_prop in Hs as [Hs Hpf].
  apply andb_prop in Hs as [Hi Hf].
  destruct i as [|c i].
  - cbn [append] in *. destruct p.
    + cbn. split; reflexivity.
    + cbn [orb] in Hpf. destruct f; discriminate.
  - cbn [append fetch fst]. cbn [all_digits] in Hi.
    apply andb_prop in Hi as [Hc _]. unfold is_digit in Hc.
    apply andb_prop in Hc as [H1 H2]. apply Z.leb_le in H1, H2.
    split; apply Z.eqb_neq; lia.
Qed.

Section ReadFloatNumeral.
Context {F : Type} `{FloatOps F}.

(** The value [read_float] stores for the numeral [x]. *)
Definition decoded (x : numeral) : F :=
  let float_value :=
    apply_decimal (digits_value (all_digits_of x)) (- len (frac_digits x)) in
  match num_sign x with
  | Minus => fneg float_value
  | _ => float_value
  end.

Lemma read_float_numeral (pre : string) (x : numeral) (tail : string) (old : F) :
  scannable x = true ->
  digit_count x <= MAX_INT_DIGITS ->
  stops x tail = true ->
  read_float (pre ++ numeral_text x ++ tail) (len pre) old
  = (true, uint8_t (len pre + len (numeral_text x)), decoded x).
Proof.
  intros Hs Hc Ht.
  pose proof (body_first_char x tail Hs) as [Hm Hp]. cbv zeta in Hm, Hp.
  assert (Hn : 1 <= digit_count x).
  { unfold scannable in Hs. apply andb_prop in Hs as [_ Hne].
    now apply nonempty_len. }
  rewrite read_float_eq, advance_app. cbv zeta.
  unfold numeral_text, decoded. rewrite !append_assoc, !len_app.
  set (body := (int_digits x ++ (if has_point x then "." ++ frac_digits x else "")
                ++ tail)%string) in *.
  assert (Hfin : forall neg n,
    finish (len pre) old neg (loop_on body scan_init n)
    = (true,
       uint8_t (n + len (int_digits x)
                + (if has_point x then 1 + len (frac_digits x) else 0)),
       let v := apply_decimal (digits_value (all_digits_of x))
                  (- len (frac_digits x)) in
       if neg then fneg v else v)).
  { intros neg n. subst body. rewrite (loop_on_numeral x tail n Hs Hc Ht).
    unfold finish, scanned. cbn [num_digits integer_value exponent].
    destruct (Z.eqb_spec (digit_count x) 0) as [E|_]; [lia|].
    f_equal. f_equal. f_equal. lia. }
  assert (Hpt : len (if has_point x then "." ++ frac_digits x else "")
                = if has_point x then 1 + len (frac_digits x) else 0).
  { destruct (has_point x); [|reflexivity].
    change ("." ++ frac_digits x)%string with (String "." (frac_digits x)).
    now rewrite len_cons. }
  rewrite Hpt.
  destruct (num_sign x); cbn [sign_text append].
  - rewrite Hm, Hp, Hfin. change (len "") with 0. f_equal. f_equal. f_equal. lia.
  - cbn [fetch fst snd]. change (code "+" =? 45) with false.
    change (code "+" =? 43) with true. cbv iota.
    rewrite Hfin. change (len "+") with 1. f_equal. f_equal. f_equal. lia.
  - cbn [fetch fst snd]. change (code "-" =? 45) with true. cbv iota.
    rewrite Hfin. change (len "-") with 1. f_equal. f_equal. f_equal. lia.
Qed.

End ReadFloatNumeral.

(** ** Inputs without a readable digit *)

Definition starts_with_digit (text : string) : bool :=
  match text with
  | EmptyString => false
  | String c _ => is_digit c
  end.

(** The text after an optional leading [-] or [+]. *)
Definition strip_sign (text : string) : string :=
  match text with
  | EmptyString => text
  | String c rest => if (code c =? 45) || (code c =? 43) then rest else text
  end.

(** The text after an optional decimal point. *)
Definition strip_point (text : string) : string :=
  match text with
  | EmptyString => text
  | String c rest => if code c =? 46 then rest else text
  end.

(** No digit is readable at the cursor: after the optional sign and the
    optional decimal point the text does not continue with a digit. *)
Definition no_digit_at (line : string) (cursor : Z) : bool :=
  negb (starts_with_digit (strip_point (strip_sign (advance (Z.to_nat cursor) line)))).

Lemma loop_on_no_digit_after_point (text : string) (s : scan) (n : Z) :
  starts_with_digit text = false ->
  is_decimal s = true ->
  loop_on text s n = (s, n + 1).
Proof.
  intros Hd Hp. destruct text as [|c rest]; [apply loop_on_nil|].
  rewrite loop_on_cons, scan_char_stop; [reflexivity | exact Hd | now left].
Qed.

Lemma loop_on_no_digit (text : string) (s : scan) (n : Z) :
  is_decimal s = false ->
  starts_with_digit (strip_point text) = false ->
  num_digits (fst (loop_on text s n)) = num_digits s.
Proof.
  intros Hp Hd. destruct text as [|c rest]; [reflexivity|].
  rewrite loop_on_cons. cbn [strip_point] in Hd.
  destruct (Z.eqb_spec (code c) 46) as [E|E].
  - rewrite E, scan_char_point by exact Hp.
    rewrite loop_on_no_digit_after_point; [reflexivity | exact Hd | reflexivity].
  - rewrite scan_char_stop; [reflexivity | exact Hd | now right].
Qed.

Section NoDigit.
Context {F : Type} `{FloatOps F}.

Lemma finish_no_digit (cc : Z) (old : F) (neg : bool) (r : scan * Z) :
  num_digits (fst r) = 0 -> finish cc old neg r = (false, cc, old).
Proof.
  destruct r as [s n]. cbn [fst]. intros E. unfold finish. now rewrite E.
Qed.

Lemma read_float_no_digit (line : string) (char_counter : Z) (float_ptr : F) :
  no_digit_at line char_counter = true ->
  read_float line char_counter float_ptr = (false, char_counter, float_ptr).
Proof.
  unfold no_digit_at. intros Hn. apply negb_true_iff in Hn.
  rewrite read_float_eq. cbv zeta.
  destruct (advance (Z.to_nat char_counter) line) as [|c rest].
  - reflexivity.
  - cbn [fetch fst snd]. cbn [strip_sign] in Hn.
    destruct (code c =? 45); cbn [orb] in Hn.
    + apply finish_no_digit. now rewrite loop_on_no_digit.
    + destruct (code c =? 43).
      * apply finish_no_digit. now rewrite loop_on_no_digit.
      * apply finish_no_digit. now rewrite loop_on_no_digit.
Qed.

End NoDigit.

(** ** Digits beyond the cap *)

(** The loop variables after the digits [ds] have all been dropped. *)
Definition dropped (s : scan) (ds : string) : scan :=
  {| integer_value := integer_value s;
     exponent := if is_decimal s then exponent s else exponent s + len ds;
     num_digits := num_digits s + len ds;
     is_decimal := is_decimal s |}.

Lemma scan_char_drop (s : scan) (c : ascii) :
  is_digit c = true ->
  MAX_INT_DIGITS <= num_digits s < 255 ->
  is_decimal s = true
  \/ - 2 ^ (exponent_bits - 1) <= exponent s < 2 ^ (exponent_bits - 1) - 1 ->
  scan_char s (code c) = Some (dropped s (String c EmptyString)).
Proof.
  unfold MAX_INT_DIGITS. intros Hd Hn He.
  unfold scan_char. rewrite uint8_digit, Hd.
  assert (Hu : uint8_t (num_digits s + 1) = num_digits s + 1)
    by (unfold uint8_t; apply Z.mod_small; lia).
  rewrite Hu. unfold MAX_INT_DIGITS.
  destruct (Z.leb_spec (num_digits s + 1) 8) as [|_]; [lia|].
  unfold dropped. rewrite len_cons. change (len EmptyString) with 0.
  f_equal. f_equal.
  destruct (is_decimal s); cbn [negb]; [reflexivity|].
  destruct He as [He|He]; [discriminate|].
  rewrite int88_t_holds by lia. lia.
Qed.

Lemma dropped_app (s : scan) (a b : string) :
  dropped (dropped s a) b = dropped s (a ++ b).
Proof.
  unfold dropped. cbn [integer_value exponent num_digits is_decimal].
  rewrite len_app. f_equal; [destruct (is_decimal s)|]; lia.
Qed.

Lemma loop_on_excess (ds rest : string) (s : scan) (n : Z) :
  all_digits ds = true ->
  ds = EmptyString \/ MAX_INT_DIGITS <= num_digits s ->
  num_digits s + len ds <= 255 ->
  is_decimal s = true
  \/ (- 2 ^ (exponent_bits - 1) <= exponent s
      /\ exponent s + len ds < 2 ^ (exponent_bits - 1)) ->
  loop_on (ds ++ rest) s n = loop_on rest (dropped s ds) (n + len ds).
Proof.
  unfold MAX_INT_DIGITS.
  revert s n. induction ds as [|c ds IH]; intros s n Hd Hn Hm He.
  - cbn [append]. change (len EmptyString) with 0. rewrite Z.add_0_r.
    f_equal. unfold dropped. change (len EmptyString) with 0.
    destruct s as [v e k d]; cbn. f_equal; [destruct d|]; lia.
  - cbn [all_digits] in Hd. apply andb_prop in Hd as [Hc Hd].
    rewrite len_cons in Hm, He. pose proof (len_nonneg ds) as Hl.
    destruct Hn as [Hn|Hn]; [discriminate|].
    cbn [append]. rewrite loop_on_cons.
    rewrite (scan_char_drop s c Hc);
      [| unfold MAX_INT_DIGITS; lia | destruct He as [He|He]; [now left | right; lia]].
    rewrite IH.
    + rewrite dropped_app. cbn [append]. rewrite len_cons. f_equal. lia.
    + exact Hd.
    + right. cbn [dropped num_digits]. rewrite len_cons.
      change (len EmptyString) with 0. lia.
    + cbn [dropped num_digits]. rewrite len_cons. change (len EmptyString) with 0. lia.
    + cbn [dropped exponent is_decimal]. rewrite len_cons. change (len EmptyString) with 0.
      destruct He as [He|He]; [left; exact He|].
      destruct (is_decimal s); [now left | right; lia].
Qed.

(** The first [n] characters of a text. *)
Fixpoint keep (n : nat) (s : string) : string :=
  match n, s with
  | O, _ => EmptyString
  | S k, EmptyString => EmptyString
  | S k, String c rest => String c (keep k rest)
  end.

Lemma keep_advance (n : nat) (s : string) : (keep n s ++ advance n s)%string = s.
Proof.
  revert s. induction n as [|n IH]; intros [|c s]; cbn; try reflexivity.
  now rewrite IH.
Qed.

Lemma len_keep (n : nat) (s : string) : len (keep n s) = Z.min (Z.of_nat n) (len s).
Proof.
  revert s. induction n as [|n IH]; intros [|c s]; cbn [keep].
  - reflexivity.
  - pose proof (len_nonneg (String c s)). change (len EmptyString) with 0. lia.
  - change (len EmptyString) with 0. lia.
  - rewrite !len_cons, IH. lia.
Qed.

Lemma all_digits_keep (n : nat) (s : string) :
  all_digits s = true -> all_digits (keep n s) = true.
Proof.
  revert s. induction n as [|n IH]; intros [|c s] Hs; cbn; try reflexivity.
  cbn in Hs. apply andb_prop in Hs as [Hc Hs]. now rewrite Hc, IH.
Qed.

Lemma all_digits_advance (n : nat) (s : string) :
  all_digits s = true -> all_digits (advance n s) = true.
Proof.
  revert s. induction n as [|n IH]; intros [|c s] Hs; cbn; try assumption.
  cbn in Hs. apply andb_prop in Hs as [_ Hs]. now apply IH.
Qed.

Lemma keep_all (n : nat) (s : string) : len s <= Z.of_nat n -> keep n s = s.
Proof.
  revert s. induction n as [|n IH]; intros [|c s] Hs; cbn; try reflexivity.
  - rewrite len_cons in Hs. pose proof (len_nonneg s). lia.
  - rewrite len_cons in Hs. rewrite IH; [reflexivity | lia].
Qed.

Lemma keep_app_l (n : nat) (a b : string) :
  Z.of_nat n <= len a -> keep n (a ++ b) = keep n a.
Proof.
  revert a. induction n as [|n IH]; intros [|c a] Ha; cbn; try reflexivity.
  - change (len EmptyString) with 0 in Ha. lia.
  - rewrite len_cons in Ha. rewrite IH; [reflexivity | lia].
Qed.

Lemma keep_app_r (n : nat) (a b : string) :
  len a <= Z.of_nat n ->
  keep n (a ++ b) = (a ++ keep (n - String.length a) b)%string.
Proof.
  revert a. induction n as [|n IH]; intros [|c a] Ha; cbn; try reflexivity.
  - rewrite len_cons in Ha. pose proof (len_nonneg a). lia.
  - rewrite len_cons in Ha. rewrite IH; [reflexivity | lia].
Qed.

Ltac scan_simpl :=
  cbn [integer_value exponent num_digits is_decimal scan_init accepted dropped].

(** The loop variables after a numeral of any length: the first eight digits
    are in the accumulator, every further digit before the point has raised
    the exponent, every accepted digit after the point has lowered it. *)
Definition capped (x : numeral) : scan :=
  {| integer_value := digits_value (keep 8 (all_digits_of x));
     exponent := Z.max 0 (len (int_digits x) - MAX_INT_DIGITS)
                 - Z.min (len (frac_digits x))
                         (Z.max 0 (MAX_INT_DIGITS - len (int_digits x)));
     num_digits := digit_count x;
     is_decimal := has_point x |}.

Lemma loop_on_end (p : bool) (tail : string) :
  (match tail with
   | EmptyString => true
   | String c _ => negb (is_digit c) && (p || negb (code c =? 46))
   end) = true ->
  forall s m, is_decimal s = p -> loop_on tail s m = (s, m + 1).
Proof.
  intros Ht s m Hd. destruct tail as [|c tail]; [apply loop_on_nil|].
  rewrite loop_on_cons. apply andb_prop in Ht as [Hnd Hpt].
  apply negb_true_iff in Hnd.
  rewrite scan_char_stop; [reflexivity | exact Hnd |].
  rewrite Hd. destruct p; [now left | right].
  cbn [orb] in Hpt. apply negb_true_iff in Hpt. now apply Z.eqb_neq.
Qed.

(** More than eight digits before the point. *)
Lemma loop_on_long_int (i1 i2 f tail : string) (p : bool) (n : Z) :
  all_digits i1 = true -> all_digits i2 = true -> all_digits f = true ->
  len i1 = 8 ->
  p = true \/ f = EmptyString ->
  len i1 + len i2 + len f <= 255 ->
  len i2 < 2 ^ (exponent_bits - 1) ->
  (forall s m, is_decimal s = p -> loop_on tail s m = (s, m + 1)) ->
  loop_on ((i1 ++ i2) ++ (if p then "." ++ f else "") ++ tail) scan_init n
  = ({| integer_value := digits_value i1; exponent := len i2;
        num_digits := 8 + len i2 + len f; is_decimal := p |},
     n + (8 + len i2) + (if p then 1 + len f else 0) + 1).
Proof.
  intros H1 H2 Hf L1 Hp Hc Hw Hend. rewrite L1 in Hc.
  pose proof (len_nonneg i2) as Hl2. pose proof (len_nonneg f) as Hlf.
  pose proof exponent_bits_128 as Hb.
  rewrite append_assoc.
  rewrite loop_on_digits;
    [| exact H1 | scan_simpl; lia | unfold MAX_INT_DIGITS; scan_simpl; lia | scan_simpl; lia | scan_simpl; lia].
  rewrite loop_on_excess;
    [| exact H2 | right; unfold MAX_INT_DIGITS; scan_simpl; lia | scan_simpl; lia
     | right; scan_simpl; lia].
  unfold accepted, dropped. cbn [integer_value exponent num_digits is_decimal scan_init].
  fold (digits_value i1). rewrite L1.
  destruct p.
  - cbn [append]. rewrite loop_on_cons. change (code ".") with 46.
    rewrite scan_char_point by reflexivity.
    cbn [integer_value exponent num_digits is_decimal].
    rewrite loop_on_excess;
      [| exact Hf | right; unfold MAX_INT_DIGITS; scan_simpl; lia | scan_simpl; lia
       | left; reflexivity].
    rewrite Hend by reflexivity. unfold dropped.
    cbn [integer_value exponent num_digits is_decimal].
    f_equal; try f_equal; lia.
  - destruct Hp as [Hp|Hp]; [discriminate|]. subst f. cbn [append].
    rewrite Hend by reflexivity. change (len EmptyString) with 0.
    f_equal; try f_equal; lia.
Qed.

(** At most eight digits before the point. *)
Lemma loop_on_short_int (i f1 f2 tail : string) (p : bool) (n : Z) :
  all_digits i = true -> all_digits f1 = true -> all_digits f2 = true ->
  len i + len f1 <= 8 ->
  f2 = EmptyString \/ len i + len f1 = 8 ->
  p = true \/ (f1 ++ f2)%string = EmptyString ->
  len i + len f1 + len f2 <= 255 ->
  (forall s m, is_decimal s = p -> loop_on tail s m = (s, m + 1)) ->
  loop_on (i ++ (if p then "." ++ f1 ++ f2 else "") ++ tail) scan_init n
  = ({| integer_value := digits_value (i ++ f1); exponent := - len f1;
        num_digits := len i + len f1 + len f2; is_decimal := p |},
     n + len i + (if p then 1 + (len f1 + len f2) else 0) + 1).
Proof.
  intros Hi H1 H2 Hc8 Hf2 Hp Hc Hend.
  pose proof (len_nonneg i) as Hli. pose proof (len_nonneg f1) as Hl1.
  pose proof (len_nonneg f2) as Hl2.
  rewrite loop_on_digits;
    [| exact Hi | scan_simpl; lia | unfold MAX_INT_DIGITS; scan_simpl; lia | scan_simpl; lia | scan_simpl; lia].
  pose proof (accepted_value_bound scan_init i Hi ltac:(scan_simpl; lia) ltac:(scan_simpl; lia)) as Hb.
  cbn [scan_init integer_value num_digits] in Hb.
  unfold accepted. cbn [integer_value exponent num_digits is_decimal scan_init].
  destruct p.
  - cbn [append]. rewrite loop_on_cons. change (code ".") with 46.
    rewrite scan_char_point by reflexivity.
    cbn [integer_value exponent num_digits is_decimal].
    rewrite append_assoc.
    rewrite loop_on_digits;
      [| exact H1 | scan_simpl; lia | unfold MAX_INT_DIGITS; scan_simpl; lia | scan_simpl; exact Hb
       | scan_simpl; lia].
    unfold accepted. cbn [integer_value exponent num_digits is_decimal].
    rewrite loop_on_excess;
      [| exact H2
       | destruct Hf2 as [E|E]; [now left | right; unfold MAX_INT_DIGITS; scan_simpl; lia]
       | scan_simpl; lia | left; reflexivity].
    rewrite Hend by reflexivity. unfold dropped, digits_value.
    cbn [integer_value exponent num_digits is_decimal].
    rewrite digits_value_from_app. f_equal; try f_equal; lia.
  - destruct Hp as [Hp|Hp]; [discriminate|].
    destruct f1; [|discriminate]. cbn [append] in Hp. subst f2. cbn [append].
    rewrite Hend by reflexivity. unfold digits_value.
    rewrite digits_value_from_app. cbn [digits_value_from].
    change (len EmptyString) with 0. f_equal; try f_equal; lia.
Qed.

(** The digits before the point beyond the cap: each of them raises the
    exponent by one. *)
Definition excess_digits (x : numeral) : Z :=
  Z.max 0 (len (int_digits x) - MAX_INT_DIGITS).

(** The exponent type holds the count of excess digits. *)
Definition exponent_holds (x : numeral) : bool :=
  excess_digits x <? 2 ^ (exponent_bits - 1).

Lemma exponent_holds_127 (x : numeral) :
  len (int_digits x) <= 135 -> exponent_holds x = true.
Proof.
  intros Hl. unfold exponent_holds, excess_digits, MAX_INT_DIGITS.
  pose proof exponent_bits_128. apply Z.ltb_lt. lia.
Qed.

Lemma loop_on_long_numeral (x : numeral) (tail : string) (n : Z) :
  scannable x = true ->
  digit_count x <= 255 ->
  exponent_holds x = true ->
  stops x tail = true ->
  loop_on (int_digits x ++ (if has_point x then "." ++ frac_digits x else "") ++ tail)
          scan_init n
  = (capped x, n + len (int_digits x)
               + (if has_point x then 1 + len (frac_digits x) else 0) + 1).
Proof.
  unfold capped, scannable, digit_count, all_digits_of, MAX_INT_DIGITS, stops,
    exponent_holds, excess_digits.
  destruct x as [sg i p f]; cbn [int_digits has_point frac_digits num_sign].
  intros Hs Hc Hw Ht. apply Z.ltb_lt in Hw.
  apply andb_prop in Hs as [Hs Hne]. apply andb_prop in Hs as [Hs Hpf].
  apply andb_prop in Hs as [Hi Hf].
  rewrite len_app in Hc. pose proof (len_nonneg i) as Hli.
  pose proof (len_nonneg f) as Hlf.
  pose proof (loop_on_end p tail Ht) as Hend.
  assert (Hp : p = true \/ f = EmptyString).
  { destruct p; [now left | right]. cbn [orb] in Hpf.
    destruct f; [reflexivity | discriminate]. }
  destruct (Z.le_gt_cases (len i) 8) as [Hle|Hgt].
  - (* the integer part fits under the cap *)
    set (k := (8 - String.length i)%nat).
    assert (Hk : Z.of_nat k = 8 - len i) by (unfold k, len in *; lia).
    pose proof (keep_advance k f) as Ef.
    pose proof (len_keep k f) as Lk.
    assert (Hsplit : len f = len (keep k f) + len (advance k f))
      by (rewrite <- len_app, Ef; reflexivity).
    rewrite <- Ef at 1.
    rewrite (loop_on_short_int i (keep k f) (advance k f) tail p n);
      [ | exact Hi | now apply all_digits_keep | now apply all_digits_advance
        | lia
        | destruct (Z.le_gt_cases (len f) (Z.of_nat k)) as [Hs|Hs];
          [left | right; lia];
          assert (E0 : len (advance k f) = 0) by lia;
          destruct (advance k f); [reflexivity|]; rewrite len_cons in E0;
          pose proof (len_nonneg s); lia
        | rewrite Ef; exact Hp
        | lia
        | exact Hend ].
    rewrite keep_app_r by (change (Z.of_nat 8) with 8; lia). fold k.
    rewrite !len_app. f_equal; [f_equal; lia | destruct p; lia].
  - (* more than eight digits before the point *)
    pose proof (keep_advance 8 i) as Ei.
    pose proof (len_keep 8 i) as Lk.
    assert (L1 : len (keep 8 i) = 8) by lia.
    assert (Hsplit : len i = len (keep 8 i) + len (advance 8 i))
      by (rewrite <- len_app, Ei; reflexivity).
    rewrite <- Ei at 1.
    rewrite (loop_on_long_int (keep 8 i) (advance 8 i) f tail p n);
      [ | now apply all_digits_keep | now apply all_digits_advance | exact Hf
        | exact L1 | exact Hp | lia | unfold MAX_INT_DIGITS in Hw; lia | exact Hend ].
    rewrite keep_app_l by (change (Z.of_nat 8) with 8; lia).
    rewrite !len_app. f_equal; [f_equal; lia | destruct p; lia].
Qed.

Section ReadFloatCapped.
Context {F : Type} `{FloatOps F}.

(** The value [read_float] stores for a numeral of any length. *)
Definition decoded_capped (x : numeral) : F :=
  let float_value :=
    apply_decimal (integer_value (capped x)) (exponent (capped x)) in
  match num_sign x with
  | Minus => fneg float_value
  | _ => float_value
  end.

Lemma read_float_long_numeral (pre : string) (x : numeral) (tail : string) (old : F) :
  scannable x = true ->
  digit_count x <= 255 ->
  exponent_holds x = true ->
  stops x tail = true ->
  read_float (pre ++ numeral_text x ++ tail) (len pre) old
  = (true, uint8_t (len pre + len (numeral_text x)), decoded_capped x).
Proof.
  intros Hs Hc Hw Ht.
  pose proof (body_first_char x tail Hs) as [Hm Hp]. cbv zeta in Hm, Hp.
  assert (Hn : 1 <= digit_count x).
  { unfold scannable in Hs. apply andb_prop in Hs as [_ Hne].
    now apply nonempty_len. }
  rewrite read_float_eq, advance_app. cbv zeta.
  unfold numeral_text, decoded_capped. rewrite !append_assoc, !len_app.
  set (body := (int_digits x ++ (if has_point x then "." ++ frac_digits x else "")
                ++ tail)%string) in *.
  assert (Hfin : forall neg n,
    finish (len pre) old neg (loop_on body scan_init n)
    = (true,
       uint8_t (n + len (int_digits x)
                + (if has_point x then 1 + len (frac_digits x) else 0)),
       let v := apply_decimal (integer_value (capped x)) (exponent (capped x)) in
       if neg then fneg v else v)).
  { intros neg n. subst body. rewrite (loop_on_long_numeral x tail n Hs Hc Hw Ht).
    unfold finish. cbn [capped num_digits].
    destruct (Z.eqb_spec (digit_count x) 0) as [E|_]; [lia|].
    f_equal. f_equal. f_equal. lia. }
  assert (Hpt : len (if has_point x then "." ++ frac_digits x else "")
                = if has_point x then 1 + len (frac_digits x) else 0).
  { destruct (has_point x); [|reflexivity].
    change ("." ++ frac_digits x)%string with (String "." (frac_digits x)).
    now rewrite len_cons. }
  rewrite Hpt.
  destruct (num_sign x); cbn [sign_text append].
  - rewrite Hm, Hp, Hfin. change (len "") with 0. f_equal. f_equal. f_equal. lia.
  - cbn [fetch fst snd]. change (code "+" =? 45) with false.
    change (code "+" =? 43) with true. cbv iota.
    rewrite Hfin. change (len "+") with 1. f_equal. f_equal. f_equal. lia.
  - cbn [fetch fst snd]. change (code "-" =? 45) with true. cbv iota.
    rewrite Hfin. change (len "-") with 1. f_equal. f_equal. f_equal. lia.
Qed.

End ReadFloatCapped.

End ExponentWidth.

(** ** The width of the exponent on short lines

    On a line of at most a hundred characters the exponent stays within what
    eight bits hold, and [read_float] returns the same at every width. *)

Section AnyWidth.
Context {width : ExponentType}.

Lemma scan_char_any_width (s : scan) (c : Z) :
  - 127 <= exponent s <= 126 ->
  scan_char (width := width) s c = scan_char (width := exponent_int8) s c
  /\ forall s' : scan,
       scan_char (width := exponent_int8) s c = Some s' ->
       exponent s - 1 <= exponent s' <= exponent s + 1.
Proof.
  intros He. unfold scan_char.
  rewrite !(int88_t_small (width := width)) by lia.
  rewrite !(int88_t_small (width := exponent_int8)) by lia.
  split; [reflexivity|]. intros s'.
  repeat match goal with
         | |- context [if ?b then _ else _] => destruct b
         end;
    intros Hs; try discriminate; injection Hs as <-; cbn [exponent]; lia.
Qed.

Lemma read_float_loop_any_width (ptr : string) :
  forall (c : Z) (s : scan) (n : Z),
    - 126 + len ptr <= exponent s <= 125 - len ptr ->
    read_float_loop (width := width) ptr c s n
    = read_float_loop (width := exponent_int8) ptr c s n
    /\ - 128 <= exponent (fst (read_float_loop (width := exponent_int8) ptr c s n)) <= 127.
Proof.
  induction ptr as [|c' rest IH]; intros c s n He.
  - change (len EmptyString) with 0 in He. cbn [read_float_loop].
    destruct (scan_char_any_width s c ltac:(lia)) as [-> Hstep].
    destruct (scan_char (width := exponent_int8) s c) as [s'|];
      [specialize (Hstep s' eq_refl)|]; cbn [fst]; split; try reflexivity; lia.
  - rewrite len_cons in He. pose proof (len_nonneg rest) as Hl.
    cbn [read_float_loop].
    destruct (scan_char_any_width s c ltac:(lia)) as [-> Hstep].
    destruct (scan_char (width := exponent_int8) s c) as [s'|].
    + specialize (Hstep s' eq_refl). apply IH. lia.
    + cbn [fst]. split; [reflexivity | lia].
Qed.

Section AnyWidthDecimal.
Context {F : Type} `{FloatOps F}.

Lemma scale_down_any_width (fuel : nat) :
  forall (x : F) (e : Z),
    - 128 <= e <= 127 ->
    scale_down (width := width) fuel x e = scale_down (width := exponent_int8) fuel x e
    /\ - 128 <= snd (scale_down (width := exponent_int8) fuel x e) <= 127.
Proof.
  induction fuel as [|fuel IH]; intros x e He; cbn [scale_down].
  - cbn [snd]. split; [reflexivity | lia].
  - destruct (Z.leb_spec e (-2)) as [Hle|Hgt].
    + rewrite (int88_t_small (width := width)) by lia.
      rewrite (int88_t_small (width := exponent_int8)) by lia.
      apply IH. lia.
    + cbn [snd]. split; [reflexivity | lia].
Qed.

Lemma scale_up_any_width (fuel : nat) :
  forall (x : F) (e : Z),
    - 127 <= e <= 127 ->
    scale_up (width := width) fuel x e = scale_up (width := exponent_int8) fuel x e.
Proof.
  induction fuel as [|fuel IH]; intros x e He; cbn [scale_up]; [reflexivity|].
  cbv zeta.
  rewrite (int88_t_small (width := width)) by lia.
  rewrite (int88_t_small (width := exponent_int8)) by lia.
  destruct (Z.gtb_spec (e - 1) 0); [apply IH; lia | reflexivity].
Qed.

Lemma apply_decimal_any_width (integer_value exponent : Z) :
  - 128 <= exponent <= 127 ->
  apply_decimal (width := width) integer_value exponent
  = apply_decimal (width := exponent_int8) integer_value exponent.
Proof.
  intros He. unfold apply_decimal, apply_exponent.
  destruct (fnonzero (float_of_uint32 integer_value)); [|reflexivity].
  destruct (scale_down_any_width (Z.to_nat (- exponent))
              (float_of_uint32 integer_value) exponent He) as [-> Hr].
  destruct (scale_down (width := exponent_int8) (Z.to_nat (- exponent))
              (float_of_uint32 integer_value) exponent) as [x e].
  cbn [snd] in Hr.
  destruct (Z.ltb_spec e 0); [reflexivity|].
  destruct (Z.gtb_spec e 0); [|reflexivity].
  now rewrite scale_up_any_width by lia.
Qed.

Lemma len_advance (n : nat) (line : string) : len (advance n line) <= len line.
Proof.
  revert line. induction n as [|n IH]; intros [|c line]; cbn [advance]; try lia.
  rewrite len_cons. specialize (IH line). lia.
Qed.

(** On a line of a hundred characters or fewer [read_float] is the same
    function at every width of [int88_t]. *)
Lemma read_float_any_width (line : string) (char_counter : Z) (float_ptr : F) :
  len line <= 100 ->
  read_float (width := width) line char_counter float_ptr
  = read_float (width := exponent_int8) line char_counter float_ptr.
Proof.
  intros Hl. unfold read_float.
  pose proof (len_advance (Z.to_nat char_counter) line) as Ha.
  destruct (advance (Z.to_nat char_counter) line) as [|c0 ptr0].
  - cbn [fetch]. change (0 =? 45) with false. change (0 =? 43) with false.
    cbv iota. reflexivity.
  - rewrite len_cons in Ha. pose proof (len_nonneg ptr0) as H0.
    cbn [fetch].
    assert (Hloop : forall (ptr : string) (c n : Z) (neg : bool),
      len ptr <= 100 ->
      (let '(s, n) := read_float_loop (width := width) ptr c scan_init n in
       if num_digits s =? 0 then (false, char_counter, float_ptr)
       else (true, uint8_t (n - 1),
             if neg
             then fneg (apply_decimal (width := width) (integer_value s) (exponent s))
             else apply_decimal (width := width) (integer_value s) (exponent s)))
      = (let '(s, n) := read_float_loop (width := exponent_int8) ptr c scan_init n in
         if num_digits s =? 0 then (false, char_counter, float_ptr)
         else (true, uint8_t (n - 1),
               if neg
               then fneg (apply_decimal (width := exponent_int8)
                            (integer_value s) (exponent s))
               else apply_decimal (width := exponent_int8)
                      (integer_value s) (exponent s)))).
    { intros ptr c n neg Hp.
      destruct (read_float_loop_any_width ptr c scan_init n) as [-> Hr].
      { cbn [scan_init exponent]. pose proof (len_nonneg ptr). lia. }
      destruct (read_float_loop (width := exponent_int8) ptr c scan_init n) as [s m].
      cbn [fst] in Hr. now rewrite apply_decimal_any_width by exact Hr. }
    destruct (code c0 =? 45).
    { destruct ptr0 as [|c1 ptr1]; cbn [fetch].
      - apply (Hloop EmptyString 0 _ true). change (len EmptyString) with 0. lia.
      - apply (Hloop ptr1 (code c1) _ true). rewrite len_cons in H0, Ha.
        pose proof (len_nonneg ptr1). lia. }
    destruct (code c0 =? 43).
    { destruct ptr0 as [|c1 ptr1]; cbn [fetch].
      - apply (Hloop EmptyString 0 _ false). change (len EmptyString) with 0. lia.
      - apply (Hloop ptr1 (code c1) _ false). rewrite len_cons in H0, Ha.
        pose proof (len_nonneg ptr1). lia. }
    apply (Hloop ptr0 (code c0) _ false). lia.
Qed.

End AnyWidthDecimal.

End AnyWidth.

(** A text of [n] copies of the character [c]. *)
Fixpoint replicate (n : nat) (c : ascii) : string :=
  match n with
  | O => EmptyString
  | S k => String c (replicate k c)
  end.


(** * report.cpp *)


(** ** Constants and build options

    [grbl.hpp] and the headers it includes are not part of the sources at
    hand; the constants and the build options [report.cpp] refers to are the
    fields of a record, one value of which is one build. *)
Record grbl_hpp : Type := {
  (* axes *)
  N_AXIS : nat;
  TOOL_LENGTH_OFFSET_AXIS : nat;
  X_AXIS : Z; Y_AXIS : Z; Z_AXIS : Z; A_AXIS : Z;
  B_AXIS : Z; C_AXIS : Z; D_AXIS : Z; E_AXIS : Z;
  MM_PER_INCH : spec_float;      (* a double *)
  INCH_PER_MM : spec_float;      (* a double *)
  (* clients *)
  CLIENT_SERIAL : Z; CLIENT_WEBSOCKET : Z; CLIENT_ALL : Z;
  (* status codes and stored coordinate data *)
  STATUS_OK : Z; STATUS_SETTING_READ_FAIL : Z;
  SETTING_INDEX_NCOORD : Z;
  (* settings bits *)
  BITFLAG_REPORT_INCHES : Z;
  BITFLAG_RT_STATUS_POSITION_TYPE : Z;
  BITFLAG_RT_STATUS_BUFFER_STATE : Z;
  (* system states *)
  STATE_IDLE : Z; STATE_ALARM : Z; STATE_CHECK_MODE : Z; STATE_HOMING : Z;
  STATE_CYCLE : Z; STATE_HOLD : Z; STATE_JOG : Z; STATE_SAFETY_DOOR : Z;
  STATE_SLEEP : Z;
  (* suspend bits *)
  SUSPEND_HOLD_COMPLETE : Z; SUSPEND_RETRACT_COMPLETE : Z;
  SUSPEND_INITIATE_RESTORE : Z; SUSPEND_SAFETY_DOOR_AJAR : Z;
  SUSPEND_JOG_CANCEL : Z;
  (* pins, spindle, coolant *)
  CONTROL_PIN_INDEX_SAFETY_DOOR : Z; CONTROL_PIN_INDEX_RESET : Z;
  CONTROL_PIN_INDEX_FEED_HOLD : Z; CONTROL_PIN_INDEX_CYCLE_START : Z;
  SPINDLE_STATE_CW : Z;
  COOLANT_STATE_FLOOD : Z; COOLANT_STATE_MIST : Z;
  (* refresh counts of the throttled status fields *)
  REPORT_OVR_REFRESH_BUSY_COUNT : Z; REPORT_OVR_REFRESH_IDLE_COUNT : Z;
  REPORT_WCO_REFRESH_BUSY_COUNT : Z; REPORT_WCO_REFRESH_IDLE_COUNT : Z;
  (* build options: [true] when the macro is defined *)
  FWD_KINEMATICS_REPORTING : bool;
  REPORT_FIELD_BUFFER_STATE : bool;
  USE_LINE_NUMBERS : bool;
  REPORT_FIELD_LINE_NUMBERS : bool;
  REPORT_FIELD_CURRENT_FEED_SPEED : bool;
  VARIABLE_SPINDLE : bool;
  REPORT_FIELD_PIN_STATE : bool;
  ENABLE_SAFETY_DOOR_INPUT_PIN : bool;
  REPORT_FIELD_WORK_COORD_OFFSET : bool;
  REPORT_FIELD_OVERRIDES : bool;
  COOLANT_MIST_PIN : bool
}.

(** The bit macros of [nuts_bolts.h]. *)
Definition bit (n : Z) : Z := Z.shiftl 1 n.
Definition bit_istrue (x mask : Z) : bool := negb (Z.land x mask =? 0).
Definition bit_isfalse (x mask : Z) : bool := Z.land x mask =? 0.

(** ** Controller state read by the encoders *)

Record settings_t : Type := {
  flags : Z;
  status_report_mask : Z
}.

Record system_t : Type := {
  state : Z;
  suspend : Z;
  report_ovr_counter : Z;        (* uint8_t *)
  report_wco_counter : Z;        (* uint8_t *)
  f_override : Z;
  r_override : Z;
  spindle_speed_ovr : Z;
  spindle_speed : spec_float;
  probe_succeeded : Z
}.

Record parser_state_t : Type := {
  coord_system : list spec_float;
  coord_offset : list spec_float;
  tool_length_offset : spec_float
}.

(** What the other modules return when the encoders call them. *)
Record machine_t : Type := {
  (* system_convert_array_steps_to_mpos on sys_position, sys_probe_position *)
  machine_position : list spec_float;
  probe_position : list spec_float;
  forward_kinematics : list spec_float -> list spec_float;
  serial_get_rx_buffer_available : Z;
  plan_get_block_buffer_available : Z;
  (* line number of plan_get_current_block(), [None] for NULL *)
  plan_get_current_block : option Z;
  st_get_realtime_rate : spec_float;
  limits_get_state : Z;
  system_control_get_state : Z;
  probe_get_state : Z;
  spindle_get_state : Z;
  coolant_get_state : Z;
  (* settings_read_coord_data: [None] when the read fails *)
  settings_read_coord_data : Z -> option (list spec_float)
}.

(** ** Transport *)

Inductive channel_write : Type :=
  | Serial2Socket_write (text : string)
  | Serial_print (text : string).

Definition decimal (z : Z) : string := NilZero.string_of_int (Z.to_int z).

Definition CRLF : string := String (ascii_of_nat 13) (String (ascii_of_nat 10) EmptyString).

(** A minimum field width, as the 4 of [%4.3f]: a shorter text is padded with
    spaces on its left. *)
Definition field_width (width : nat) (s : string) : string :=
  (replicate (width - String.length s) " " ++ s)%string.

Section Report.
Variable g : grbl_hpp.
(** [sprintf] with the format [%.<precision>f], of the C library. *)
Variable sprintf_f : nat -> spec_float -> string.

Definition grbl_send (client : Z) (text : string) : list channel_write :=
  (if (client =? CLIENT_WEBSOCKET g) || (client =? CLIENT_ALL g)
   then [Serial2Socket_write text] else [])
  ++ (if (client =? CLIENT_SERIAL g) || (client =? CLIENT_ALL g)
      then [Serial_print text] else []).

(** [grbl_sendf] formats into a buffer and passes it to [grbl_send];
    [text] is the formatted text. *)
Definition grbl_sendf (client : Z) (text : string) : list channel_write :=
  grbl_send client text.

(** *** report_util_axis_values *)

Definition float_zero : spec_float := S754_zero false.
Definition float_one : spec_float := B32.float_of_Z 1.

Definition report_inches (settings : settings_t) : bool :=
  bit_istrue (flags settings) (BITFLAG_REPORT_INCHES g).

Definition unit_conversion (settings : settings_t) : spec_float :=
  if report_inches settings
  then B32.round32 (SFdiv 53 1024 (B32.double_of_Z 1) (MM_PER_INCH g))
  else float_one.

(** The passes [index, index+1, ...] of the [for] loop; [fuel] counts the
    passes that remain up to [N_AXIS]. *)
Fixpoint axis_values_loop (settings : settings_t) (axis_value : list spec_float)
    (fuel index : nat) (report : string) : string :=
  match fuel with
  | O => report
  | S fuel' =>
      let scaled := SFmul 24 128 (nth index axis_value float_zero)
                                 (unit_conversion settings) in
      let axis_value_string :=
        if report_inches settings then field_width 4 (sprintf_f 4 scaled)
        else field_width 4 (sprintf_f 3 scaled) in
      let report := (report ++ axis_value_string)%string in
      let report :=
        if (Z.of_nat index <? Z.of_nat (N_AXIS g) - 1)
        then (report ++ ",")%string else report in
      axis_values_loop settings axis_value fuel' (S index) report
  end.

Definition report_util_axis_values (settings : settings_t)
    (axis_value : list spec_float) : string :=
  axis_values_loop settings axis_value (N_AXIS g) 0 EmptyString.

(** *** report_status_message *)

Definition report_status_message (status_code client : Z) : list channel_write :=
  if status_code =? STATUS_OK g then grbl_send client ("ok" ++ CRLF)
  else grbl_sendf client ("error:" ++ decimal status_code ++ CRLF).

(** *** report_probe_parameters *)

Definition report_probe_parameters (settings : settings_t) (sys : system_t)
    (m : machine_t) (client : Z) : list channel_write :=
  let probe_report := "[PRB:"%string in
  let probe_report :=
    (probe_report ++ report_util_axis_values settings (probe_position m))%string in
  let probe_report :=
    (probe_report ++ (":" ++ decimal (probe_succeeded sys) ++ "]" ++ CRLF))%string in
  grbl_send client probe_report.

(** *** report_ngc_parameters *)

(** The [for] loop over the stored coordinate systems: [None] when a read
    fails, else the report so far. *)
Fixpoint ngc_coord_loop (settings : settings_t) (m : machine_t) (fuel : nat)
    (coordinate_select : Z) (ngc_report : string) : option string :=
  match fuel with
  | O => Some ngc_report
  | S fuel' =>
      if coordinate_select <=? SETTING_INDEX_NCOORD g then
        match settings_read_coord_data m coordinate_select with
        | None => None
        | Some coordinate_data =>
            let ngc_report := (ngc_report ++ "[G")%string in
            let ngc_report :=
              if coordinate_select =? 6 then (ngc_report ++ "28")%string
              else if coordinate_select =? 7 then (ngc_report ++ "30")%string
              else (ngc_report ++ decimal (coordinate_select + 54))%string in
            let ngc_report := (ngc_report ++ ":")%string in
            let ngc_report :=
              (ngc_report ++ report_util_axis_values settings coordinate_data)%string in
            let ngc_report := (ngc_report ++ ("]" ++ CRLF))%string in
            ngc_coord_loop settings m fuel' (uint8_t (coordinate_select + 1)) ngc_report
        end
      else Some ngc_report
  end.

Definition report_ngc_parameters (settings : settings_t) (sys : system_t)
    (gc_state : parser_state_t) (m : machine_t) (client : Z) : list channel_write :=
  match ngc_coord_loop settings m (Z.to_nat (SETTING_INDEX_NCOORD g + 1)) 0 EmptyString with
  | None => report_status_message (STATUS_SETTING_READ_FAIL g) client
  | Some ngc_report =>
      let ngc_report := (ngc_report ++ "[G92:")%string in
      let ngc_report :=
        (ngc_report ++ report_util_axis_values settings (coord_offset gc_state))%string in
      let ngc_report := (ngc_report ++ ("]" ++ CRLF))%string in
      let ngc_report := (ngc_report ++ "[TLO:")%string in
      let temp :=
        if report_inches settings
        then (field_width 4 (sprintf_f 3 (SFmul 53 1024 (tool_length_offset gc_state)
                                                        (INCH_PER_MM g)))
              ++ "]" ++ CRLF)%string
        else (field_width 4 (sprintf_f 3 (tool_length_offset gc_state))
              ++ "]" ++ CRLF)%string in
      let ngc_report := (ngc_report ++ temp)%string in
      grbl_send client ngc_report ++ report_probe_parameters settings sys m client
  end.

(** *** report_realtime_status *)

(** The pieces appended to [status], in order. *)
Inductive status_field : Type :=
  | StateField (text : string)
  | PositionField (machine : bool) (axes : string)
  | BufferField (blocks rx : Z)
  | LineField (line_number : Z)
  | FeedSpeedField (text : string)
  | PinField (letters : string)
  | WCOField (axes : string)
  | OvField (f r s : Z)
  | AccessoryField (letters : string).

Definition render_field (fd : status_field) : string :=
  match fd with
  | StateField text => text
  | PositionField true axes => "|MPos:" ++ axes
  | PositionField false axes => "|WPos:" ++ axes
  | BufferField blocks rx => "|Bf:" ++ decimal blocks ++ "," ++ decimal rx
  | LineField n => "|Ln:" ++ decimal n
  | FeedSpeedField text => text
  | PinField letters => "|Pn:" ++ letters
  | WCOField axes => "|WCO:" ++ axes
  | OvField f r s => "|Ov:" ++ decimal f ++ "," ++ decimal r ++ "," ++ decimal s
  | AccessoryField letters => "|A:" ++ letters
  end.

Definition render_status (fields : list status_field) : string :=
  "<" ++ String.concat "" (map render_field fields) ++ ">" ++ CRLF.

(** [switch (sys.state)], with the fall through from [STATE_HOLD] to
    [STATE_JOG] during a jog cancel. *)
Definition state_text (sys : system_t) : string :=
  let st := state sys in
  let sp := suspend sys in
  if st =? STATE_IDLE g then "Idle"
  else if st =? STATE_CYCLE g then "Run"
  else if (st =? STATE_HOLD g) && bit_isfalse sp (SUSPEND_JOG_CANCEL g) then
    "Hold:" ++ (if bit_istrue sp (SUSPEND_HOLD_COMPLETE g) then "0" else "1")
  else if (st =? STATE_HOLD g) || (st =? STATE_JOG g) then "Jog"
  else if st =? STATE_HOMING g then "Home"
  else if st =? STATE_ALARM g then "Alarm"
  else if st =? STATE_CHECK_MODE g then "Check"
  else if st =? STATE_SAFETY_DOOR g then
    "Door:" ++
    (if bit_istrue sp (SUSPEND_INITIATE_RESTORE g) then "3"
     else if bit_istrue sp (SUSPEND_RETRACT_COMPLETE g) then
       if bit_istrue sp (SUSPEND_SAFETY_DOOR_AJAR g) then "1" else "0"
     else "2")
  else if st =? STATE_SLEEP g then "Sleep"
  else "".

Definition work_coordinate_offsets (gc_state : parser_state_t) : list spec_float :=
  map (fun index =>
         let wco := SFadd 24 128 (nth index (coord_system gc_state) float_zero)
                                 (nth index (coord_offset gc_state) float_zero) in
         if Nat.eqb index (TOOL_LENGTH_OFFSET_AXIS g)
         then SFadd 24 128 wco (tool_length_offset gc_state)
         else wco)
      (seq 0 (N_AXIS g)).

Definition position_is_mpos (settings : settings_t) : bool :=
  bit_istrue (status_report_mask settings) (BITFLAG_RT_STATUS_POSITION_TYPE g).

Definition print_position (settings : settings_t) (sys : system_t)
    (gc_state : parser_state_t) (m : machine_t) : list spec_float :=
  let position := machine_position m in
  let position :=
    if bit_isfalse (status_report_mask settings) (BITFLAG_RT_STATUS_POSITION_TYPE g)
       || (report_wco_counter sys =? 0)
    then
      map (fun index =>
             if bit_isfalse (status_report_mask settings)
                            (BITFLAG_RT_STATUS_POSITION_TYPE g)
             then SFsub 24 128 (nth index position float_zero)
                               (nth index (work_coordinate_offsets gc_state) float_zero)
             else nth index position float_zero)
          (seq 0 (N_AXIS g))
    else position in
  if position_is_mpos settings then position
  else if FWD_KINEMATICS_REPORTING g then forward_kinematics m position
  else position.

Definition buffer_field (settings : settings_t) (m : machine_t) : list status_field :=
  if REPORT_FIELD_BUFFER_STATE g
     && bit_istrue (status_report_mask settings) (BITFLAG_RT_STATUS_BUFFER_STATE g)
  then [BufferField (plan_get_block_buffer_available m)
                    (serial_get_rx_buffer_available m)]
  else [].

(** [%d] of a [uint32_t]. *)
Definition int_of_uint32 (n : Z) : Z := if n <? 2 ^ 31 then n else n - 2 ^ 32.

Definition line_field (m : machine_t) : list status_field :=
  if USE_LINE_NUMBERS g && REPORT_FIELD_LINE_NUMBERS g then
    match plan_get_current_block m with
    | Some line_number =>
        if line_number >? 0 then [LineField (int_of_uint32 line_number)] else []
    | None => []
    end
  else [].

Definition feed_speed_field (settings : settings_t) (sys : system_t) (m : machine_t)
  : list status_field :=
  if REPORT_FIELD_CURRENT_FEED_SPEED g then
    if VARIABLE_SPINDLE g then
      if report_inches settings then
        [FeedSpeedField ("|FS:" ++ sprintf_f 1 (st_get_realtime_rate m) ++ ","
                         ++ sprintf_f 0 (SFdiv 53 1024 (spindle_speed sys) (MM_PER_INCH g)))]
      else
        [FeedSpeedField ("|FS:" ++ sprintf_f 0 (st_get_realtime_rate m) ++ ","
                         ++ sprintf_f 0 (spindle_speed sys))]
    else
      if report_inches settings then
        [FeedSpeedField ("|F:" ++ sprintf_f 1 (SFdiv 53 1024 (st_get_realtime_rate m)
                                                             (MM_PER_INCH g)))]
      else
        [FeedSpeedField ("|F:" ++ sprintf_f 0 (st_get_realtime_rate m))]
  else [].

Definition letter_if (b : bool) (letter : string) : string :=
  if b then letter else "".

Definition pin_field (m : machine_t) : list status_field :=
  if REPORT_FIELD_PIN_STATE g then
    let limit_pin_state := limits_get_state m in
    let control_pin_state := system_control_get_state m in
    let probe_pin_state := probe_get_state m in
    if negb (Z.lor (Z.lor limit_pin_state control_pin_state) probe_pin_state =? 0) then
      [PinField
         (letter_if (negb (probe_pin_state =? 0)) "P"
          ++ (if negb (limit_pin_state =? 0) then
                letter_if (bit_istrue limit_pin_state (bit (X_AXIS g))) "X"
                ++ letter_if (bit_istrue limit_pin_state (bit (Y_AXIS g))) "Y"
                ++ letter_if (bit_istrue limit_pin_state (bit (Z_AXIS g))) "Z"
                ++ letter_if (bit_istrue limit_pin_state (bit (A_AXIS g))) "A"
                ++ letter_if (bit_istrue limit_pin_state (bit (B_AXIS g))) "B"
                ++ letter_if (bit_istrue limit_pin_state (bit (C_AXIS g))) "C"
                ++ letter_if (bit_istrue limit_pin_state (bit (D_AXIS g))) "D"
                ++ letter_if (bit_istrue limit_pin_state (bit (E_AXIS g))) "E"
              else "")
          ++ (if negb (control_pin_state =? 0) then
                letter_if (ENABLE_SAFETY_DOOR_INPUT_PIN g
                           && bit_istrue control_pin_state
                                         (CONTROL_PIN_INDEX_SAFETY_DOOR g)) "D"
                ++ letter_if (bit_istrue control_pin_state (CONTROL_PIN_INDEX_RESET g)) "R"
                ++ letter_if (bit_istrue control_pin_state
                                         (CONTROL_PIN_INDEX_FEED_HOLD g)) "H"
                ++ letter_if (bit_istrue control_pin_state
                                         (CONTROL_PIN_INDEX_CYCLE_START g)) "S"
              else ""))]
    else []
  else [].

(** [sys.state & (STATE_HOMING | STATE_CYCLE | STATE_HOLD | STATE_JOG |
    STATE_SAFETY_DOOR)], the test that selects the busy refresh count. *)
Definition busy_states : Z :=
  Z.lor (Z.lor (Z.lor (Z.lor (STATE_HOMING g) (STATE_CYCLE g)) (STATE_HOLD g))
               (STATE_JOG g))
        (STATE_SAFETY_DOOR g).

Definition busy (sys : system_t) : bool :=
  negb (Z.land (state sys) busy_states =? 0).

Definition set_wco_counter (sys : system_t) (v : Z) : system_t :=
  {| state := state sys; suspend := suspend sys;
     report_ovr_counter := report_ovr_counter sys;
     report_wco_counter := uint8_t v;
     f_override := f_override sys; r_override := r_override sys;
     spindle_speed_ovr := spindle_speed_ovr sys;
     spindle_speed := spindle_speed sys;
     probe_succeeded := probe_succeeded sys |}.

Definition set_ovr_counter (sys : system_t) (v : Z) : system_t :=
  {| state := state sys; suspend := suspend sys;
     report_ovr_counter := uint8_t v;
     report_wco_counter := report_wco_counter sys;
     f_override := f_override sys; r_override := r_override sys;
     spindle_speed_ovr := spindle_speed_ovr sys;
     spindle_speed := spindle_speed sys;
     probe_succeeded := probe_succeeded sys |}.

(** The block under [REPORT_FIELD_WORK_COORD_OFFSET]. *)
Definition wco_field (settings : settings_t) (gc_state : parser_state_t)
    (sys : system_t) : system_t * list status_field :=
  if REPORT_FIELD_WORK_COORD_OFFSET g then
    if report_wco_counter sys >? 0 then
      (set_wco_counter sys (report_wco_counter sys - 1), [])
    else
      let sys :=
        if busy sys
        then set_wco_counter sys (REPORT_WCO_REFRESH_BUSY_COUNT g - 1)
        else set_wco_counter sys (REPORT_WCO_REFRESH_IDLE_COUNT g - 1) in
      let sys :=
        if report_ovr_counter sys =? 0 then set_ovr_counter sys 1 else sys in
      (sys, [WCOField (report_util_axis_values settings
                                               (work_coordinate_offsets gc_state))])
  else (sys, []).

(** The block under [REPORT_FIELD_OVERRIDES]. *)
Definition ovr_field (sys : system_t) (m : machine_t)
  : system_t * list status_field :=
  if REPORT_FIELD_OVERRIDES g then
    if report_ovr_counter sys >? 0 then
      (set_ovr_counter sys (report_ovr_counter sys - 1), [])
    else
      let sys :=
        if busy sys
        then set_ovr_counter sys (REPORT_OVR_REFRESH_BUSY_COUNT g - 1)
        else set_ovr_counter sys (REPORT_OVR_REFRESH_IDLE_COUNT g - 1) in
      let spindle_state := spindle_get_state m in
      let coolant_state := coolant_get_state m in
      (sys,
       OvField (f_override sys) (r_override sys) (spindle_speed_ovr sys)
       :: (if negb (spindle_state =? 0) || negb (coolant_state =? 0) then
             [AccessoryField
                ((if negb (spindle_state =? 0)
                  then (if spindle_state =? SPINDLE_STATE_CW g then "S" else "C")
                  else "")
                 ++ letter_if (bit_istrue coolant_state (COOLANT_STATE_FLOOD g)) "F"
                 ++ letter_if (COOLANT_MIST_PIN g
                               && bit_istrue coolant_state (COOLANT_STATE_MIST g)) "M")]
           else []))
  else (sys, []).

(** The fields of one status report and the controller state afterwards. *)
Definition status_fields (settings : settings_t) (gc_state : parser_state_t)
    (m : machine_t) (sys : system_t) : system_t * list status_field :=
  let head :=
    [StateField (state_text sys);
     PositionField (position_is_mpos settings)
       (report_util_axis_values settings (print_position settings sys gc_state m))]
    ++ buffer_field settings m
    ++ line_field m
    ++ feed_speed_field settings sys m
    ++ pin_field m in
  let '(sys, wco) := wco_field settings gc_state sys in
  let '(sys, ovr) := ovr_field sys m in
  (sys, head ++ wco ++ ovr).

Definition report_realtime_status (settings : settings_t) (gc_state : parser_state_t)
    (m : machine_t) (sys : system_t) (client : Z) : system_t * list channel_write :=
  let '(sys, fields) := status_fields settings gc_state m sys in
  (sys, grbl_send client (render_status fields)).

End Report.

(** ** A build with the values of the Grbl 1.1 headers *)

Definition grbl_defaults : grbl_hpp :=
  {| N_AXIS := 3; TOOL_LENGTH_OFFSET_AXIS := 2;
     X_AXIS := 0; Y_AXIS := 1; Z_AXIS := 2; A_AXIS := 3;
     B_AXIS := 4; C_AXIS := 5; D_AXIS := 6; E_AXIS := 7;
     MM_PER_INCH := SFdiv 53 1024 (B32.double_of_Z 254) (B32.double_of_Z 10);
     INCH_PER_MM := SFdiv 53 1024 (B32.double_of_Z 393701) (B32.double_of_Z 10000000);
     CLIENT_SERIAL := 0; CLIENT_WEBSOCKET := 1; CLIENT_ALL := 255;
     STATUS_OK := 0; STATUS_SETTING_READ_FAIL := 7;
     SETTING_INDEX_NCOORD := 7;
     BITFLAG_REPORT_INCHES := bit 0;
     BITFLAG_RT_STATUS_POSITION_TYPE := bit 0;
     BITFLAG_RT_STATUS_BUFFER_STATE := bit 1;
     STATE_IDLE := 0; STATE_ALARM := bit 0; STATE_CHECK_MODE := bit 1;
     STATE_HOMING := bit 2; STATE_CYCLE := bit 3; STATE_HOLD := bit 4;
     STATE_JOG := bit 5; STATE_SAFETY_DOOR := bit 6; STATE_SLEEP := bit 7;
     SUSPEND_HOLD_COMPLETE := bit 0; SUSPEND_RETRACT_COMPLETE := bit 2;
     SUSPEND_INITIATE_RESTORE := bit 3; SUSPEND_SAFETY_DOOR_AJAR := bit 5;
     SUSPEND_JOG_CANCEL := bit 7;
     CONTROL_PIN_INDEX_SAFETY_DOOR := bit 0; CONTROL_PIN_INDEX_RESET := bit 1;
     CONTROL_PIN_INDEX_FEED_HOLD := bit 2; CONTROL_PIN_INDEX_CYCLE_START := bit 3;
     SPINDLE_STATE_CW := bit 0;
     COOLANT_STATE_FLOOD := bit 0; COOLANT_STATE_MIST := bit 1;
     REPORT_OVR_REFRESH_BUSY_COUNT := 20; REPORT_OVR_REFRESH_IDLE_COUNT := 10;
     REPORT_WCO_REFRESH_BUSY_COUNT := 30; REPORT_WCO_REFRESH_IDLE_COUNT := 10;
     FWD_KINEMATICS_REPORTING := false;
     REPORT_FIELD_BUFFER_STATE := true;
     USE_LINE_NUMBERS := false;
     REPORT_FIELD_LINE_NUMBERS := true;
     REPORT_FIELD_CURRENT_FEED_SPEED := true;
     VARIABLE_SPINDLE := true;
     REPORT_FIELD_PIN_STATE := true;
     ENABLE_SAFETY_DOOR_INPUT_PIN := false;
     REPORT_FIELD_WORK_COORD_OFFSET := true;
     REPORT_FIELD_OVERRIDES := true;
     COOLANT_MIST_PIN := false |}.

(** ** The throttle counters *)

Definition is_wco (fd : status_field) : bool :=
  match fd with
  | WCOField _ => true
  | _ => false
  end.

Definition is_ovr (fd : status_field) : bool :=
  match fd with
  | OvField _ _ _ => true
  | _ => false
  end.

(** The report carries the field [|WCO:], respectively [|Ov:]. *)
Definition emits_wco (fields : list status_field) : bool := existsb is_wco fields.
Definition emits_ovr (fields : list status_field) : bool := existsb is_ovr fields.

(** The counters fit their type. *)
Definition counters_ok (sys : system_t) : Prop :=
  0 <= report_wco_counter sys < 256 /\ 0 <= report_ovr_counter sys < 256.

(** The two throttled blocks on the counters alone: the counters afterwards
    and whether the field was appended. *)
Definition tick_wco (g : grbl_hpp) (is_busy : bool) (w o : Z) : Z * Z * bool :=
  if REPORT_FIELD_WORK_COORD_OFFSET g then
    if w >? 0 then (uint8_t (w - 1), o, false)
    else (uint8_t ((if is_busy then REPORT_WCO_REFRESH_BUSY_COUNT g
                    else REPORT_WCO_REFRESH_IDLE_COUNT g) - 1),
          (if o =? 0 then uint8_t 1 else o), true)
  else (w, o, false).

Definition tick_ovr (g : grbl_hpp) (is_busy : bool) (o : Z) : Z * bool :=
  if REPORT_FIELD_OVERRIDES g then
    if o >? 0 then (uint8_t (o - 1), false)
    else (uint8_t ((if is_busy then REPORT_OVR_REFRESH_BUSY_COUNT g
                    else REPORT_OVR_REFRESH_IDLE_COUNT g) - 1), true)
  else (o, false).

(** One call of the status reporter, on the two counters alone. *)
Definition tick (g : grbl_hpp) (is_busy : bool) (w o : Z) : Z * Z * bool * bool :=
  let '(w1, o1, ew) := tick_wco g is_busy w o in
  let '(o2, eo) := tick_ovr g is_busy o1 in
  (w1, o2, ew, eo).

Section Throttle.
Variable g : grbl_hpp.
Variable sprintf_f : nat -> spec_float -> string.

Lemma head_fields_not_throttled (settings : settings_t) (sys : system_t)
    (gc_state : parser_state_t) (m : machine_t) (p : status_field -> bool) :
  p = is_wco \/ p = is_ovr ->
  existsb p
    ([StateField (state_text g sys);
      PositionField (position_is_mpos g settings)
        (report_util_axis_values g sprintf_f settings
           (print_position g settings sys gc_state m))]
     ++ buffer_field g settings m
     ++ line_field g m
     ++ feed_speed_field g sprintf_f settings sys m
     ++ pin_field g m) = false.
Proof.
  intros Hp. rewrite !existsb_app.
  assert (H1 : existsb p (buffer_field g settings m) = false).
  { unfold buffer_field.
    destruct (_ && _); destruct Hp; subst p; reflexivity. }
  assert (H2 : existsb p (line_field g m) = false).
  { unfold line_field.
    destruct (_ && _); [|destruct Hp; subst p; reflexivity].
    destruct (plan_get_current_block m) as [n|];
      [destruct (n >? 0)|]; destruct Hp; subst p; reflexivity. }
  assert (H3 : existsb p (feed_speed_field g sprintf_f settings sys m) = false).
  { unfold feed_speed_field.
    destruct (REPORT_FIELD_CURRENT_FEED_SPEED g), (VARIABLE_SPINDLE g),
      (report_inches g settings); destruct Hp; subst p; reflexivity. }
  assert (H4 : existsb p (pin_field g m) = false).
  { unfold pin_field. destruct (REPORT_FIELD_PIN_STATE g);
      [cbv zeta; destruct (negb _)|]; destruct Hp; subst p; reflexivity. }
  rewrite H1, H2, H3, H4. destruct Hp; subst p; reflexivity.
Qed.

Lemma wco_field_tick (settings : settings_t) (gc_state : parser_state_t)
    (sys : system_t) :
  let r := wco_field g sprintf_f settings gc_state sys in
  (report_wco_counter (fst r), report_ovr_counter (fst r), existsb is_wco (snd r))
  = tick_wco g (busy g sys) (report_wco_counter sys) (report_ovr_counter sys)
  /\ existsb is_ovr (snd r) = false
  /\ state (fst r) = state sys.
Proof.
  unfold wco_field, tick_wco. cbv zeta.
  destruct (REPORT_FIELD_WORK_COORD_OFFSET g); [|repeat split].
  destruct (report_wco_counter sys >? 0); [repeat split|].
  destruct (busy g sys);
    cbn [set_wco_counter report_ovr_counter];
    destruct (report_ovr_counter sys =? 0); repeat split.
Qed.

Lemma ovr_field_tick (sys : system_t) (m : machine_t) :
  let r := ovr_field g sys m in
  (report_ovr_counter (fst r), existsb is_ovr (snd r))
  = tick_ovr g (busy g sys) (report_ovr_counter sys)
  /\ report_wco_counter (fst r) = report_wco_counter sys
  /\ existsb is_wco (snd r) = false
  /\ state (fst r) = state sys.
Proof.
  unfold ovr_field, tick_ovr. cbv zeta.
  destruct (REPORT_FIELD_OVERRIDES g); [|repeat split].
  destruct (report_ovr_counter sys >? 0); [repeat split|].
  destruct (busy g sys);
    (destruct (negb (spindle_get_state m =? 0) || negb (coolant_get_state m =? 0));
     repeat split).
Qed.

Lemma busy_state (sys sys' : system_t) : state sys' = state sys -> busy g sys' = busy g sys.
Proof. unfold busy. now intros ->. Qed.

(** [status_fields] acts on the counters as [tick] does, and leaves the
    controller state alone. *)
Lemma status_fields_tick (settings : settings_t) (gc_state : parser_state_t)
    (m : machine_t) (sys : system_t) :
  let r := status_fields g sprintf_f settings gc_state m sys in
  (report_wco_counter (fst r), report_ovr_counter (fst r),
   emits_wco (snd r), emits_ovr (snd r))
  = tick g (busy g sys) (report_wco_counter sys) (report_ovr_counter sys)
  /\ state (fst r) = state sys.
Proof.
  unfold status_fields. cbv zeta.
  pose proof (wco_field_tick settings gc_state sys) as Hw. cbv zeta in Hw.
  destruct (wco_field g sprintf_f settings gc_state sys) as [sys1 wco].
  cbn [fst snd] in Hw. destruct Hw as (Hw & Hwo & Hws).
  pose proof (ovr_field_tick sys1 m) as Ho. cbv zeta in Ho.
  destruct (ovr_field g sys1 m) as [sys2 ovr].
  cbn [fst snd] in Ho |- *. destruct Ho as (Ho & How & Hoo & Hos).
  rewrite (busy_state sys sys1 Hws) in Ho.
  unfold emits_wco, emits_ovr.
  match goal with
  | |- context [existsb is_wco (?h ++ wco ++ ovr)] =>
      rewrite (existsb_app is_wco h (wco ++ ovr)), (existsb_app is_ovr h (wco ++ ovr))
  end.
  rewrite !(head_fields_not_throttled settings sys gc_state m) by auto.
  rewrite !existsb_app. cbn [orb]. rewrite Hwo, Hoo, How, orb_false_r. cbn [orb].
  unfold tick. rewrite <- Hw, <- Ho. split; [reflexivity | congruence].
Qed.

End Throttle.

(** ** Consecutive status reports *)

(** What one call of the status reporter reads besides [sys]. *)
Record call : Type := {
  call_settings : settings_t;
  call_gc_state : parser_state_t;
  call_machine : machine_t
}.

(** Consecutive calls of the status reporter: the controller state after the
    last one and the fields of each report. Between the calls nothing else
    writes [sys]. *)
Fixpoint run (g : grbl_hpp) (sprintf_f : nat -> spec_float -> string)
    (calls : list call) (sys : system_t) : system_t * list (list status_field) :=
  match calls with
  | [] => (sys, [])
  | c :: calls' =>
      let '(sys1, fields) :=
        status_fields g sprintf_f (call_settings c) (call_gc_state c)
                      (call_machine c) sys in
      let '(sys2, reports) := run g sprintf_f calls' sys1 in
      (sys2, fields :: reports)
  end.

(** The fields of the report of call number [j], counted from 0. *)
Definition report_at (g : grbl_hpp) (sprintf_f : nat -> spec_float -> string)
    (calls : list call) (sys : system_t) (j : nat) : list status_field :=
  nth j (snd (run g sprintf_f calls sys)) [].

(** The counters after [n] calls in a state that stays busy, or stays not
    busy. *)
Fixpoint ticks (g : grbl_hpp) (is_busy : bool) (n : nat) (w o : Z) : Z * Z :=
  match n with
  | O => (w, o)
  | S n' =>
      let '(w1, o1, _, _) := tick g is_busy w o in
      ticks g is_busy n' w1 o1
  end.

Definition wco_flag (g : grbl_hpp) (is_busy : bool) (wo : Z * Z) : bool :=
  let '(_, _, ew, _) := tick g is_busy (fst wo) (snd wo) in ew.

Definition ovr_flag (g : grbl_hpp) (is_busy : bool) (wo : Z * Z) : bool :=
  let '(_, _, _, eo) := tick g is_busy (fst wo) (snd wo) in eo.

Lemma report_at_ticks (g : grbl_hpp) (sprintf_f : nat -> spec_float -> string)
    (calls : list call) (sys : system_t) (j : nat) :
  (j < List.length calls)%nat ->
  let wo := ticks g (busy g sys) j (report_wco_counter sys) (report_ovr_counter sys) in
  emits_wco (report_at g sprintf_f calls sys j) = wco_flag g (busy g sys) wo
  /\ emits_ovr (report_at g sprintf_f calls sys j) = ovr_flag g (busy g sys) wo.
Proof.
  unfold report_at. revert sys j.
  induction calls as [|c calls IH]; intros sys j Hj; [cbn in Hj; lia|].
  cbn [run].
  pose proof (status_fields_tick g sprintf_f (call_settings c) (call_gc_state c)
                (call_machine c) sys) as Ht. cbv zeta in Ht.
  destruct (status_fields g sprintf_f (call_settings c) (call_gc_state c)
              (call_machine c) sys) as [sys1 fields].
  cbn [fst snd] in Ht. destruct Ht as [Ht Hs].
  specialize (IH sys1).
  destruct (run g sprintf_f calls sys1) as [sys2 reports].
  cbn [snd] in IH |- *.
  destruct j as [|j].
  - cbn [nth ticks]. unfold wco_flag, ovr_flag. cbn [fst snd].
    rewrite <- Ht. split; reflexivity.
  - cbn [nth ticks]. rewrite <- Ht.
    rewrite <- (busy_state g sys sys1 Hs).
    apply IH. cbn in Hj. lia.
Qed.

Section Ticks.
Variable g : grbl_hpp.
Variable is_busy : bool.

Definition ovr_count : Z :=
  if is_busy then REPORT_OVR_REFRESH_BUSY_COUNT g else REPORT_OVR_REFRESH_IDLE_COUNT g.

Definition wco_count : Z :=
  if is_busy then REPORT_WCO_REFRESH_BUSY_COUNT g else REPORT_WCO_REFRESH_IDLE_COUNT g.

Lemma uint8_t_range (z : Z) : 0 <= uint8_t z < 256.
Proof. unfold uint8_t. apply Z.mod_pos_bound. lia. Qed.

Lemma uint8_t_small (z : Z) : 0 <= z < 256 -> uint8_t z = z.
Proof. intros Hz. unfold uint8_t. now apply Z.mod_small. Qed.

Lemma tick_range (w o : Z) :
  0 <= w < 256 -> 0 <= o < 256 ->
  let '(w1, o1, _, _) := tick g is_busy w o in
  0 <= w1 < 256 /\ 0 <= o1 < 256.
Proof.
  intros Hw Ho. unfold tick, tick_wco, tick_ovr.
  pose proof uint8_t_range as Hr.
  destruct (REPORT_FIELD_WORK_COORD_OFFSET g), (REPORT_FIELD_OVERRIDES g);
    repeat match goal with
           | |- context [if ?b then _ else _] => destruct b eqn:?
           end; auto.
Qed.

Lemma ticks_range (n : nat) (w o : Z) :
  0 <= w < 256 -> 0 <= o < 256 ->
  0 <= fst (ticks g is_busy n w o) < 256 /\ 0 <= snd (ticks g is_busy n w o) < 256.
Proof.
  revert w o. induction n as [|n IH]; intros w o Hw Ho; [cbn; auto|].
  cbn [ticks]. pose proof (tick_range w o Hw Ho) as Ht.
  destruct (tick g is_busy w o) as [[[w1 o1] ew] eo]. now apply IH.
Qed.

Lemma ticks_add (n k : nat) (w o : Z) :
  ticks g is_busy (n + k) w o
  = ticks g is_busy k (fst (ticks g is_busy n w o)) (snd (ticks g is_busy n w o)).
Proof.
  revert w o. induction n as [|n IH]; intros w o; [reflexivity|].
  cbn [Nat.add ticks]. destruct (tick g is_busy w o) as [[[w1 o1] ew] eo]. apply IH.
Qed.

(** A nonzero override counter goes down by one and the field is skipped,
    whatever the work-offset block does. *)
Lemma tick_ovr_down (w o : Z) :
  REPORT_FIELD_OVERRIDES g = true ->
  0 < o < 256 ->
  let '(_, o1, _, eo) := tick g is_busy w o in o1 = o - 1 /\ eo = false.
Proof.
  intros He Ho. unfold tick, tick_wco, tick_ovr. rewrite He.
  destruct (REPORT_FIELD_WORK_COORD_OFFSET g); [destruct (w >? 0)|];
    try (destruct (Z.eqb_spec o 0); [lia|]);
    (destruct (Z.gtb_spec o 0); [|lia]);
    rewrite uint8_t_small by lia; auto.
Qed.

(** A nonzero work-offset counter goes down by one and the field is
    skipped. *)
Lemma tick_wco_down (w o : Z) :
  REPORT_FIELD_WORK_COORD_OFFSET g = true ->
  0 < w < 256 ->
  let '(w1, _, ew, _) := tick g is_busy w o in w1 = w - 1 /\ ew = false.
Proof.
  intros He Hw. unfold tick, tick_wco. rewrite He.
  destruct (Z.gtb_spec w 0); [|lia].
  destruct (tick_ovr g is_busy o) as [o2 eo].
  rewrite uint8_t_small by lia. auto.
Qed.

(** A work-offset counter at zero: the field is appended, the counter is
    reloaded, and the override field is kept out of this report. *)
Lemma tick_wco_fire (o : Z) :
  REPORT_FIELD_WORK_COORD_OFFSET g = true ->
  0 <= o < 256 ->
  let '(w1, o1, ew, eo) := tick g is_busy 0 o in
  w1 = uint8_t (wco_count - 1) /\ ew = true
  /\ (REPORT_FIELD_OVERRIDES g = true -> eo = false /\ o1 = Z.max 0 (o - 1)).
Proof.
  intros He Ho. unfold tick, tick_wco, tick_ovr, wco_count. rewrite He.
  change (0 >? 0) with false. cbv iota.
  destruct (REPORT_FIELD_OVERRIDES g).
  - destruct (Z.eqb_spec o 0) as [->|Hn].
    + change (uint8_t 1 >? 0) with true. cbv iota.
      repeat split; reflexivity.
    + destruct (Z.gtb_spec o 0); [|lia]. rewrite (uint8_t_small (o - 1)) by lia.
      repeat split; lia.
  - repeat split; discriminate.
Qed.

(** An override counter at zero while the work-offset block does not fire:
    the field is appended and the counter is reloaded. *)
Lemma tick_ovr_fire (w : Z) :
  REPORT_FIELD_OVERRIDES g = true ->
  REPORT_FIELD_WORK_COORD_OFFSET g = false \/ 0 < w ->
  let '(_, o1, ew, eo) := tick g is_busy w 0 in
  o1 = uint8_t (ovr_count - 1) /\ eo = true /\ ew = false.
Proof.
  intros He Hw. unfold tick, tick_wco, tick_ovr, ovr_count. rewrite He.
  destruct Hw as [Hw|Hw].
  - rewrite Hw. change (0 >? 0) with false. cbv iota. auto.
  - destruct (REPORT_FIELD_WORK_COORD_OFFSET g).
    + destruct (Z.gtb_spec w 0); [|lia]. change (0 >? 0) with false. cbv iota. auto.
    + change (0 >? 0) with false. cbv iota. auto.
Qed.

(** While the override counter counts down from [o], the field is skipped. *)
Lemma ovr_countdown (n : nat) (w o : Z) :
  REPORT_FIELD_OVERRIDES g = true ->
  0 <= w < 256 ->
  Z.of_nat n <= o < 256 ->
  snd (ticks g is_busy n w o) = o - Z.of_nat n
  /\ forall j, (j < n)%nat -> ovr_flag g is_busy (ticks g is_busy j w o) = false.
Proof.
  intros He. revert w o. induction n as [|n IH]; intros w o Hw Ho.
  - cbn [ticks snd]. split; [lia | intros j Hj; lia].
  - cbn [ticks].
    pose proof (tick_ovr_down w o He ltac:(lia)) as Hd.
    pose proof (tick_range w o Hw ltac:(lia)) as Hr.
    destruct (tick g is_busy w o) as [[[w1 o1] ew] eo] eqn:Et.
    destruct Hd as [-> ->]. destruct Hr as [Hw1 _].
    destruct (IH w1 (o - 1) Hw1 ltac:(lia)) as [IH1 IH2].
    split; [rewrite IH1; lia|].
    intros [|j] Hj.
    + cbn [ticks]. unfold ovr_flag. cbn [fst snd]. rewrite Et. reflexivity.
    + cbn [ticks]. rewrite Et. apply IH2. lia.
Qed.

(** While the work-offset counter counts down from [w], the field is
    skipped. *)
Lemma wco_countdown (n : nat) (w o : Z) :
  REPORT_FIELD_WORK_COORD_OFFSET g = true ->
  0 <= o < 256 ->
  Z.of_nat n <= w < 256 ->
  fst (ticks g is_busy n w o) = w - Z.of_nat n
  /\ forall j, (j < n)%nat -> wco_flag g is_busy (ticks g is_busy j w o) = false.
Proof.
  intros He. revert w o. induction n as [|n IH]; intros w o Ho Hw.
  - cbn [ticks fst]. split; [lia | intros j Hj; lia].
  - cbn [ticks].
    pose proof (tick_wco_down w o He ltac:(lia)) as Hd.
    pose proof (tick_range w o ltac:(lia) Ho) as Hr.
    destruct (tick g is_busy w o) as [[[w1 o1] ew] eo] eqn:Et.
    destruct Hd as [-> ->]. destruct Hr as [_ Ho1].
    destruct (IH (w - 1) o1 Ho1 ltac:(lia)) as [IH1 IH2].
    split; [rewrite IH1; lia|].
    intros [|j] Hj.
    + cbn [ticks]. unfold wco_flag. cbn [fst snd]. rewrite Et. reflexivity.
    + cbn [ticks]. rewrite Et. apply IH2. lia.
Qed.

End Ticks.

(** ** A reference [sprintf] for [%.<precision>f]

    The conversion [f] as the C standard describes it: a finite value is
    written as [[-]ddd.ddd] with [precision] digits after the point, rounded
    to that many digits (here to the nearest decimal, ties to even, on the
    exact binary value); an infinity is written as [inf] or [-inf] and a NaN
    as [nan]. It stands in for the C library where a report is evaluated. *)

Definition round_half_even_div (a b : Z) : Z :=
  let q := a / b in
  let r := a mod b in
  if 2 * r <? b then q
  else if 2 * r >? b then q + 1
  else if Z.even q then q else q + 1.

(** The last [precision] decimal digits of [r]. *)
Fixpoint fraction_digits (precision : nat) (r : Z) : string :=
  match precision with
  | O => EmptyString
  | S k =>
      (fraction_digits k (r / 10)
       ++ String (ascii_of_N (Z.to_N (48 + r mod 10))) EmptyString)%string
  end.

Definition printf_fixed (precision : nat) (x : spec_float) : string :=
  let p := Z.of_nat precision in
  let body (n : Z) : string :=
    (decimal (n / 10 ^ p)
     ++ (if Nat.eqb precision 0 then ""
         else "." ++ fraction_digits precision (n mod 10 ^ p)))%string in
  match x with
  | S754_nan => "nan"
  | S754_infinity s => if s then "-inf" else "inf"
  | S754_zero s => ((if s then "-" else "") ++ body 0)%string
  | S754_finite s m e =>
      let n :=
        if 0 <=? e then Z.pos m * 2 ^ e * 10 ^ p
        else round_half_even_div (Z.pos m * 10 ^ p) (2 ^ (- e)) in
      ((if s then "-" else "") ++ body n)%string
  end.

(** ** Sample controller states *)

Definition sample_settings (inches : bool) : settings_t :=
  {| flags := if inches then 1 else 0; status_report_mask := 1 |}.

Definition sample_gc_state : parser_state_t :=
  {| coord_system := [B32.float_of_Z 10; B32.float_of_Z 20; B32.float_of_Z 30];
     coord_offset := [float_zero; float_zero; float_zero];
     tool_length_offset := float_zero |}.

Definition sample_machine (read : Z -> option (list spec_float)) : machine_t :=
  {| machine_position := [B32.float_of_Z 1; B32.float_of_Z 2; B32.float_of_Z 3];
     probe_position := [float_zero; float_zero; float_zero];
     forward_kinematics := fun position => position;
     serial_get_rx_buffer_available := 127;
     plan_get_block_buffer_available := 15;
     plan_get_current_block := None;
     st_get_realtime_rate := float_zero;
     limits_get_state := 0;
     system_control_get_state := 0;
     probe_get_state := 0;
     spindle_get_state := 0;
     coolant_get_state := 0;
     settings_read_coord_data := read |}.

Definition sample_call : call :=
  {| call_settings := sample_settings false;
     call_gc_state := sample_gc_state;
     call_machine := sample_machine (fun _ => Some [float_zero; float_zero; float_zero]) |}.

Definition sample_sys (st wco ovr : Z) : system_t :=
  {| state := st; suspend := 0;
     report_ovr_counter := ovr; report_wco_counter := wco;
     f_override := 100; r_override := 100; spindle_speed_ovr := 100;
     spindle_speed := float_zero; probe_succeeded := 0 |}.

(** ** Properties of the throttled fields *)

Lemma tick_exclusive (g : grbl_hpp) (is_busy : bool) (w o : Z) :
  0 <= w < 256 -> 0 <= o < 256 ->
  let '(w1, o1, ew, eo) := tick g is_busy w o in
  (ew = true -> w = 0 /\ REPORT_FIELD_WORK_COORD_OFFSET g = true /\ eo = false)
  /\ (eo = true -> REPORT_FIELD_OVERRIDES g = true
                   /\ o1 = uint8_t (ovr_count g is_busy - 1) /\ o = 0).
Proof.
  intros Hw Ho. unfold tick, tick_wco, tick_ovr, ovr_count.
  destruct (REPORT_FIELD_WORK_COORD_OFFSET g).
  - destruct (Z.gtb_spec w 0).
    + destruct (REPORT_FIELD_OVERRIDES g); [destruct (Z.gtb_spec o 0)|];
        (split; [discriminate | try discriminate; intros _; repeat split; lia]).
    + destruct (Z.eqb_spec o 0) as [->|Hn].
      * change (uint8_t 1 >? 0) with true.
        destruct (REPORT_FIELD_OVERRIDES g);
          (split; [intros _; repeat split; lia | discriminate]).
      * destruct (REPORT_FIELD_OVERRIDES g); [destruct (Z.gtb_spec o 0); [|lia]|];
          (split; [intros _; repeat split; lia | discriminate]).
  - destruct (REPORT_FIELD_OVERRIDES g); [destruct (Z.gtb_spec o 0)|];
      (split; [discriminate | try discriminate; intros _; repeat split; lia]).
Qed.

Section ThrottleClaims.
Variable g : grbl_hpp.
Variable sprintf_f : nat -> spec_float -> string.

(** The fields of the report of one call and the state it leaves. *)
Definition report_of (c : call) (sys : system_t) : system_t * list status_field :=
  status_fields g sprintf_f (call_settings c) (call_gc_state c) (call_machine c) sys.

Lemma report_of_tick (c : call) (sys : system_t) :
  (report_wco_counter (fst (report_of c sys)), report_ovr_counter (fst (report_of c sys)),
   emits_wco (snd (report_of c sys)), emits_ovr (snd (report_of c sys)))
  = tick g (busy g sys) (report_wco_counter sys) (report_ovr_counter sys).
Proof.
  exact (proj1 (status_fields_tick g sprintf_f (call_settings c) (call_gc_state c)
                  (call_machine c) sys)).
Qed.

End ThrottleClaims.

Lemma report_realtime_status_fields (g : grbl_hpp)
    (sprintf_f : nat -> spec_float -> string) (c : call) (sys : system_t) (client : Z) :
  report_realtime_status g sprintf_f (call_settings c) (call_gc_state c)
                         (call_machine c) sys client
  = (fst (report_of g sprintf_f c sys),
     grbl_send g client (render_status (snd (report_of g sprintf_f c sys)))).
Proof.
  unfold report_realtime_status, report_of.
  destruct (status_fields g sprintf_f (call_settings c) (call_gc_state c)
              (call_machine c) sys) as [sys' fields].
  reflexivity.
Qed.

(** C5 (amended). In one call of [report_realtime_status], built with both
    throttled fields, a throttle counter that is nonzero on entry goes down by
    exactly one. A counter at zero is not decremented: the work-offset counter
    is reloaded with its refresh count less one, the busy or the idle count by
    the controller state; the override counter is reloaded likewise when the
    work-offset field does not fire in the same call, and when it does, it is
    armed to one and brought back to zero by the override block. Both
    counters stay within [0, 255], so neither becomes negative. *)
Theorem throttle_counters_step (g : grbl_hpp)
    (sprintf_f : nat -> spec_float -> string) (c : call) (sys : system_t) (client : Z) :
  REPORT_FIELD_WORK_COORD_OFFSET g = true ->
  REPORT_FIELD_OVERRIDES g = true ->
  counters_ok sys ->
  let sys' := fst (report_realtime_status g sprintf_f (call_settings c)
                     (call_gc_state c) (call_machine c) sys client) in
  (0 < report_wco_counter sys -> report_wco_counter sys' = report_wco_counter sys - 1)
  /\ (0 < report_ovr_counter sys -> report_ovr_counter sys' = report_ovr_counter sys - 1)
  /\ (report_wco_counter sys = 0 ->
      report_wco_counter sys'
      = uint8_t ((if busy g sys then REPORT_WCO_REFRESH_BUSY_COUNT g
                  else REPORT_WCO_REFRESH_IDLE_COUNT g) - 1))
  /\ (report_ovr_counter sys = 0 -> 0 < report_wco_counter sys ->
      report_ovr_counter sys'
      = uint8_t ((if busy g sys then REPORT_OVR_REFRESH_BUSY_COUNT g
                  else REPORT_OVR_REFRESH_IDLE_COUNT g) - 1))
  /\ (report_ovr_counter sys = 0 -> report_wco_counter sys = 0 ->
      report_ovr_counter sys' = 0)
  /\ counters_ok sys'.
Proof.
  intros Hw Ho [Hcw Hco]. cbv zeta.
  rewrite report_realtime_status_fields. cbn [fst].
  pose proof (report_of_tick g sprintf_f c sys) as Ht.
  pose proof (tick_range g (busy g sys) _ _ Hcw Hco) as Hr.
  pose proof (fun H => tick_wco_down g (busy g sys) (report_wco_counter sys)
                         (report_ovr_counter sys) Hw (conj H (proj2 Hcw))) as Hdw.
  pose proof (fun H => tick_ovr_down g (busy g sys) (report_wco_counter sys)
                         (report_ovr_counter sys) Ho (conj H (proj2 Hco))) as Hdo.
  pose proof (tick_wco_fire g (busy g sys) (report_ovr_counter sys) Hw Hco) as Hfw.
  pose proof (tick_ovr_fire g (busy g sys) (report_wco_counter sys) Ho) as Hfo.
  unfold wco_count in Hfw. unfold ovr_count in Hfo.
  destruct (tick g (busy g sys) (report_wco_counter sys) (report_ovr_counter sys))
    as [[[w1 o1] ew] eo] eqn:Et.
  unfold counters_ok. injection Ht as -> -> _ _.
  cbn beta iota in Hr, Hdw, Hdo. destruct Hr as [Hr1 Hr2].
  split; [intros H; apply (Hdw H)|].
  split; [intros H; apply (Hdo H)|].
  split.
  { intros H0. rewrite H0 in Et. rewrite Et in Hfw. apply Hfw. }
  split.
  { intros H0 Hpos. rewrite H0 in Et. specialize (Hfo (or_intror Hpos)).
    rewrite Et in Hfo. apply Hfo. }
  split.
  { intros H0 Hz. rewrite Hz in Et. rewrite Et in Hfw.
    destruct Hfw as (_ & _ & Hfw). destruct (Hfw Ho) as [_ ->]. rewrite H0. reflexivity. }
  split; assumption.
Qed.

Lemma throttle_counters_step_witness :
  (let sys := sample_sys 0 4 7 in
   let sys' := fst (report_realtime_status grbl_defaults printf_fixed
                      (call_settings sample_call) (call_gc_state sample_call)
                      (call_machine sample_call) sys 0) in
   report_wco_counter sys' = 3 /\ report_ovr_counter sys' = 6)
  /\ (let sys := sample_sys 0 0 0 in
      let sys' := fst (report_realtime_status grbl_defaults printf_fixed
                         (call_settings sample_call) (call_gc_state sample_call)
                         (call_machine sample_call) sys 0) in
      report_wco_counter sys' = 9 /\ report_ovr_counter sys' = 0)
  /\ (let sys := sample_sys (STATE_CYCLE grbl_defaults) 3 0 in
      let sys' := fst (report_realtime_status grbl_defaults printf_fixed
                         (call_settings sample_call) (call_gc_state sample_call)
                         (call_machine sample_call) sys 0) in
      report_wco_counter sys' = 2 /\ report_ovr_counter sys' = 19).
Proof.
  pose proof (throttle_counters_step grbl_defaults printf_fixed sample_call
                (sample_sys 0 4 7) 0 eq_refl eq_refl
                ltac:(unfold counters_ok; cbn; lia)) as H.
  pose proof (throttle_counters_step grbl_defaults printf_fixed sample_call
                (sample_sys 0 0 0) 0 eq_refl eq_refl
                ltac:(unfold counters_ok; cbn; lia)) as H0.
  pose proof (throttle_counters_step grbl_defaults printf_fixed sample_call
                (sample_sys (STATE_CYCLE grbl_defaults) 3 0) 0 eq_refl eq_refl
                ltac:(unfold counters_ok; cbn; lia)) as H1.
  cbv zeta in H, H0, H1.
  destruct H as (Hw & Ho & _).
  destruct H0 as (_ & _ & Hw0 & _ & Ho0 & _).
  destruct H1 as (Hw1 & _ & _ & Ho1 & _).
  cbv zeta. split; [|split].
  - split; [apply Hw | apply Ho]; cbn; lia.
  - split; [exact (Hw0 eq_refl) | exact (Ho0 eq_refl eq_refl)].
  - split; [apply Hw1; cbn; lia | apply Ho1; [reflexivity | cbn; lia]].
Defined.

(** C5 as stated fails when a counter is at zero: the work-offset counter is
    reloaded to [REPORT_WCO_REFRESH_IDLE_COUNT - 1] and the override counter,
    armed and decremented in the same call, is zero again. *)
Lemma throttle_counters_at_zero :
  let sys := sample_sys 0 0 0 in
  let sys' := fst (report_realtime_status grbl_defaults printf_fixed
                     (call_settings sample_call) (call_gc_state sample_call)
                     (call_machine sample_call) sys 0) in
  report_wco_counter sys' = 9 /\ report_ovr_counter sys' = 0
  /\ report_wco_counter sys' <> report_wco_counter sys - 1
  /\ report_ovr_counter sys' <> report_ovr_counter sys - 1.
Proof. vm_compute. repeat split; discriminate. Qed.

(** C1 (amended). The coupling runs from the work-offset field to the override
    field: whenever a report carries [|WCO:] it does not carry [|Ov:], and if
    the override counter was at zero (or one) on entry, the override field is
    emitted, without [|WCO:], by the very next call, whatever the controller
    state is by then. Emitting the override field does not touch the
    work-offset counter: the override block never writes it, and a report
    that carries [|Ov:] carries no [|WCO:] and leaves the work-offset counter
    one below what it was, so that the next report carries [|WCO:] only if
    that countdown has come to its end. *)
Theorem wco_report_arms_override (g : grbl_hpp)
    (sprintf_f : nat -> spec_float -> string) :
  REPORT_FIELD_WORK_COORD_OFFSET g = true ->
  REPORT_FIELD_OVERRIDES g = true ->
  2 <= REPORT_WCO_REFRESH_BUSY_COUNT g <= 256 ->
  2 <= REPORT_WCO_REFRESH_IDLE_COUNT g <= 256 ->
  (forall (c1 c2 : call) (sys sys2 : system_t),
      counters_ok sys ->
      emits_wco (snd (report_of g sprintf_f c1 sys)) = true ->
      report_wco_counter sys2 = report_wco_counter (fst (report_of g sprintf_f c1 sys)) ->
      report_ovr_counter sys2 = report_ovr_counter (fst (report_of g sprintf_f c1 sys)) ->
      emits_ovr (snd (report_of g sprintf_f c1 sys)) = false
      /\ (report_ovr_counter sys <= 1 ->
          emits_ovr (snd (report_of g sprintf_f c2 sys2)) = true
          /\ emits_wco (snd (report_of g sprintf_f c2 sys2)) = false))
  /\ (forall (c1 c2 : call) (sys sys2 : system_t),
        counters_ok sys ->
        emits_ovr (snd (report_of g sprintf_f c1 sys)) = true ->
        report_wco_counter sys2
        = report_wco_counter (fst (report_of g sprintf_f c1 sys)) ->
        emits_wco (snd (report_of g sprintf_f c1 sys)) = false
        /\ 0 < report_wco_counter sys
        /\ report_wco_counter (fst (report_of g sprintf_f c1 sys))
           = report_wco_counter sys - 1
        /\ (emits_wco (snd (report_of g sprintf_f c2 sys2)) = true
            <-> report_wco_counter sys = 1))
  /\ (forall (sys : system_t) (m : machine_t),
        report_wco_counter (fst (ovr_field g sys m)) = report_wco_counter sys).
Proof.
  intros Hw Ho Hb Hi. split; [|split].
  - intros c1 c2 sys sys2 [Hcw Hco] He Ew Eo.
    pose proof (report_of_tick g sprintf_f c1 sys) as H1.
    pose proof (report_of_tick g sprintf_f c2 sys2) as H2.
    rewrite Ew, Eo in H2.
    pose proof (tick_exclusive g (busy g sys) _ _ Hcw Hco) as Hx.
    destruct (tick g (busy g sys) (report_wco_counter sys) (report_ovr_counter sys))
      as [[[w1 o1] ew] eo] eqn:Et.
    injection H1 as E1 E2 E3 E4. rewrite E3 in He. subst ew.
    destruct Hx as [Hx _]. destruct (Hx eq_refl) as (Hw0 & _ & Heo).
    split; [congruence|]. intros Hle.
    rewrite Hw0 in Et.
    pose proof (tick_wco_fire g (busy g sys) (report_ovr_counter sys) Hw Hco) as Hf.
    rewrite Et in Hf. destruct Hf as (Hw1 & _ & Hf). destruct (Hf Ho) as [_ Ho1].
    assert (Hpos : 0 < w1).
    { rewrite Hw1. unfold wco_count.
      destruct (busy g sys); rewrite uint8_t_small by lia; lia. }
    rewrite E1, E2 in H2.
    replace o1 with 0 in H2 by lia.
    pose proof (tick_ovr_fire g (busy g sys2) w1 Ho (or_intror Hpos)) as Hn.
    destruct (tick g (busy g sys2) w1 0) as [[[w2 o2] ew2] eo2].
    injection H2 as _ _ -> ->. destruct Hn as (_ & -> & ->). split; reflexivity.
  - intros c1 c2 sys sys2 [Hcw Hco] He Ew.
    pose proof (report_of_tick g sprintf_f c1 sys) as H1.
    pose proof (report_of_tick g sprintf_f c2 sys2) as H2.
    rewrite Ew in H2.
    pose proof (tick_exclusive g (busy g sys) _ _ Hcw Hco) as Hx.
    pose proof (fun H => tick_wco_down g (busy g sys) (report_wco_counter sys)
                           (report_ovr_counter sys) Hw (conj H (proj2 Hcw))) as Hdw.
    destruct (tick g (busy g sys) (report_wco_counter sys) (report_ovr_counter sys))
      as [[[w1 o1] ew] eo] eqn:Et.
    pose proof (tick_wco_fire g (busy g sys) (report_ovr_counter sys) Hw Hco) as Hf.
    injection H1 as E1 E2 E3 E4. rewrite E4 in He. subst eo.
    destruct Hx as [Hx _].
    assert (Hew : ew = false).
    { destruct ew; [|reflexivity]. destruct (Hx eq_refl) as (_ & _ & Hx'). discriminate. }
    assert (Hwpos : 0 < report_wco_counter sys).
    { destruct (Z.eq_dec (report_wco_counter sys) 0) as [Hz|Hz]; [|lia].
      rewrite Hz in Et. rewrite Et in Hf. destruct Hf as (_ & Hf & _). congruence. }
    destruct (Hdw Hwpos) as [Hw1 _].
    split; [congruence|]. split; [exact Hwpos|]. split; [congruence|].
    rewrite E1, Hw1 in H2. clear Et.
    unfold tick, tick_wco in H2. rewrite Hw in H2.
    destruct (Z.gtb_spec (report_wco_counter sys - 1) 0) as [Hg|Hg].
    + destruct (tick_ovr g (busy g sys2) (report_ovr_counter sys2)) as [o2 eo2].
      injection H2 as _ _ -> _. split; [discriminate | lia].
    + destruct (tick_ovr g (busy g sys2) _) as [o2 eo2].
      injection H2 as _ _ -> _. split; [lia | reflexivity].
  - intros sys m. exact (proj1 (proj2 (ovr_field_tick g sys m))).
Qed.

Lemma wco_report_arms_override_witness :
  (let sys := sample_sys 0 0 0 in
   let r1 := report_of grbl_defaults printf_fixed sample_call sys in
   emits_wco (snd r1) = true
   /\ emits_ovr (snd r1) = false
   /\ emits_ovr (snd (report_of grbl_defaults printf_fixed sample_call (fst r1))) = true)
  /\ (let sys := sample_sys 0 5 0 in
      let r1 := report_of grbl_defaults printf_fixed sample_call sys in
      emits_ovr (snd r1) = true
      /\ emits_wco (snd r1) = false
      /\ report_wco_counter (fst r1) = 4
      /\ emits_wco (snd (report_of grbl_defaults printf_fixed sample_call (fst r1)))
         = false).
Proof.
  destruct (wco_report_arms_override grbl_defaults printf_fixed
              eq_refl eq_refl ltac:(cbn; lia) ltac:(cbn; lia)) as (H1 & H2 & _).
  cbv zeta. split.
  - destruct (H1 sample_call sample_call (sample_sys 0 0 0)
                (fst (report_of grbl_defaults printf_fixed sample_call (sample_sys 0 0 0)))
                ltac:(unfold counters_ok; cbn; lia) eq_refl eq_refl eq_refl) as [Ha Hb].
    split; [reflexivity|]. split; [exact Ha|]. apply Hb. cbn. lia.
  - destruct (H2 sample_call sample_call (sample_sys 0 5 0)
                (fst (report_of grbl_defaults printf_fixed sample_call (sample_sys 0 5 0)))
                ltac:(unfold counters_ok; cbn; lia) eq_refl eq_refl)
      as (Ha & _ & Hb & Hc).
    split; [reflexivity|]. split; [exact Ha|]. split; [exact Hb|].
    destruct (emits_wco (snd (report_of grbl_defaults printf_fixed sample_call
                (fst (report_of grbl_defaults printf_fixed sample_call
                        (sample_sys 0 5 0)))))) eqn:Ew; [|reflexivity].
    destruct Hc as [Hc _]. specialize (Hc eq_refl). cbn in Hc. lia.
Defined.

(** C1 as stated fails: a report that carries [|Ov:] leaves the work-offset
    counter to its own countdown (here from 5 to 4), and the next report
    carries no [|WCO:]. *)
Lemma override_report_does_not_arm_wco :
  let sys := sample_sys 0 5 0 in
  let r1 := report_of grbl_defaults printf_fixed sample_call sys in
  let r2 := report_of grbl_defaults printf_fixed sample_call (fst r1) in
  emits_ovr (snd r1) = true
  /\ report_wco_counter (fst r1) = 4
  /\ emits_wco (snd r2) = false.
Proof. vm_compute. repeat split; reflexivity. Qed.

Lemma ticks_succ (g : grbl_hpp) (b : bool) (n : nat) (w o : Z) :
  ticks g b (S n) w o
  = let '(w1, o1, _, _) := tick g b (fst (ticks g b n w o)) (snd (ticks g b n w o)) in
    (w1, o1).
Proof.
  replace (S n) with (n + 1)%nat by lia. rewrite ticks_add. cbn [ticks].
  destruct (tick g b _ _) as [[[w1 o1] ew] eo]. reflexivity.
Qed.

Lemma wco_flag_false (g : grbl_hpp) (b : bool) (w o : Z) :
  0 <= w ->
  wco_flag g b (w, o) = false ->
  REPORT_FIELD_WORK_COORD_OFFSET g = false \/ 0 < w.
Proof.
  intros Hw. unfold wco_flag, tick, tick_wco. cbn [fst snd].
  destruct (REPORT_FIELD_WORK_COORD_OFFSET g); [|now left].
  destruct (Z.gtb_spec w 0); [now right|].
  destruct (tick_ovr g b _) as [o2 eo]. discriminate.
Qed.

(** C4 (amended). While the controller stays Idle, a build with override
    reporting emits [|Ov:] as follows: after a report that carries it, the next
    [REPORT_OVR_REFRESH_IDLE_COUNT - 1] reports do not, and the report
    [REPORT_OVR_REFRESH_IDLE_COUNT] calls later does, unless that report
    carries [|WCO:]; then the override field follows one call later. *)
Theorem idle_override_refresh (g : grbl_hpp)
    (sprintf_f : nat -> spec_float -> string) (calls : list call) (sys : system_t) :
  REPORT_FIELD_OVERRIDES g = true ->
  state sys = STATE_IDLE g ->
  Z.land (STATE_IDLE g) (busy_states g) = 0 ->
  1 <= REPORT_OVR_REFRESH_IDLE_COUNT g <= 256 ->
  (REPORT_FIELD_WORK_COORD_OFFSET g = true ->
   2 <= REPORT_WCO_REFRESH_IDLE_COUNT g <= 256) ->
  counters_ok sys ->
  let n := Z.to_nat (REPORT_OVR_REFRESH_IDLE_COUNT g) in
  let report := report_at g sprintf_f calls sys in
  (n + 1 < List.length calls)%nat ->
  emits_ovr (report 0%nat) = true ->
  (forall j, (1 <= j < n)%nat -> emits_ovr (report j) = false)
  /\ (emits_wco (report n) = false -> emits_ovr (report n) = true)
  /\ (emits_wco (report n) = true ->
      emits_ovr (report n) = false /\ emits_ovr (report (S n)) = true).
Proof.
  intros Ho Hst Hidle Hoi Hwi [Hcw Hco] n report Hlen H0.
  assert (Hb : busy g sys = false).
  { unfold busy. rewrite Hst, Hidle. reflexivity. }
  assert (Hrep : forall j, (j < List.length calls)%nat ->
            emits_wco (report j)
            = wco_flag g false (ticks g false j (report_wco_counter sys)
                                                (report_ovr_counter sys))
            /\ emits_ovr (report j)
               = ovr_flag g false (ticks g false j (report_wco_counter sys)
                                                   (report_ovr_counter sys))).
  { intros j Hj. subst report.
    pose proof (report_at_ticks g sprintf_f calls sys j Hj) as H. cbv zeta in H.
    now rewrite Hb in H. }
  set (w0 := report_wco_counter sys) in *. set (o0 := report_ovr_counter sys) in *.
  (* the first report reloads the counter *)
  destruct (Hrep 0%nat ltac:(lia)) as [_ E0]. rewrite H0 in E0. cbn [ticks] in E0.
  unfold ovr_flag in E0. cbn [fst snd] in E0.
  pose proof (tick_exclusive g false w0 o0 Hcw Hco) as Hx.
  pose proof (tick_range g false w0 o0 Hcw Hco) as Hr.
  destruct (tick g false w0 o0) as [[[w1 o1] ew] eo] eqn:Et. subst eo.
  destruct Hx as [_ Hx]. destruct (Hx eq_refl) as (_ & Ho1 & _).
  destruct Hr as [Hw1 _]. unfold ovr_count in Ho1.
  rewrite uint8_t_small in Ho1 by lia.
  assert (Ht1 : forall k, ticks g false (S k) w0 o0 = ticks g false k w1 o1).
  { intros k. cbn [ticks]. now rewrite Et. }
  (* the countdown *)
  destruct (ovr_countdown g false (n - 1) w1 o1 Ho Hw1 ltac:(lia)) as [Hend Hskip].
  pose proof (ticks_range g false (n - 1) w1 o1 Hw1 ltac:(lia)) as [Hw2 _].
  destruct (ticks g false (n - 1) w1 o1) as [w2 o2] eqn:Et2.
  cbn [fst snd] in Hend, Hw2.
  assert (Ho2 : o2 = 0) by lia. clear Hend. subst o2.
  assert (En : ticks g false n w0 o0 = (w2, 0)).
  { replace n with (S (n - 1)) by lia. now rewrite Ht1. }
  split; [|split].
  - intros j Hj. destruct (Hrep j ltac:(lia)) as [_ ->].
    replace j with (S (j - 1)) by lia. rewrite Ht1. apply Hskip. lia.
  - intros Hnw. destruct (Hrep n ltac:(lia)) as [Ew ->]. rewrite Hnw, En in Ew.
    symmetry in Ew. apply wco_flag_false in Ew; [|lia].
    rewrite En. unfold ovr_flag. cbn [fst snd].
    pose proof (tick_ovr_fire g false w2 Ho Ew) as Hf.
    destruct (tick g false w2 0) as [[[w3 o3] ew3] eo3]. now destruct Hf as (_ & -> & _).
  - intros Hyw. destruct (Hrep n ltac:(lia)) as [Ew ->]. rewrite Hyw, En in Ew.
    destruct (Hrep (S n) ltac:(lia)) as [_ ->].
    rewrite ticks_succ, En. cbn [fst snd].
    unfold wco_flag in Ew. unfold ovr_flag at 1. cbn [fst snd] in Ew |- *.
    pose proof (tick_exclusive g false w2 0 Hw2 ltac:(lia)) as Hx2.
    destruct (tick g false w2 0) as [[[w3 o3] ew3] eo3] eqn:Et3. subst ew3.
    destruct Hx2 as [Hx2 _]. destruct (Hx2 eq_refl) as (-> & Hwe & ->).
    split; [reflexivity|].
    pose proof (tick_wco_fire g false 0 Hwe ltac:(lia)) as Hf. rewrite Et3 in Hf.
    destruct Hf as (Hw3 & _ & Hf). destruct (Hf Ho) as [_ Ho3].
    unfold wco_count in Hw3. specialize (Hwi Hwe).
    rewrite uint8_t_small in Hw3 by lia.
    replace o3 with 0 by lia.
    unfold ovr_flag. cbn [fst snd].
    assert (Hpos : 0 < w3) by lia.
    pose proof (tick_ovr_fire g false w3 Ho (or_intror Hpos)) as Hf2.
    destruct (tick g false w3 0) as [[[w4 o4] ew4] eo4]. now destruct Hf2 as (_ & -> & _).
Qed.

Lemma idle_override_refresh_witness :
  let report :=
    report_at grbl_defaults printf_fixed (repeat sample_call 12) (sample_sys 0 5 0) in
  (forall j, (1 <= j < 10)%nat -> emits_ovr (report j) = false)
  /\ emits_ovr (report 10%nat) = true.
Proof.
  pose proof (idle_override_refresh grbl_defaults printf_fixed (repeat sample_call 12)
                (sample_sys 0 5 0) eq_refl eq_refl eq_refl
                ltac:(cbn; lia) ltac:(intros _; cbn; lia)
                ltac:(unfold counters_ok; cbn; lia)) as H.
  cbv zeta in H.
  specialize (H ltac:(vm_compute; lia) ltac:(vm_compute; reflexivity)).
  destruct H as (H1 & H2 & _).
  cbv zeta. split; [exact H1|]. apply H2. vm_compute. reflexivity.
Defined.

Definition set_state (sys : system_t) (st : Z) : system_t :=
  {| state := st; suspend := suspend sys;
     report_ovr_counter := report_ovr_counter sys;
     report_wco_counter := report_wco_counter sys;
     f_override := f_override sys; r_override := r_override sys;
     spindle_speed_ovr := spindle_speed_ovr sys;
     spindle_speed := spindle_speed sys;
     probe_succeeded := probe_succeeded sys |}.

(** C4 as stated fails in two ways. From power-up, two reports in the Run
    state leave the override counter at its busy reload, and the ten Idle
    reports that follow carry no [|Ov:] at all. And in an Idle run that starts
    with the counters at 10 and 0, the field is carried by report 0 and next by
    report 11, not 10: report 10 carries [|WCO:], which postpones it. *)
Lemma idle_override_not_periodic :
  (let sys := fst (run grbl_defaults printf_fixed (repeat sample_call 2)
                     (sample_sys (STATE_CYCLE grbl_defaults) 0 0)) in
   let idle := set_state sys (STATE_IDLE grbl_defaults) in
   existsb emits_ovr (snd (run grbl_defaults printf_fixed (repeat sample_call 10) idle))
   = false)
  /\ map emits_ovr (snd (run grbl_defaults printf_fixed (repeat sample_call 12)
                           (sample_sys (STATE_IDLE grbl_defaults) 10 0)))
     = [true; false; false; false; false; false; false; false; false; false; false; true].
Proof. vm_compute. split; reflexivity. Qed.

(** C6 (amended). A throttle counter at zero when its block is reached has its
    field emitted and is reloaded with [REPORT_..._REFRESH_BUSY_COUNT - 1] when
    [sys.state] is one of Homing, Cycle, Hold, Jog, Door and with
    [REPORT_..._REFRESH_IDLE_COUNT - 1] otherwise; a nonzero counter keeps its
    field out of the report. While the state does not change, the work-offset
    field therefore recurs every busy count of calls in a busy state and every
    idle count of calls otherwise: which of the two refreshes more often is
    fixed by the two constants of the build. *)
Theorem throttle_reload (g : grbl_hpp) (sprintf_f : nat -> spec_float -> string)
    (c : call) (calls : list call) (sys : system_t) :
  counters_ok sys ->
  let r := report_of g sprintf_f c sys in
  let report := report_at g sprintf_f (c :: calls) sys in
  let n := Z.to_nat (wco_count g (busy g sys)) in
  (REPORT_FIELD_WORK_COORD_OFFSET g = true -> report_wco_counter sys = 0 ->
   emits_wco (snd r) = true
   /\ report_wco_counter (fst r) = uint8_t (wco_count g (busy g sys) - 1))
  /\ (REPORT_FIELD_OVERRIDES g = true -> report_ovr_counter sys = 0 ->
      emits_wco (snd r) = false ->
      emits_ovr (snd r) = true
      /\ report_ovr_counter (fst r) = uint8_t (ovr_count g (busy g sys) - 1))
  /\ (0 < report_wco_counter sys -> emits_wco (snd r) = false)
  /\ (0 < report_ovr_counter sys -> emits_ovr (snd r) = false)
  /\ (REPORT_FIELD_WORK_COORD_OFFSET g = true ->
      1 <= wco_count g (busy g sys) <= 256 ->
      (n < List.length (c :: calls))%nat ->
      emits_wco (report 0%nat) = true ->
      (forall j, (1 <= j < n)%nat -> emits_wco (report j) = false)
      /\ emits_wco (report n) = true).
Proof.
  intros [Hcw Hco] r report n.
  pose proof (report_of_tick g sprintf_f c sys) as Ht. fold r in Ht.
  set (b := busy g sys) in *.
  set (w0 := report_wco_counter sys) in *. set (o0 := report_ovr_counter sys) in *.
  split; [|split; [|split; [|split]]].
  - intros Hw E0. rewrite E0 in Ht.
    pose proof (tick_wco_fire g b o0 Hw Hco) as Hf.
    destruct (tick g b 0 o0) as [[[w1 o1] ew] eo].
    injection Ht as -> _ -> _. destruct Hf as (-> & -> & _). split; reflexivity.
  - intros Ho E0 Hnw. rewrite E0 in Ht.
    assert (Hor : REPORT_FIELD_WORK_COORD_OFFSET g = false \/ 0 < w0).
    { apply (wco_flag_false g b w0 0); [lia|].
      unfold wco_flag. cbn [fst snd].
      destruct (tick g b w0 0) as [[[w1 o1] ew] eo].
      injection Ht as _ _ E _. congruence. }
    pose proof (tick_ovr_fire g b w0 Ho Hor) as Hf.
    destruct (tick g b w0 0) as [[[w1 o1] ew] eo].
    injection Ht as _ -> _ ->. destruct Hf as (-> & -> & _). split; reflexivity.
  - intros Hpos.
    pose proof (tick_exclusive g b w0 o0 Hcw Hco) as Hx.
    destruct (tick g b w0 o0) as [[[w1 o1] ew] eo].
    injection Ht as _ _ -> _. destruct Hx as [Hx _].
    destruct ew; [|reflexivity]. destruct (Hx eq_refl) as [Hz _]. lia.
  - intros Hpos.
    pose proof (tick_exclusive g b w0 o0 Hcw Hco) as Hx.
    destruct (tick g b w0 o0) as [[[w1 o1] ew] eo].
    injection Ht as _ _ _ ->. destruct Hx as [_ Hx].
    destruct eo; [|reflexivity]. destruct (Hx eq_refl) as (_ & _ & Hz). lia.
  - intros Hw Hc Hlen H0.
    assert (Hrep : forall j, (j < List.length (c :: calls))%nat ->
              emits_wco (report j) = wco_flag g b (ticks g b j w0 o0)).
    { intros j Hj. subst report.
      exact (proj1 (report_at_ticks g sprintf_f (c :: calls) sys j Hj)). }
    rewrite (Hrep 0%nat ltac:(lia)) in H0. cbn [ticks] in H0.
    unfold wco_flag in H0. cbn [fst snd] in H0.
    pose proof (tick_exclusive g b w0 o0 Hcw Hco) as Hx.
    pose proof (tick_range g b w0 o0 Hcw Hco) as Hr.
    destruct (tick g b w0 o0) as [[[w1 o1] ew] eo] eqn:Et. subst ew.
    destruct Hx as [Hx _]. destruct (Hx eq_refl) as (Hz & _ & _).
    destruct Hr as [_ Ho1].
    assert (Ht1 : forall k, ticks g b (S k) w0 o0 = ticks g b k w1 o1).
    { intros k. cbn [ticks]. now rewrite Et. }
    pose proof (tick_wco_fire g b o0 Hw Hco) as Hf. rewrite Hz in Et. rewrite Et in Hf.
    destruct Hf as (Hw1 & _ & _). rewrite uint8_t_small in Hw1 by lia.
    destruct (wco_countdown g b (n - 1) w1 o1 Hw Ho1 ltac:(lia)) as [Hend Hskip].
    pose proof (ticks_range g b (n - 1) w1 o1 ltac:(lia) Ho1) as [_ Ho2].
    destruct (ticks g b (n - 1) w1 o1) as [w2 o2] eqn:Et2.
    cbn [fst snd] in Hend, Ho2.
    assert (Hw2 : w2 = 0) by lia. clear Hend. subst w2.
    split.
    + intros j Hj. rewrite (Hrep j ltac:(lia)).
      replace j with (S (j - 1)) by lia. rewrite Ht1. apply Hskip. lia.
    + rewrite (Hrep n ltac:(lia)).
      replace n with (S (n - 1)) at 1 by lia. rewrite Ht1, Et2.
      unfold wco_flag. cbn [fst snd].
      pose proof (tick_wco_fire g b o2 Hw Ho2) as Hf.
      destruct (tick g b 0 o2) as [[[w3 o3] ew3] eo3]. now destruct Hf as (_ & -> & _).
Qed.

Lemma throttle_reload_witness :
  let sys := sample_sys (STATE_CYCLE grbl_defaults) 0 0 in
  let r := report_of grbl_defaults printf_fixed sample_call sys in
  let report :=
    report_at grbl_defaults printf_fixed (sample_call :: repeat sample_call 30) sys in
  emits_wco (snd r) = true
  /\ report_wco_counter (fst r) = 29
  /\ (forall j, (1 <= j < 30)%nat -> emits_wco (report j) = false)
  /\ emits_wco (report 30%nat) = true.
Proof.
  pose proof (throttle_reload grbl_defaults printf_fixed sample_call
                (repeat sample_call 30) (sample_sys (STATE_CYCLE grbl_defaults) 0 0)
                ltac:(unfold counters_ok; cbn; lia)) as H.
  cbv zeta in H. destruct H as (H1 & _ & _ & _ & H5).
  destruct (H1 eq_refl eq_refl) as [Ha Hb].
  specialize (H5 eq_refl ltac:(vm_compute; split; discriminate)
                ltac:(vm_compute; lia) ltac:(vm_compute; reflexivity)).
  destruct H5 as [Hc Hd].
  cbv zeta. split; [exact Ha|]. split; [exact Hb|]. split; [exact Hc | exact Hd].
Defined.

Definition count_reports (p : list status_field -> bool)
    (reports : list (list status_field)) : nat :=
  List.length (filter p reports).

(** C6 as stated fails on its last part. With the refresh counts of the Grbl
    headers (busy 30 and 20, idle 10 and 10) sixty reports in the Run state
    carry [|WCO:] twice and [|Ov:] three times, sixty reports in the Idle state
    six times each: the busy states refresh less often, as the comment
    "Reset counter for slow refresh" on the busy branch says. *)
Lemma busy_refresh_is_slower :
  let busy_reports :=
    snd (run grbl_defaults printf_fixed (repeat sample_call 60)
             (sample_sys (STATE_CYCLE grbl_defaults) 0 0)) in
  let idle_reports :=
    snd (run grbl_defaults printf_fixed (repeat sample_call 60)
             (sample_sys (STATE_IDLE grbl_defaults) 0 0)) in
  busy grbl_defaults (sample_sys (STATE_CYCLE grbl_defaults) 0 0) = true
  /\ busy grbl_defaults (sample_sys (STATE_IDLE grbl_defaults) 0 0) = false
  /\ count_reports emits_wco busy_reports = 2%nat
  /\ count_reports emits_wco idle_reports = 6%nat
  /\ count_reports emits_ovr busy_reports = 3%nat
  /\ count_reports emits_ovr idle_reports = 6%nat.
Proof. vm_compute. repeat split; reflexivity. Qed.

(** ** The parameter report *)

Lemma ngc_coord_loop_fails (g : grbl_hpp) (sprintf_f : nat -> spec_float -> string)
    (settings : settings_t) (m : machine_t) (k : Z) :
  k <= SETTING_INDEX_NCOORD g < 255 ->
  settings_read_coord_data m k = None ->
  forall (fuel : nat) (coordinate_select : Z) (ngc_report : string),
    0 <= coordinate_select <= k ->
    k - coordinate_select < Z.of_nat fuel ->
    (forall j, coordinate_select <= j < k -> settings_read_coord_data m j <> None) ->
    ngc_coord_loop g sprintf_f settings m fuel coordinate_select ngc_report = None.
Proof.
  intros Hk Hfail. induction fuel as [|fuel IH]; intros sel report Hsel Hfuel Hok.
  - cbn in Hfuel. lia.
  - cbn [ngc_coord_loop].
    destruct (Z.leb_spec sel (SETTING_INDEX_NCOORD g)); [|lia].
    destruct (Z.eq_dec sel k) as [->|Hne].
    + now rewrite Hfail.
    + destruct (settings_read_coord_data m sel) as [data|] eqn:E.
      * cbv zeta. rewrite uint8_t_small by lia.
        apply IH; [lia | lia | intros j Hj; apply Hok; lia].
      * exfalso. apply (Hok sel); [lia | exact E].
Qed.

Definition write_text (w : channel_write) : string :=
  match w with
  | Serial2Socket_write text => text
  | Serial_print text => text
  end.

(** C3. When the read of stored coordinate data fails on record [k] of the
    sequence G54..G59, G28, G30 (the reads of the records before it having
    succeeded), [report_ngc_parameters] sends the error acknowledgement
    [error:<STATUS_SETTING_READ_FAIL>], once, to the client, and nothing else:
    no coordinate-frame record, no [G92], [TLO] or [PRB] record. *)
Theorem ngc_read_failure (g : grbl_hpp) (sprintf_f : nat -> spec_float -> string)
    (settings : settings_t) (sys : system_t) (gc_state : parser_state_t)
    (m : machine_t) (client k : Z) :
  0 <= k <= SETTING_INDEX_NCOORD g ->
  SETTING_INDEX_NCOORD g < 255 ->
  STATUS_SETTING_READ_FAIL g <> STATUS_OK g ->
  settings_read_coord_data m k = None ->
  (forall j, 0 <= j < k -> settings_read_coord_data m j <> None) ->
  let acknowledgement :=
    ("error:" ++ decimal (STATUS_SETTING_READ_FAIL g) ++ CRLF)%string in
  let sent := report_ngc_parameters g sprintf_f settings sys gc_state m client in
  sent = grbl_send g client acknowledgement
  /\ sent = report_status_message g (STATUS_SETTING_READ_FAIL g) client
  /\ Forall (fun w => write_text w = acknowledgement) sent.
Proof.
  intros Hk Hn Hcode Hfail Hok. cbv zeta.
  unfold report_ngc_parameters.
  rewrite (ngc_coord_loop_fails g sprintf_f settings m k ltac:(lia) Hfail);
    [| lia | rewrite Z2Nat.id by lia; lia | exact Hok].
  unfold report_status_message, grbl_sendf.
  apply Z.eqb_neq in Hcode. rewrite Hcode.
  split; [reflexivity|]. split; [reflexivity|].
  unfold grbl_send.
  destruct (_ || _); destruct (_ || _); cbn [app]; repeat constructor.
Qed.

(** The stored coordinate data with a read failure on record [k]. *)
Definition failing_read (k : Z) (coordinate_select : Z) : option (list spec_float) :=
  if coordinate_select =? k then None
  else Some [float_zero; float_zero; float_zero].

Lemma ngc_read_failure_witness :
  report_ngc_parameters grbl_defaults printf_fixed (sample_settings false)
    (sample_sys 0 0 0) sample_gc_state (sample_machine (failing_read 2))
    (CLIENT_SERIAL grbl_defaults)
  = [Serial_print ("error:7" ++ CRLF)].
Proof.
  pose proof (ngc_read_failure grbl_defaults printf_fixed (sample_settings false)
                (sample_sys 0 0 0) sample_gc_state (sample_machine (failing_read 2))
                (CLIENT_SERIAL grbl_defaults) 2
                ltac:(cbn; lia) ltac:(cbn; lia) ltac:(cbn; lia) eq_refl) as H.
  cbv zeta in H.
  assert (Hok : forall j, 0 <= j < 2 ->
            settings_read_coord_data (sample_machine (failing_read 2)) j <> None).
  { intros j Hj. cbn. unfold failing_read.
    destruct (Z.eqb_spec j 2); [lia | discriminate]. }
  destruct (H Hok) as [E _]. rewrite E. reflexivity.
Defined.

(** ** The axis-vector formatter *)

Definition is_comma (c : ascii) : bool := code c =? 44.

(** The number of commas in a text. *)
Fixpoint count_commas (s : string) : nat :=
  match s with
  | EmptyString => 0
  | String c rest => (if is_comma c then 1 else 0) + count_commas rest
  end.

(** The text ends with a comma. *)
Fixpoint ends_with_comma (s : string) : bool :=
  match s with
  | EmptyString => false
  | String c EmptyString => is_comma c
  | String _ rest => ends_with_comma rest
  end.

(** The pieces of a text between its commas. *)
Fixpoint split_commas_from (piece : string) (s : string) : list string :=
  match s with
  | EmptyString => [piece]
  | String c rest =>
      if is_comma c then piece :: split_commas_from EmptyString rest
      else split_commas_from (piece ++ String c EmptyString) rest
  end.

Definition split_commas : string -> list string := split_commas_from EmptyString.

(** The text before and after the first decimal point. *)
Fixpoint before_point (s : string) : string :=
  match s with
  | EmptyString => EmptyString
  | String c rest => if code c =? 46 then EmptyString else String c (before_point rest)
  end.

Fixpoint decimals_of (s : string) : string :=
  match s with
  | EmptyString => EmptyString
  | String c rest => if code c =? 46 then rest else decimals_of rest
  end.

Fixpoint has_point_char (s : string) : bool :=
  match s with
  | EmptyString => false
  | String c rest => (code c =? 46) || has_point_char rest
  end.

Definition strip_minus (s : string) : string :=
  match s with
  | EmptyString => s
  | String c rest => if code c =? 45 then rest else s
  end.

(** A text of the form [-]digits.digits with exactly [precision] digits after
    the point: what [%.<precision>f] renders a finite value as. *)
Definition fixed_point (precision : nat) (s : string) : bool :=
  let unsigned := strip_minus s in
  nonempty (before_point unsigned)
  && all_digits (before_point unsigned)
  && has_point_char unsigned
  && all_digits (decimals_of unsigned)
  && Nat.eqb (String.length (decimals_of unsigned)) precision.

Lemma append_nil_r (s : string) : (s ++ "")%string = s.
Proof. induction s as [|c s IH]; cbn; [reflexivity | now rewrite IH]. Qed.

Lemma count_commas_app (a b : string) :
  count_commas (a ++ b) = (count_commas a + count_commas b)%nat.
Proof.
  induction a as [|c a IH]; cbn [append count_commas]; [reflexivity|].
  rewrite IH. lia.
Qed.

Lemma ends_with_comma_app (a b : string) :
  nonempty b = true -> ends_with_comma (a ++ b) = ends_with_comma b.
Proof.
  intros Hb. induction a as [|c a IH]; cbn [append]; [reflexivity|].
  cbn [ends_with_comma]. destruct (a ++ b)%string eqn:E.
  - destruct a; [cbn in E; subst b; discriminate | discriminate].
  - exact IH.
Qed.

Lemma split_commas_from_app (piece a rest : string) :
  count_commas a = 0%nat ->
  split_commas_from piece (a ++ rest) = split_commas_from (piece ++ a) rest.
Proof.
  revert piece. induction a as [|c a IH]; intros piece Ha; cbn [append].
  - now rewrite append_nil_r.
  - cbn [count_commas] in Ha. cbn [split_commas_from].
    destruct (is_comma c); [discriminate|].
    rewrite IH by (cbn in Ha; lia). now rewrite append_assoc.
Qed.

(** A list of rendered values free of commas: joined with commas, it has one
    comma fewer than values, splits back into the values, and has no trailing
    comma. *)
Lemma concat_commas (pieces : list string) :
  pieces <> [] ->
  Forall (fun s => count_commas s = 0%nat /\ ends_with_comma s = false
                   /\ nonempty s = true) pieces ->
  let joined := String.concat "," pieces in
  count_commas joined = (List.length pieces - 1)%nat
  /\ (forall piece, split_commas_from piece joined
                    = (piece ++ hd EmptyString pieces)%string :: tl pieces)
  /\ ends_with_comma joined = false
  /\ nonempty joined = true.
Proof.
  induction pieces as [|x pieces IH]; intros Hne Hall; [contradiction|].
  inversion Hall as [|? ? (Hx1 & Hx2 & Hx3) Hrest]; subst.
  destruct pieces as [|y pieces].
  - cbn [String.concat List.length hd tl]. cbv zeta.
    repeat split; try assumption; try (rewrite Hx1; reflexivity).
    intros piece. rewrite <- (append_nil_r x) at 1.
    rewrite split_commas_from_app by exact Hx1. reflexivity.
  - specialize (IH ltac:(discriminate) Hrest). cbv zeta in IH.
    destruct IH as (I1 & I2 & I3 & I4).
    change (String.concat "," (x :: y :: pieces))
      with (x ++ "," ++ String.concat "," (y :: pieces))%string.
    cbv zeta. repeat split.
    + rewrite count_commas_app, Hx1.
      change ("," ++ String.concat "," (y :: pieces))%string
        with (String "," (String.concat "," (y :: pieces))).
      cbn [count_commas]. change (is_comma ",") with true. rewrite I1.
      cbn [List.length]. lia.
    + intros piece. rewrite split_commas_from_app by exact Hx1.
      change ("," ++ String.concat "," (y :: pieces))%string
        with (String "," (String.concat "," (y :: pieces))).
      cbn [split_commas_from]. change (is_comma ",") with true. cbv iota.
      rewrite I2. reflexivity.
    + rewrite ends_with_comma_app.
      * change ("," ++ String.concat "," (y :: pieces))%string
          with (String "," (String.concat "," (y :: pieces))).
        cbn [ends_with_comma].
        destruct (String.concat "," (y :: pieces)); [discriminate | exact I3].
      * reflexivity.
    + destruct x; [discriminate | reflexivity].
Qed.

Lemma all_digits_no_comma (s : string) :
  all_digits s = true -> count_commas s = 0%nat.
Proof.
  induction s as [|c s IH]; [reflexivity|]. cbn [all_digits count_commas].
  intros H. apply andb_prop in H as [Hc Hs]. rewrite (IH Hs).
  unfold is_digit in Hc. apply andb_prop in Hc as [H1 H2]. apply Z.leb_le in H1, H2.
  unfold is_comma. destruct (Z.eqb_spec (code c) 44); [lia | reflexivity].
Qed.

Lemma no_comma_no_trailing (s : string) :
  count_commas s = 0%nat -> ends_with_comma s = false.
Proof.
  induction s as [|c s IH]; [reflexivity|]. cbn [count_commas ends_with_comma].
  intros H. destruct (is_comma c); [discriminate|].
  destruct s; [reflexivity | apply IH; exact H].
Qed.

Lemma number_no_comma (s : string) :
  all_digits (before_point s) = true ->
  all_digits (decimals_of s) = true ->
  count_commas s = 0%nat.
Proof.
  induction s as [|c s IH]; [reflexivity|].
  cbn [before_point decimals_of count_commas]. unfold is_comma.
  destruct (Z.eqb_spec (code c) 46) as [E|E].
  - intros _ Hd. rewrite E. now rewrite (all_digits_no_comma s Hd).
  - cbn [all_digits]. intros Hb Hd. apply andb_prop in Hb as [Hc Hb].
    rewrite (IH Hb Hd).
    unfold is_digit in Hc. apply andb_prop in Hc as [H1 H2]. apply Z.leb_le in H1, H2.
    destruct (Z.eqb_spec (code c) 44); [lia | reflexivity].
Qed.

Lemma fixed_point_piece (precision : nat) (s : string) :
  fixed_point precision s = true ->
  count_commas s = 0%nat /\ ends_with_comma s = false /\ nonempty s = true.
Proof.
  unfold fixed_point. cbv zeta. intros H.
  apply andb_prop in H as [H _]. apply andb_prop in H as [H Hd].
  apply andb_prop in H as [H _]. apply andb_prop in H as [Hn Hb].
  pose proof (number_no_comma (strip_minus s) Hb Hd) as Hc.
  assert (Hs : count_commas s = 0%nat).
  { destruct s as [|c s]; [reflexivity|]. cbn [strip_minus] in Hc.
    destruct (Z.eqb_spec (code c) 45) as [E|E]; [|exact Hc].
    cbn [count_commas]. unfold is_comma. rewrite E, Hc. reflexivity. }
  split; [exact Hs|]. split; [now apply no_comma_no_trailing|].
  destruct s; [discriminate Hn | reflexivity].
Qed.

Section AxisValues.
Variable g : grbl_hpp.
Variable sprintf_f : nat -> spec_float -> string.
Variable settings : settings_t.

(** The number of digits after the point that the formatter asks for. *)
Definition axis_precision : nat := if report_inches g settings then 4%nat else 3%nat.

(** One axis value as the formatter renders it. *)
Definition render_axis (v : spec_float) : string :=
  field_width 4 (sprintf_f axis_precision (SFmul 24 128 v (unit_conversion g settings))).

Lemma axis_values_loop_concat (axis_value : list spec_float) :
  forall (rest : list spec_float) (index : nat) (report : string),
    (index + List.length rest = N_AXIS g)%nat ->
    (forall i, (i < List.length rest)%nat ->
               nth (index + i) axis_value float_zero = nth i rest float_zero) ->
    axis_values_loop g sprintf_f settings axis_value (List.length rest) index report
    = (report ++ String.concat "," (map render_axis rest))%string.
Proof.
  induction rest as [|v rest IH]; intros index report Hn Hnth.
  - cbn. now rewrite append_nil_r.
  - cbn [List.length axis_values_loop].
    pose proof (Hnth 0%nat ltac:(cbn; lia)) as H0. rewrite Nat.add_0_r in H0.
    cbn [nth] in H0. rewrite H0.
    assert (Hr : (if report_inches g settings
                  then field_width 4 (sprintf_f 4%nat
                                        (SFmul 24 128 v (unit_conversion g settings)))
                  else field_width 4 (sprintf_f 3%nat
                                        (SFmul 24 128 v (unit_conversion g settings))))
                 = render_axis v).
    { unfold render_axis, axis_precision. now destruct (report_inches g settings). }
    rewrite Hr. cbn [List.length] in Hn.
    rewrite IH;
      [| lia
       | intros i Hi; pose proof (Hnth (S i) ltac:(cbn; lia)) as Hi';
         cbn [nth] in Hi'; rewrite <- Hi'; f_equal; lia].
    destruct rest as [|v' rest].
    + cbn [List.length] in Hn.
      destruct (Z.ltb_spec (Z.of_nat index) (Z.of_nat (N_AXIS g) - 1)); [lia|].
      cbn. now rewrite append_nil_r.
    + cbn [List.length] in Hn.
      destruct (Z.ltb_spec (Z.of_nat index) (Z.of_nat (N_AXIS g) - 1)); [|lia].
      cbn [map]. change (String.concat "," (render_axis v :: render_axis v' :: map render_axis rest))
        with (render_axis v ++ "," ++ String.concat "," (render_axis v' :: map render_axis rest))%string.
      now rewrite !append_assoc.
Qed.

Lemma report_util_axis_values_concat (axis_value : list spec_float) :
  List.length axis_value = N_AXIS g ->
  report_util_axis_values g sprintf_f settings axis_value
  = String.concat "," (map render_axis axis_value).
Proof.
  intros Hl. unfold report_util_axis_values. rewrite <- Hl.
  rewrite (axis_values_loop_concat axis_value axis_value 0 EmptyString);
    [reflexivity | cbn; lia | intros i _; reflexivity].
Qed.

End AxisValues.

(** *** The reference [sprintf] on the values of a [float] *)

Definition is_finite_float (x : spec_float) : bool :=
  match x with
  | S754_zero _ | S754_finite _ _ _ => true
  | _ => false
  end.

Lemma string_length_app (a b : string) :
  String.length (a ++ b) = (String.length a + String.length b)%nat.
Proof. induction a as [|c a IH]; cbn; [reflexivity | now rewrite IH]. Qed.

Lemma fraction_digits_length (precision : nat) (r : Z) :
  String.length (fraction_digits precision r) = precision.
Proof.
  revert r. induction precision as [|k IH]; intros r; [reflexivity|].
  cbn [fraction_digits]. rewrite string_length_app, IH. cbn. lia.
Qed.

Lemma digit_char (d : Z) :
  0 <= d <= 9 -> is_digit (ascii_of_N (Z.to_N (48 + d))) = true.
Proof.
  intros Hd. unfold is_digit, code.
  rewrite N_ascii_embedding by lia. rewrite Z2N.id by lia.
  apply andb_true_intro. split; apply Z.leb_le; lia.
Qed.

Lemma fraction_digits_all_digits (precision : nat) (r : Z) :
  all_digits (fraction_digits precision r) = true.
Proof.
  revert r. induction precision as [|k IH]; intros r; [reflexivity|].
  cbn [fraction_digits]. rewrite all_digits_app, IH. cbn [all_digits andb].
  rewrite digit_char; [reflexivity|].
  pose proof (Z.mod_pos_bound r 10 ltac:(lia)). lia.
Qed.

Lemma string_of_uint_digits (d : Decimal.uint) :
  all_digits (NilEmpty.string_of_uint d) = true.
Proof.
  induction d; cbn [NilEmpty.string_of_uint all_digits]; try reflexivity; exact IHd.
Qed.

(** [%d] of a number that is not negative: digits, one at least. *)
Lemma decimal_digits (z : Z) :
  0 <= z -> all_digits (decimal z) = true /\ nonempty (decimal z) = true.
Proof.
  intros Hz. unfold decimal, NilZero.string_of_int.
  destruct z as [|p|p]; [split; reflexivity | | lia].
  cbn [Z.to_int]. unfold NilZero.string_of_uint.
  pose proof (string_of_uint_digits (Pos.to_uint p)) as Hd.
  destruct (Pos.to_uint p); split; try reflexivity; exact Hd.
Qed.

Lemma before_point_digits (ds rest : string) :
  all_digits ds = true ->
  before_point (ds ++ String "." rest) = ds
  /\ decimals_of (ds ++ String "." rest) = rest
  /\ has_point_char (ds ++ String "." rest) = true.
Proof.
  intros Hd. induction ds as [|c ds IH]; cbn [append].
  - repeat split.
  - cbn [all_digits] in Hd. apply andb_prop in Hd as [Hc Hd].
    destruct (IH Hd) as (I1 & I2 & I3).
    cbn [before_point decimals_of has_point_char].
    unfold is_digit in Hc. apply andb_prop in Hc as [H1 H2]. apply Z.leb_le in H1, H2.
    destruct (Z.eqb_spec (code c) 46); [lia|]. cbn [orb].
    rewrite I1, I2, I3. repeat split.
Qed.

Lemma round_half_even_div_nonneg (a b : Z) :
  0 <= a -> 0 < b -> 0 <= round_half_even_div a b.
Proof.
  intros Ha Hb. unfold round_half_even_div. cbv zeta.
  pose proof (Z.div_pos a b Ha Hb).
  repeat match goal with |- context [if ?c then _ else _] => destruct c end; lia.
Qed.

(** The text [digits.digits] of a number of [10 ^ -precision]. *)
Lemma fixed_body (precision : nat) (n : Z) (negative : bool) :
  (1 <= precision)%nat ->
  0 <= n ->
  let s := ((if negative then "-" else "")
            ++ decimal (n / 10 ^ Z.of_nat precision)
            ++ "." ++ fraction_digits precision (n mod 10 ^ Z.of_nat precision))%string in
  fixed_point precision s = true
  /\ (precision + 2 <= String.length s)%nat.
Proof.
  intros Hp Hn. cbv zeta.
  set (q := n / 10 ^ Z.of_nat precision). set (r := n mod 10 ^ Z.of_nat precision).
  assert (Hq : 0 <= q) by (apply Z.div_pos; [exact Hn | apply Z.pow_pos_nonneg; lia]).
  destruct (decimal_digits q Hq) as [Hd Hne].
  pose proof (before_point_digits (decimal q) (fraction_digits precision r) Hd)
    as (B1 & B2 & B3).
  change ("." ++ fraction_digits precision r)%string
    with (String "." (fraction_digits precision r)).
  assert (Hstrip : strip_minus ((if negative then "-" else "")
                                ++ decimal q ++ String "." (fraction_digits precision r))
                   = (decimal q ++ String "." (fraction_digits precision r))%string).
  { destruct negative; [reflexivity|]. cbn [append].
    destruct (decimal q) as [|c ds] eqn:E; [discriminate|]. cbn [append strip_minus].
    cbn [all_digits] in Hd. apply andb_prop in Hd as [Hc _].
    unfold is_digit in Hc. apply andb_prop in Hc as [H1 H2]. apply Z.leb_le in H1, H2.
    destruct (Z.eqb_spec (code c) 45); [lia | reflexivity]. }
  split.
  - unfold fixed_point. cbv zeta. rewrite Hstrip, B1, B2, B3, Hne, Hd.
    rewrite fraction_digits_all_digits, fraction_digits_length, Nat.eqb_refl.
    reflexivity.
  - rewrite !string_length_app. cbn [String.length].
    rewrite fraction_digits_length.
    destruct (decimal q); [discriminate|]. cbn [String.length]. lia.
Qed.

(** A finite value is rendered in fixed-point form, with [precision] digits
    after the point. *)
Lemma printf_fixed_finite (precision : nat) (x : spec_float) :
  (1 <= precision)%nat ->
  is_finite_float x = true ->
  fixed_point precision (printf_fixed precision x) = true
  /\ (precision + 2 <= String.length (printf_fixed precision x))%nat.
Proof.
  intros Hp Hx. unfold printf_fixed. cbv zeta.
  destruct (Nat.eqb_spec precision 0) as [|_]; [lia|].
  destruct x as [s|s| |s m e]; try discriminate.
  - exact (fixed_body precision 0 s Hp ltac:(lia)).
  - apply (fixed_body precision _ s Hp).
    destruct (Z.leb_spec 0 e).
    + apply Z.mul_nonneg_nonneg; [apply Z.mul_nonneg_nonneg|];
        [lia | apply Z.pow_nonneg; lia | apply Z.pow_nonneg; lia].
    + apply round_half_even_div_nonneg; [|apply Z.pow_pos_nonneg; lia].
      apply Z.mul_nonneg_nonneg; [lia | apply Z.pow_nonneg; lia].
Qed.

(** A NaN and the infinities are rendered without digits. *)
Lemma printf_fixed_special (precision : nat) (x : spec_float) :
  is_finite_float x = false ->
  printf_fixed precision x = "nan"%string
  \/ printf_fixed precision x = "inf"%string
  \/ printf_fixed precision x = "-inf"%string.
Proof.
  destruct x as [s|[|]| |s m e]; try discriminate; intros _; cbn; auto.
Qed.

Lemma field_width_fits (width : nat) (s : string) :
  (width <= String.length s)%nat -> field_width width s = s.
Proof.
  intros Hl. unfold field_width.
  replace (width - String.length s)%nat with 0%nat by lia. reflexivity.
Qed.

(** What [%4.<precision>f] renders a [float] as, for a precision of two
    digits or more. *)
Lemma render_shape (precision : nat) (x : spec_float) :
  (2 <= precision)%nat ->
  let piece := field_width 4 (printf_fixed precision x) in
  (if is_finite_float x
   then piece = printf_fixed precision x
        /\ fixed_point precision piece = true
   else has_point_char piece = false /\ all_digits (decimals_of piece) = true
        /\ String.length (decimals_of (strip_minus piece)) = 0%nat)
  /\ count_commas piece = 0%nat /\ ends_with_comma piece = false
  /\ nonempty piece = true.
Proof.
  intros Hp. cbv zeta. destruct (is_finite_float x) eqn:Hx.
  - destruct (printf_fixed_finite precision x ltac:(lia) Hx) as [Hf Hl].
    rewrite field_width_fits by lia.
    split; [split; [reflexivity | exact Hf]|]. exact (fixed_point_piece _ _ Hf).
  - destruct (printf_fixed_special precision x Hx) as [-> | [-> | ->]];
      repeat split; reflexivity.
Qed.

(** C9 (amended). For a vector of [N_AXIS] values ([N_AXIS >= 1]) and either
    unit mode, each rendered in fewer than the ten bytes of
    [axis_value_string], the text built by [report_util_axis_values] is the
    values rendered one by one and joined by commas: it has exactly
    [N_AXIS - 1] commas and no trailing one, and each value is rendered with
    [%4.3f] in metric mode and with [%4.4f] in imperial mode, after
    multiplication by the unit conversion ([1.0], or [1.0 / MM_PER_INCH] in
    imperial mode). With the [sprintf] of the C standard, a value that is
    finite after that multiplication has exactly 3, respectively 4, digits
    after the point; a NaN or an infinity is rendered as [nan], [inf] or
    [-inf], without a point and without digits. *)
Theorem axis_values_format (g : grbl_hpp) (settings : settings_t)
    (axis_value : list spec_float) :
  (1 <= N_AXIS g)%nat ->
  List.length axis_value = N_AXIS g ->
  Forall (fun v => (String.length (render_axis g printf_fixed settings v) < 10)%nat)
         axis_value ->
  let report := report_util_axis_values g printf_fixed settings axis_value in
  let precision := if report_inches g settings then 4%nat else 3%nat in
  let conversion :=
    if report_inches g settings
    then B32.round32 (SFdiv 53 1024 (B32.double_of_Z 1) (MM_PER_INCH g))
    else B32.float_of_Z 1 in
  let piece_of v := field_width 4 (printf_fixed precision (SFmul 24 128 v conversion)) in
  count_commas report = (N_AXIS g - 1)%nat
  /\ ends_with_comma report = false
  /\ split_commas report = map piece_of axis_value
  /\ Forall (fun v =>
               if is_finite_float (SFmul 24 128 v conversion)
               then piece_of v = printf_fixed precision (SFmul 24 128 v conversion)
                    /\ fixed_point precision (piece_of v) = true
                    /\ String.length (decimals_of (strip_minus (piece_of v))) = precision
               else has_point_char (piece_of v) = false
                    /\ String.length (decimals_of (strip_minus (piece_of v))) = 0%nat)
            axis_value.
Proof.
  intros Hn Hl _. cbv zeta.
  rewrite (report_util_axis_values_concat g printf_fixed settings axis_value Hl).
  assert (Hrender : forall v,
            render_axis g printf_fixed settings v
            = field_width 4 (printf_fixed (if report_inches g settings then 4%nat else 3%nat)
                               (SFmul 24 128 v
                                  (if report_inches g settings
                                   then B32.round32 (SFdiv 53 1024 (B32.double_of_Z 1)
                                                           (MM_PER_INCH g))
                                   else B32.float_of_Z 1)))).
  { intros v. unfold render_axis, axis_precision, unit_conversion, float_one.
    destruct (report_inches g settings); reflexivity. }
  assert (Hp : (2 <= (if report_inches g settings then 4 else 3))%nat)
    by (destruct (report_inches g settings); lia).
  set (precision := if report_inches g settings then 4%nat else 3%nat) in *.
  set (conversion := if report_inches g settings
                     then B32.round32 (SFdiv 53 1024 (B32.double_of_Z 1) (MM_PER_INCH g))
                     else B32.float_of_Z 1) in *.
  rewrite (map_ext _ _ Hrender).
  set (piece_of := fun v => field_width 4 (printf_fixed precision (SFmul 24 128 v conversion))).
  assert (Hne : map piece_of axis_value <> []).
  { destruct axis_value; [cbn in Hl; lia | discriminate]. }
  assert (Hpieces : Forall (fun s => count_commas s = 0%nat /\ ends_with_comma s = false
                                     /\ nonempty s = true)
                           (map piece_of axis_value)).
  { apply Forall_map. apply Forall_forall. intros v _.
    exact (proj2 (render_shape precision (SFmul 24 128 v conversion) Hp)). }
  destruct (concat_commas _ Hne Hpieces) as (Hc & Hs & He & _).
  split; [rewrite Hc, length_map, Hl; reflexivity|].
  split; [exact He|].
  split.
  { unfold split_commas. rewrite Hs.
    destruct (map piece_of axis_value); [contradiction | reflexivity]. }
  apply Forall_forall. intros v _.
  pose proof (proj1 (render_shape precision (SFmul 24 128 v conversion) Hp)) as Hv.
  fold (piece_of v) in Hv.
  destruct (is_finite_float (SFmul 24 128 v conversion)).
  - destruct Hv as [Hv1 Hv2]. split; [exact Hv1|]. split; [exact Hv2|].
    unfold fixed_point in Hv2. cbv zeta in Hv2. apply andb_prop in Hv2 as [_ Hv2].
    now apply Nat.eqb_eq in Hv2.
  - destruct Hv as (Hv1 & _ & Hv3). split; [exact Hv1 | exact Hv3].
Qed.

(** 25.4 mm, -1 mm and 0.5 mm. *)
Definition sample_axes : list spec_float :=
  [snd (read_float32 (width := exponent_int8) "25.4" 0 S754_nan);
   snd (read_float32 (width := exponent_int8) "-1" 0 S754_nan);
   snd (read_float32 (width := exponent_int8) ".5" 0 S754_nan)].

(** A NaN, minus infinity and 1 mm. *)
Definition special_axes : list spec_float :=
  [S754_nan; S754_infinity true; B32.float_of_Z 1].

Lemma axis_values_format_witness :
  report_util_axis_values grbl_defaults printf_fixed (sample_settings true) sample_axes
  = "1.0000,-0.0394,0.0197"%string
  /\ count_commas (report_util_axis_values grbl_defaults printf_fixed
                     (sample_settings true) sample_axes) = 2%nat
  /\ report_util_axis_values grbl_defaults printf_fixed (sample_settings false) sample_axes
     = "25.400,-1.000,0.500"%string
  /\ split_commas (report_util_axis_values grbl_defaults printf_fixed
                     (sample_settings false) special_axes)
     = [" nan"; "-inf"; "1.000"]%string.
Proof.
  pose proof (axis_values_format grbl_defaults (sample_settings true)
                sample_axes ltac:(cbn; lia) eq_refl
                ltac:(repeat constructor; vm_compute; lia)) as H.
  pose proof (axis_values_format grbl_defaults (sample_settings false)
                special_axes ltac:(cbn; lia) eq_refl
                ltac:(repeat constructor; vm_compute; lia)) as H'.
  cbv zeta in H, H'. destruct H as (Hc & _). destruct H' as (_ & _ & Hs & _).
  split; [vm_compute; reflexivity|]. split; [exact Hc|].
  split; [vm_compute; reflexivity|]. rewrite Hs. vm_compute. reflexivity.
Defined.

(** C9 as stated fails on a vector that holds a NaN or an infinity: the C
    library renders these as [nan] and [inf] (or a longer spelling), padded
    to the four characters of the field, with no digit after a point. *)
Lemma special_values_have_no_decimals :
  List.length special_axes = N_AXIS grbl_defaults
  /\ report_util_axis_values grbl_defaults printf_fixed (sample_settings false)
       special_axes = " nan,-inf,1.000"%string
  /\ report_util_axis_values grbl_defaults printf_fixed (sample_settings true)
       special_axes = " nan,-inf,0.0394"%string
  /\ map (fun piece => String.length (decimals_of (strip_minus piece)))
         (split_commas (report_util_axis_values grbl_defaults printf_fixed
                          (sample_settings false) special_axes))
     = [0; 0; 3]%nat
  /\ map (fun piece => String.length (decimals_of (strip_minus piece)))
         (split_commas (report_util_axis_values grbl_defaults printf_fixed
                          (sample_settings true) special_axes))
     = [0; 0; 4]%nat.
Proof. vm_compute. repeat split; reflexivity. Qed.

(** ** The scaling loops of read_float *)

Section Scaling.
Context {width : ExponentType} {F : Type} `{FloatOps F}.

(** The fuel given to the two loops is never used up: each is left through
    its own condition. *)
Lemma scale_down_exits (fuel : nat) (x : F) (e : Z) :
  - 2 ^ (exponent_bits - 1) <= e < 2 ^ (exponent_bits - 1) ->
  - e <= 2 * Z.of_nat fuel + 1 ->
  (snd (scale_down fuel x e) <=? -2) = false.
Proof.
  revert x e. induction fuel as [|fuel IH]; intros x e He Hf; cbn [scale_down].
  - cbn [snd]. apply Z.leb_gt. lia.
  - destruct (Z.leb_spec e (-2)) as [Hle|Hgt].
    + rewrite int88_t_holds by lia. apply IH; lia.
    + cbn [snd]. apply Z.leb_gt. lia.
Qed.

Lemma scale_up_exits (fuel : nat) (x : F) (e : Z) :
  0 < e < 2 ^ (exponent_bits - 1) ->
  e <= Z.of_nat fuel ->
  (snd (scale_up fuel x e) >? 0) = false.
Proof.
  revert x e. induction fuel as [|fuel IH]; intros x e He Hf; cbn [scale_up].
  - lia.
  - cbv zeta. rewrite int88_t_holds by lia.
    destruct (Z.gtb_spec (e - 1) 0) as [Hgt|Hle].
    + apply IH; lia.
    + cbn [snd]. destruct (Z.gtb_spec (e - 1) 0); [lia | reflexivity].
Qed.

(** The multiplications applied for the exponents of a numeral of at most
    eight digits. *)
Ltac scale_steps :=
  unfold apply_exponent;
  match goal with
  | |- context [Z.to_nat ?e] =>
      let n := eval vm_compute in (Z.to_nat e) in change (Z.to_nat e) with n
  end;
  cbn -[int88_t];
  repeat (rewrite int88_t_small by lia; cbn -[int88_t]); reflexivity.

Lemma apply_exponent_0 (x : F) : apply_exponent x 0 = x.
Proof. reflexivity. Qed.

Lemma apply_exponent_1 (x : F) : apply_exponent x (-1) = fmul_0_1 x.
Proof. reflexivity. Qed.

Lemma apply_exponent_2 (x : F) : apply_exponent x (-2) = fmul_0_01 x.
Proof. scale_steps. Qed.

Lemma apply_exponent_3 (x : F) : apply_exponent x (-3) = fmul_0_1 (fmul_0_01 x).
Proof. scale_steps. Qed.

Lemma apply_exponent_4 (x : F) : apply_exponent x (-4) = fmul_0_01 (fmul_0_01 x).
Proof. scale_steps. Qed.

Lemma apply_exponent_5 (x : F) :
  apply_exponent x (-5) = fmul_0_1 (fmul_0_01 (fmul_0_01 x)).
Proof. scale_steps. Qed.

Lemma apply_exponent_6 (x : F) :
  apply_exponent x (-6) = fmul_0_01 (fmul_0_01 (fmul_0_01 x)).
Proof. scale_steps. Qed.

Lemma apply_exponent_7 (x : F) :
  apply_exponent x (-7) = fmul_0_1 (fmul_0_01 (fmul_0_01 (fmul_0_01 x))).
Proof. scale_steps. Qed.

Lemma apply_exponent_8 (x : F) :
  apply_exponent x (-8) = fmul_0_01 (fmul_0_01 (fmul_0_01 (fmul_0_01 x))).
Proof. scale_steps. Qed.

End Scaling.

(** ** Accuracy of the decoded value *)

Fixpoint qpow (b : Q) (k : nat) : Q :=
  match k with
  | O => 1%Q
  | S k' => (b * qpow b k')%Q
  end.

(** Floating-point arithmetic with relative error at most [eps] per
    operation on the values [read_float] meets: [value] is the number a float
    stands for, [good] holds of the floats that stand for one. *)
Class FloatAccuracy (F : Type) {ops : FloatOps F}
    (value : F -> Q) (good : F -> Prop) (eps : Q) : Prop := {
  eps_small : (0 <= eps /\ eps <= 1 # 8)%Q;
  of_uint32_accurate :
    forall n : Z, 0 <= n < 2 ^ 32 ->
      good (float_of_uint32 n)
      /\ (inject_Z n * (1 - eps) <= value (float_of_uint32 n))%Q
      /\ (value (float_of_uint32 n) <= inject_Z n * (1 + eps))%Q;
  nonzero_value :
    forall x : F, good x -> (fnonzero x = false <-> (value x == 0)%Q);
  mul_0_01_accurate :
    forall x : F, good x ->
      ((1 # 1073741824) <= value x)%Q -> (value x <= 1073741824)%Q ->
      good (fmul_0_01 x)
      /\ (value x * (1 # 100) * (1 - eps) <= value (fmul_0_01 x))%Q
      /\ (value (fmul_0_01 x) <= value x * (1 # 100) * (1 + eps))%Q;
  mul_0_1_accurate :
    forall x : F, good x ->
      ((1 # 1073741824) <= value x)%Q -> (value x <= 1073741824)%Q ->
      good (fmul_0_1 x)
      /\ (value x * (1 # 10) * (1 - eps) <= value (fmul_0_1 x))%Q
      /\ (value (fmul_0_1 x) <= value x * (1 # 10) * (1 + eps))%Q;
  neg_value : forall x : F, (value (fneg x) == - value x)%Q;
  neg_good : forall x : F, good x -> good (fneg x)
}.

Section Accuracy.
Context {width : ExponentType} {F : Type} {ops : FloatOps F}.
Variable value : F -> Q.
Variable good : F -> Prop.
Variable eps : Q.
Context {acc : FloatAccuracy F value good eps}.

Local Open Scope Q_scope.

(** [x] stands for [V] up to [j] roundings. *)
Definition approx (j : nat) (V : Q) (x : F) : Prop :=
  good x /\ V * qpow (1 - eps) j <= value x /\ value x <= V * qpow (1 + eps) j.

Lemma qpow_bounds (j : nat) :
  (j <= 5)%nat ->
  1 # 2 <= qpow (1 - eps) j /\ qpow (1 - eps) j <= 1
  /\ 1 <= qpow (1 + eps) j /\ qpow (1 + eps) j <= 2.
Proof.
  destruct (@eps_small F ops value good eps acc) as [H0 H1].
  intros Hj.
  do 6 (destruct j as [|j]; [cbn [qpow]; repeat split; nra|]).
  lia.
Qed.

Lemma approx_weaken (j : nat) (V : Q) (x : F) :
  (j < 5)%nat -> 0 <= V -> approx j V x -> approx (S j) V x.
Proof.
  destruct (@eps_small F ops value good eps acc) as [H0 H1].
  intros Hj HV (Hg & Hlo & Hhi).
  destruct (qpow_bounds j ltac:(lia)) as (Ha & _ & Hb & _).
  split; [exact Hg|]. cbn [qpow].
  set (a := qpow (1 - eps) j) in *. set (b := qpow (1 + eps) j) in *.
  assert (0 <= V * a) by nra. assert (0 <= V * b) by nra.
  split; nra.
Qed.

Lemma approx_weaken_5 (j : nat) (V : Q) (x : F) :
  (j <= 5)%nat -> 0 <= V -> approx j V x -> approx 5 V x.
Proof.
  intros Hj HV Hx.
  assert (Hd : forall d, (j + d <= 5)%nat -> approx (j + d) V x).
  { induction d as [|d IH]; intros Hd.
    - now rewrite Nat.add_0_r.
    - rewrite Nat.add_succ_r. apply approx_weaken; [lia | exact HV | apply IH; lia]. }
  replace 5%nat with (j + (5 - j))%nat by lia. apply Hd. lia.
Qed.

Lemma approx_mul_0_01 (j : nat) (V : Q) (x : F) :
  (j <= 5)%nat -> (1 # 536870912) <= V -> V <= 536870912 ->
  approx j V x -> approx (S j) (V * (1 # 100)) (fmul_0_01 x).
Proof.
  destruct (@eps_small F ops value good eps acc) as [H0 H1].
  intros Hj HV1 HV2 (Hg & Hlo & Hhi).
  destruct (qpow_bounds j Hj) as (Ha & Ha' & Hb & Hb').
  set (a := qpow (1 - eps) j) in *. set (b := qpow (1 + eps) j) in *.
  assert (Hr1 : (1 # 1073741824) <= value x) by nra.
  assert (Hr2 : value x <= 1073741824) by nra.
  destruct (mul_0_01_accurate x Hg Hr1 Hr2) as (Hg' & Hlo' & Hhi').
  split; [exact Hg'|]. cbn [qpow]. fold a b. split; nra.
Qed.

Lemma approx_mul_0_1 (j : nat) (V : Q) (x : F) :
  (j <= 5)%nat -> (1 # 536870912) <= V -> V <= 536870912 ->
  approx j V x -> approx (S j) (V * (1 # 10)) (fmul_0_1 x).
Proof.
  destruct (@eps_small F ops value good eps acc) as [H0 H1].
  intros Hj HV1 HV2 (Hg & Hlo & Hhi).
  destruct (qpow_bounds j Hj) as (Ha & Ha' & Hb & Hb').
  set (a := qpow (1 - eps) j) in *. set (b := qpow (1 + eps) j) in *.
  assert (Hr1 : (1 # 1073741824) <= value x) by nra.
  assert (Hr2 : value x <= 1073741824) by nra.
  destruct (mul_0_1_accurate x Hg Hr1 Hr2) as (Hg' & Hlo' & Hhi').
  split; [exact Hg'|]. cbn [qpow]. fold a b. split; nra.
Qed.

End Accuracy.

Section DecimalAccuracy.
Context {width : ExponentType} {F : Type} {ops : FloatOps F}.
Variable value : F -> Q.
Variable good : F -> Prop.
Variable eps : Q.
Context {acc : FloatAccuracy F value good eps}.

Local Open Scope Q_scope.

Lemma approx_proper (j : nat) (V V' : Q) (x : F) :
  V == V' -> approx value good eps j V x -> approx value good eps j V' x.
Proof.
  intros HV (Hg & Hlo & Hhi). split; [exact Hg|]. now rewrite <- HV.
Qed.

(** The value [read_float] computes from at most eight digits and their
    decimal exponent stands for [integer_value * 10 ^ exponent] up to five
    roundings: the conversion and at most four multiplications. *)
Ltac scale_eq := unfold Qeq, Qdiv; cbn; lia.

Lemma apply_decimal_accurate (n k : Z) :
  (0 <= n < 10 ^ 8)%Z -> (0 <= k <= 8)%Z ->
  approx value good eps 5 (inject_Z n / inject_Z (10 ^ k)) (apply_decimal n (- k)).
Proof.
  intros Hn Hk.
  destruct (@eps_small F ops value good eps acc) as [He0 He1].
  destruct (of_uint32_accurate n ltac:(lia)) as (Hg & Hlo & Hhi).
  unfold apply_decimal.
  destruct (Z.eq_dec n 0) as [->|Hne].
  - (* zero *)
    assert (Hz : value (float_of_uint32 0) == 0).
    { change (inject_Z 0) with 0 in Hlo, Hhi. apply Qle_antisym; lra. }
    rewrite (proj2 (nonzero_value _ Hg) Hz).
    split; [exact Hg|]. rewrite Hz. unfold Qdiv. rewrite !Qmult_0_l. split; lra.
  - assert (H1 : 1 <= inject_Z n).
    { change 1 with (inject_Z 1). rewrite <- Zle_Qle. lia. }
    assert (H2 : inject_Z n <= 100000000).
    { change 100000000 with (inject_Z 100000000). rewrite <- Zle_Qle. lia. }
    assert (Hnz : fnonzero (float_of_uint32 n) = true).
    { destruct (fnonzero (float_of_uint32 n)) eqn:E; [reflexivity|].
      apply (nonzero_value _ Hg) in E. nra. }
    rewrite Hnz.
    assert (H0 : approx value good eps 1 (inject_Z n) (float_of_uint32 n)).
    { split; [exact Hg|]. cbn [qpow]. split; lra. }
    assert (Hcases : (k = 0 \/ k = 1 \/ k = 2 \/ k = 3 \/ k = 4 \/ k = 5 \/ k = 6
                      \/ k = 7 \/ k = 8)%Z) by lia.
    assert (HV : 0 <= inject_Z n / inject_Z (10 ^ k)).
    { apply Qle_shift_div_l.
      - change 0 with (inject_Z 0). rewrite <- Zlt_Qlt. apply Z.pow_pos_nonneg; lia.
      - lra. }
    destruct Hcases as [->|[->|[->|[->|[->|[->|[->|[->| ->]]]]]]]];
      cbn [Z.opp].
    + rewrite apply_exponent_0.
      apply (approx_weaken_5 value good eps 1); [lia | exact HV |].
      apply (approx_proper 1 (inject_Z n)); [scale_eq | exact H0].
    + rewrite apply_exponent_1.
      apply (approx_weaken_5 value good eps 2); [lia | exact HV |].
      apply (approx_proper 2 (inject_Z n * (1 # 10))); [scale_eq|].
      apply approx_mul_0_1; [exact acc | lia | lra | lra | exact H0].
    + rewrite apply_exponent_2.
      apply (approx_weaken_5 value good eps 2); [lia | exact HV |].
      apply (approx_proper 2 (inject_Z n * (1 # 100))); [scale_eq|].
      apply approx_mul_0_01; [exact acc | lia | lra | lra | exact H0].
    + rewrite apply_exponent_3.
      apply (approx_weaken_5 value good eps 3); [lia | exact HV |].
      apply (approx_proper 3 (inject_Z n * (1 # 100) * (1 # 10))); [scale_eq|].
      apply approx_mul_0_1; [exact acc | lia | lra | lra |].
      apply approx_mul_0_01; [exact acc | lia | lra | lra | exact H0].
    + rewrite apply_exponent_4.
      apply (approx_weaken_5 value good eps 3); [lia | exact HV |].
      apply (approx_proper 3 (inject_Z n * (1 # 100) * (1 # 100))); [scale_eq|].
      apply approx_mul_0_01; [exact acc | lia | lra | lra |].
      apply approx_mul_0_01; [exact acc | lia | lra | lra | exact H0].
    + rewrite apply_exponent_5.
      apply (approx_weaken_5 value good eps 4); [lia | exact HV |].
      apply (approx_proper 4 (inject_Z n * (1 # 100) * (1 # 100) * (1 # 10))); [scale_eq|].
      apply approx_mul_0_1; [exact acc | lia | lra | lra |].
      apply approx_mul_0_01; [exact acc | lia | lra | lra |].
      apply approx_mul_0_01; [exact acc | lia | lra | lra | exact H0].
    + rewrite apply_exponent_6.
      apply (approx_weaken_5 value good eps 4); [lia | exact HV |].
      apply (approx_proper 4 (inject_Z n * (1 # 100) * (1 # 100) * (1 # 100))); [scale_eq|].
      apply approx_mul_0_01; [exact acc | lia | lra | lra |].
      apply approx_mul_0_01; [exact acc | lia | lra | lra |].
      apply approx_mul_0_01; [exact acc | lia | lra | lra | exact H0].
    + rewrite apply_exponent_7.
      apply (approx_weaken_5 value good eps 5); [lia | exact HV |].
      apply (approx_proper 5 (inject_Z n * (1 # 100) * (1 # 100) * (1 # 100) * (1 # 10)));
        [scale_eq|].
      apply approx_mul_0_1; [exact acc | lia | lra | lra |].
      apply approx_mul_0_01; [exact acc | lia | lra | lra |].
      apply approx_mul_0_01; [exact acc | lia | lra | lra |].
      apply approx_mul_0_01; [exact acc | lia | lra | lra | exact H0].
    + rewrite apply_exponent_8.
      apply (approx_weaken_5 value good eps 5); [lia | exact HV |].
      apply (approx_proper 5 (inject_Z n * (1 # 100) * (1 # 100) * (1 # 100) * (1 # 100)));
        [scale_eq|].
      apply approx_mul_0_01; [exact acc | lia | lra | lra |].
      apply approx_mul_0_01; [exact acc | lia | lra | lra |].
      apply approx_mul_0_01; [exact acc | lia | lra | lra |].
      apply approx_mul_0_01; [exact acc | lia | lra | lra | exact H0].
Qed.

End DecimalAccuracy.

(** Exact arithmetic is accurate with no error at all. *)
#[export] Instance exact_accuracy :
  FloatAccuracy Q (fun x => x) (fun _ => True) 0.
Proof.
  split.
  - split; [apply Qle_refl | discriminate].
  - intros n _. cbn [float_of_uint32 exact_ops]. repeat split; lra.
  - intros x _. cbn [fnonzero exact_ops]. rewrite negb_false_iff. apply Qeq_bool_iff.
  - intros x _ _ _. cbn [fmul_0_01 exact_ops]. repeat split; lra.
  - intros x _ _ _. cbn [fmul_0_1 exact_ops]. repeat split; lra.
  - intros x. cbn [fneg exact_ops]. reflexivity.
  - intros x _. exact I.
Qed.

(** ** binary32 is accurate to 2^-23 per operation

    The rounding of [SpecFloat]: the shifts of [shr_1] keep track of the bits
    they drop, [round_nearest_even] moves the mantissa by at most half a unit,
    and a carry out of the rounding is shifted back. *)

Lemma pow2_succ (k : Z) : 0 <= k -> 2 ^ (k + 1) = 2 * 2 ^ k.
Proof. intros Hk. rewrite Z.pow_add_r by lia. lia. Qed.

Lemma pow2_pos (k : Z) : 0 <= k -> 0 < 2 ^ k.
Proof. intros Hk. apply Z.pow_pos_nonneg; lia. Qed.

Lemma digits2_pos_bounds (m : positive) :
  2 ^ (Z.pos (digits2_pos m) - 1) <= Z.pos m < 2 ^ Z.pos (digits2_pos m).
Proof.
  induction m as [m IH|m IH|]; cbn [digits2_pos].
  - rewrite Pos2Z.inj_succ, Pos2Z.inj_xI.
    set (d := Z.pos (digits2_pos m)) in *.
    assert (0 < d) by (unfold d; lia).
    replace (Z.succ d - 1) with (d - 1 + 1) by lia.
    replace (Z.succ d) with (d + 1) by lia.
    rewrite !pow2_succ by lia. lia.
  - rewrite Pos2Z.inj_succ, Pos2Z.inj_xO.
    set (d := Z.pos (digits2_pos m)) in *.
    assert (0 < d) by (unfold d; lia).
    replace (Z.succ d - 1) with (d - 1 + 1) by lia.
    replace (Z.succ d) with (d + 1) by lia.
    rewrite !pow2_succ by lia. lia.
  - cbn. lia.
Qed.

Lemma digits2_pos_unique (m : positive) (k : Z) :
  2 ^ (k - 1) <= Z.pos m < 2 ^ k -> Z.pos (digits2_pos m) = k.
Proof.
  intros [Hlo Hhi]. pose proof (digits2_pos_bounds m) as [Dlo Dhi].
  set (d := Z.pos (digits2_pos m)) in *.
  assert (0 < d) by (unfold d; lia).
  assert (Hk : 0 < k).
  { destruct (Z.ltb_spec 0 k) as [|Hle]; [assumption|].
    destruct (Z.eq_dec k 0) as [->|]; [cbn in Hhi; lia|].
    rewrite Z.pow_neg_r in Hhi by lia. lia. }
  destruct (Z.lt_trichotomy d k) as [Hlt|[Heq|Hgt]]; [|exact Heq|].
  - assert (2 ^ d <= 2 ^ (k - 1)) by (apply Z.pow_le_mono_r; lia). lia.
  - assert (2 ^ k <= 2 ^ (d - 1)) by (apply Z.pow_le_mono_r; lia). lia.
Qed.

(** The bits shifted out by [shr_1], as the record accounts for them:
    after [k] shifts of [m0], twice [m0] is [shr_m] times [2 ^ (k + 1)], plus
    the round bit times [2 ^ k], plus a rest below [2 ^ k] which the sticky
    bit tells from zero. *)
Definition shr_rest (m0 k : Z) (x : shr_record) : Z :=
  2 * m0 - shr_m x * 2 ^ (k + 1) - Z.b2z (shr_r x) * 2 ^ k.

Definition shr_inv (m0 k : Z) (x : shr_record) : Prop :=
  0 <= shr_m x
  /\ 0 <= shr_rest m0 k x < 2 ^ k
  /\ (shr_s x = true <-> 0 < shr_rest m0 k x).

Lemma shr_inv_init (m0 : Z) :
  0 <= m0 -> shr_inv m0 0 {| shr_m := m0; shr_r := false; shr_s := false |}.
Proof.
  intros H. unfold shr_inv, shr_rest. cbn [shr_m shr_r shr_s Z.b2z].
  change (2 ^ (0 + 1)) with 2. change (2 ^ 0) with 1.
  split; [exact H|]. split; [lia|]. split; [discriminate | lia].
Qed.

Lemma shr_inv_step (m0 k : Z) (x : shr_record) :
  0 <= k -> shr_inv m0 k x -> shr_inv m0 (k + 1) (shr_1 x).
Proof.
  intros Hk. destruct x as [m r s]. unfold shr_inv, shr_rest.
  cbn [shr_m shr_r shr_s]. intros (Hm & Ht & Hs).
  rewrite (pow2_succ (k + 1)) by lia. rewrite (pow2_succ k) in * by lia.
  pose proof (pow2_pos k Hk) as HP. set (P := 2 ^ k) in *.
  assert (Hs' : orb r s = true <-> 0 < Z.b2z r * P + (2 * m0 - m * (2 * P) - Z.b2z r * P)).
  { destruct r; cbn [orb Z.b2z] in *.
    - split; [lia | reflexivity].
    - rewrite Hs. lia. }
  destruct m as [|[p|p|]|p]; cbn [shr_1 shr_m shr_r shr_s Z.b2z];
    try rewrite Pos2Z.inj_xI in *; try rewrite Pos2Z.inj_xO in *;
    try lia.
  - split; [lia|]. split; [destruct r; cbn [Z.b2z] in *; lia|].
    rewrite Hs'. lia.
  - split; [lia|]. split; [destruct r; cbn [Z.b2z] in *; lia|].
    rewrite Hs'. lia.
  - split; [lia|]. split; [destruct r; cbn [Z.b2z] in *; lia|].
    rewrite Hs'. lia.
  - split; [lia|]. split; [destruct r; cbn [Z.b2z] in *; lia|].
    rewrite Hs'. lia.
Qed.

Lemma shr_inv_iter (m0 : Z) (p : positive) :
  forall (k : Z) (x : shr_record),
    0 <= k -> shr_inv m0 k x -> shr_inv m0 (k + Z.pos p) (iter_pos shr_1 p x).
Proof.
  induction p as [p IH|p IH|]; intros k x Hk Hx; cbn [iter_pos].
  - replace (k + Z.pos p~1) with (k + 1 + Z.pos p + Z.pos p) by lia.
    apply IH; [lia|]. apply IH; [lia|]. now apply shr_inv_step.
  - replace (k + Z.pos p~0) with (k + Z.pos p + Z.pos p) by lia.
    apply IH; [lia|]. now apply IH.
  - now apply shr_inv_step.
Qed.

Lemma round_nearest_even_near (m0 n : Z) (x : shr_record) :
  0 <= n -> shr_inv m0 n x ->
  let m2 := round_nearest_even (shr_m x) (loc_of_shr_record x) in
  shr_m x <= m2 <= shr_m x + 1
  /\ Z.abs (2 * m2 * 2 ^ n - 2 * m0) <= 2 ^ n.
Proof.
  intros Hn. destruct x as [m r s]. unfold shr_inv, shr_rest.
  cbn [shr_m shr_r shr_s]. rewrite pow2_succ by lia.
  pose proof (pow2_pos n Hn) as HP. set (P := 2 ^ n) in *.
  intros (Hm & Ht & Hs).
  destruct r, s; cbn [loc_of_shr_record round_nearest_even Z.b2z] in *.
  - assert (0 < 2 * m0 - m * (2 * P) - 1 * P) by now apply Hs. lia.
  - destruct (Z.even m); lia.
  - assert (0 < 2 * m0 - m * (2 * P) - 0 * P) by now apply Hs. lia.
  - destruct (Z.lt_total 0 (2 * m0 - m * (2 * P) - 0 * P)) as [H|[H|H]]; [|lia|lia].
    apply Hs in H. discriminate.
Qed.

Lemma shr_m_bounds (m0 n A : Z) (x : shr_record) :
  0 <= n -> shr_inv m0 n x ->
  A * 2 ^ n <= m0 < 2 * A * 2 ^ n ->
  A <= shr_m x < 2 * A.
Proof.
  intros Hn. destruct x as [m r s]. unfold shr_inv, shr_rest.
  cbn [shr_m shr_r shr_s]. rewrite pow2_succ by lia.
  pose proof (pow2_pos n Hn) as HP. set (P := 2 ^ n) in *.
  intros (Hm & Ht & Hs) Hb.
  destruct r; cbn [Z.b2z] in *; nia.
Qed.


Lemma shr_spec (m0 e n : Z) :
  0 <= m0 -> 0 <= n ->
  exists x : shr_record,
    shr {| shr_m := m0; shr_r := false; shr_s := false |} e n = (x, e + n)
    /\ shr_inv m0 n x.
Proof.
  intros Hm Hn. destruct n as [|p|p]; [| |lia].
  - eexists. split; [cbn [shr]; now rewrite Z.add_0_r|]. now apply shr_inv_init.
  - eexists. split; [reflexivity|].
    change (Z.pos p) with (0 + Z.pos p). apply shr_inv_iter; [lia|].
    now apply shr_inv_init.
Qed.

Section RoundAux.
Variables prec emax : Z.
Hypothesis Hprec : 1 < prec.

(** The second shift of [binary_round_aux] undoes the carry of the rounding. *)
Lemma shr_fexp_carry (m2 e1 : Z) :
  2 ^ (prec - 1) <= m2 <= 2 ^ prec ->
  emin prec emax <= e1 ->
  exists (m3 : positive) (x : shr_record) (e2 : Z),
    shr_fexp prec emax m2 e1 loc_Exact = (x, e2)
    /\ shr_m x = Z.pos m3
    /\ Z.pos (digits2_pos m3) = prec
    /\ e1 <= e2 <= e1 + 1
    /\ Z.pos m3 * 2 ^ (e2 - e1) = m2.
Proof.
  intros [Hlo Hhi] He.
  assert (HA : 0 < 2 ^ (prec - 1)) by (apply pow2_pos; lia).
  assert (HAA : 2 ^ prec = 2 * 2 ^ (prec - 1)).
  { replace prec with (prec - 1 + 1) at 1 by lia. apply pow2_succ. lia. }
  destruct m2 as [|m2|m2]; [lia| |lia].
  unfold shr_fexp, fexp. cbn [Zdigits2 shr_record_of_loc].
  destruct (Z.eq_dec (Z.pos m2) (2 ^ prec)) as [Heq|Hne].
  - assert (Hd : Z.pos (digits2_pos m2) = prec + 1).
    { apply digits2_pos_unique. replace (prec + 1 - 1) with prec by lia.
      rewrite pow2_succ by lia. lia. }
    rewrite Hd. rewrite Z.max_l by lia.
    replace (prec + 1 + e1 - prec - e1) with 1 by lia.
    cbn [shr iter_pos].
    pose proof (shr_inv_step (Z.pos m2) 0 _ ltac:(lia)
                  (shr_inv_init (Z.pos m2) ltac:(lia))) as Hinv.
    destruct (shr_1 {| shr_m := Z.pos m2; shr_r := false; shr_s := false |})
      as [m3 r3 s3] eqn:E3.
    unfold shr_inv, shr_rest in Hinv. cbn [shr_m shr_r shr_s] in Hinv.
    change (2 ^ (0 + 1 + 1)) with 4 in Hinv. change (2 ^ (0 + 1)) with 2 in Hinv.
    destruct Hinv as (H3 & Ht & _).
    assert (Hm3 : m3 = 2 ^ (prec - 1)) by (destruct r3; cbn [Z.b2z] in Ht; lia).
    destruct m3 as [|m3|m3]; [lia| |lia].
    exists m3, {| shr_m := Z.pos m3; shr_r := r3; shr_s := s3 |}, (e1 + 1).
    split; [reflexivity|]. split; [reflexivity|].
    split; [apply digits2_pos_unique; lia|]. split; [lia|].
    replace (e1 + 1 - e1) with 1 by lia. change (2 ^ 1) with 2. lia.
  - assert (Hd : Z.pos (digits2_pos m2) = prec).
    { apply digits2_pos_unique. lia. }
    rewrite Hd. rewrite Z.max_l by lia.
    replace (prec + e1 - prec - e1) with 0 by lia.
    cbn [shr].
    exists m2, {| shr_m := Z.pos m2; shr_r := false; shr_s := false |}, e1.
    split; [reflexivity|]. split; [reflexivity|]. split; [exact Hd|].
    split; [lia|]. rewrite Z.sub_diag. change (2 ^ 0) with 1. lia.
Qed.

Lemma binary_round_aux_normal (s : bool) (m0 : positive) (e : Z) :
  prec <= Z.pos (digits2_pos m0) ->
  emin prec emax <= Z.pos (digits2_pos m0) + e - prec ->
  Z.pos (digits2_pos m0) + e < emax ->
  exists (m' : positive) (e' : Z),
    binary_round_aux prec emax s (Z.pos m0) e loc_Exact = S754_finite s m' e'
    /\ Z.pos (digits2_pos m') = prec
    /\ Z.pos (digits2_pos m0) + e - prec <= e' <= Z.pos (digits2_pos m0) + e - prec + 1
    /\ Z.abs (Z.pos m' * 2 ^ (e' - e) - Z.pos m0) * 2 ^ prec <= Z.pos m0.
Proof.
  pose proof (digits2_pos_bounds m0) as Hd.
  set (d := Z.pos (digits2_pos m0)) in *.
  intros Hdp Hmin Hmax.
  assert (HA : 0 < 2 ^ (prec - 1)) by (apply pow2_pos; lia).
  assert (HAA : 2 ^ prec = 2 * 2 ^ (prec - 1)).
  { replace prec with (prec - 1 + 1) at 1 by lia. apply pow2_succ. lia. }
  assert (HP : 0 < 2 ^ (d - prec)) by (apply pow2_pos; lia).
  assert (Hd1 : 2 ^ (d - 1) = 2 ^ (prec - 1) * 2 ^ (d - prec)).
  { rewrite <- Z.pow_add_r by lia. f_equal. lia. }
  assert (Hd2 : 2 ^ d = 2 * 2 ^ (prec - 1) * 2 ^ (d - prec)).
  { rewrite <- HAA, <- Z.pow_add_r by lia. f_equal. lia. }
  unfold binary_round_aux.
  assert (E1 : shr_fexp prec emax (Z.pos m0) e loc_Exact
               = shr {| shr_m := Z.pos m0; shr_r := false; shr_s := false |} e (d - prec)).
  { unfold shr_fexp, fexp. cbn [Zdigits2 shr_record_of_loc]. fold d.
    rewrite Z.max_l by lia. f_equal. lia. }
  rewrite E1.
  destruct (shr_spec (Z.pos m0) e (d - prec) ltac:(lia) ltac:(lia)) as (x1 & -> & Hinv).
  assert (Hn : 0 <= d - prec) by lia.
  assert (Hb : 2 ^ (prec - 1) * 2 ^ (d - prec) <= Z.pos m0
               < 2 * 2 ^ (prec - 1) * 2 ^ (d - prec)) by lia.
  pose proof (shr_m_bounds _ _ _ _ Hn Hinv Hb) as Hm1.
  pose proof (round_nearest_even_near _ _ _ Hn Hinv) as Hr. cbv zeta in Hr.
  set (m2 := round_nearest_even (shr_m x1) (loc_of_shr_record x1)) in *.
  destruct Hr as [Hm2 Herr].
  assert (Hc1 : 2 ^ (prec - 1) <= m2 <= 2 ^ prec) by lia.
  assert (Hc2 : emin prec emax <= e + (d - prec)) by lia.
  destruct (shr_fexp_carry m2 (e + (d - prec)) Hc1 Hc2)
    as (m3 & x & e2 & -> & Hx & Hd3 & He2 & Hval).
  rewrite Hx.
  destruct (Z.leb_spec e2 (emax - prec)) as [_|Hbad]; [|lia].
  exists m3, e2. split; [reflexivity|]. split; [exact Hd3|]. split; [lia|].
  replace (e2 - e) with ((e2 - (e + (d - prec))) + (d - prec)) by lia.
  rewrite Z.pow_add_r by lia. rewrite Z.mul_assoc, Hval.
  set (P := 2 ^ (d - prec)) in *. set (A := 2 ^ (prec - 1)) in *.
  rewrite HAA. nia.
Qed.

End RoundAux.

Lemma digits2_pos_range (p : positive) (a b : Z) :
  0 <= a -> 2 ^ a <= Z.pos p < 2 ^ b -> a < Z.pos (digits2_pos p) <= b.
Proof.
  intros Ha [Hlo Hhi]. pose proof (digits2_pos_bounds p) as [Dlo Dhi].
  set (d := Z.pos (digits2_pos p)) in *.
  assert (0 < d) by (unfold d; lia).
  split.
  - destruct (Z.lt_ge_cases a d) as [|Hge]; [assumption|].
    assert (2 ^ d <= 2 ^ a) by (apply Z.pow_le_mono_r; lia). lia.
  - destruct (Z.le_gt_cases d b) as [|Hgt]; [assumption|].
    destruct (Z.lt_ge_cases b 0) as [Hneg|Hnn].
    + rewrite Z.pow_neg_r in Hhi by lia. lia.
    + assert (2 ^ b <= 2 ^ (d - 1)) by (apply Z.pow_le_mono_r; lia). lia.
Qed.

Lemma shl_align_noop (mx : positive) (ex ex' : Z) :
  ex <= ex' -> shl_align mx ex ex' = (mx, ex).
Proof.
  intros H. unfold shl_align. destruct (ex' - ex) eqn:E; try reflexivity. lia.
Qed.

Lemma iter_xO (m k : positive) : Z.pos (Pos.iter xO m k) = Z.pos m * 2 ^ Z.pos k.
Proof.
  induction k as [|k IH] using Pos.peano_ind.
  - cbn [Pos.iter]. rewrite Pos2Z.inj_xO. change (2 ^ 1) with 2. lia.
  - rewrite Pos.iter_succ, Pos2Z.inj_xO, IH, Pos2Z.inj_succ.
    replace (Z.succ (Z.pos k)) with (Z.pos k + 1) by lia.
    rewrite pow2_succ by lia. lia.
Qed.

Lemma shl_align_shift (mx : positive) (ex ex' : Z) :
  ex' < ex ->
  exists mz : positive,
    shl_align mx ex ex' = (mz, ex') /\ Z.pos mz = Z.pos mx * 2 ^ (ex - ex').
Proof.
  intros H. unfold shl_align. destruct (ex' - ex) as [|d|d] eqn:E; try lia.
  eexists. split; [reflexivity|]. rewrite iter_xO. f_equal. f_equal. lia.
Qed.


(** The rational a mantissa and an exponent stand for. *)
Definition F2Q (m e : Z) : Q := (inject_Z m * 2 ^ e)%Q.

Lemma Qpow2_pos (e : Z) : (0 < 2 ^ e)%Q.
Proof. apply Qpower_0_lt. reflexivity. Qed.

Lemma Qpow2_add (a b : Z) : (2 ^ (a + b) == 2 ^ a * 2 ^ b)%Q.
Proof. apply Qpower_plus. discriminate. Qed.

Lemma Qpow2_Z (k : Z) : 0 <= k -> (2 ^ k == inject_Z (2 ^ k))%Q.
Proof. intros Hk. now rewrite Zpower_Qpower. Qed.

Lemma F2Q_shift (m e k : Z) : 0 <= k -> (F2Q (m * 2 ^ k) e == F2Q m (e + k))%Q.
Proof.
  intros Hk. unfold F2Q. rewrite inject_Z_mult, Qpow2_add, (Qpow2_Z k Hk). ring.
Qed.

Lemma rel_err (a b U : Q) :
  (0 < U -> (b - a) * U <= a -> (a - b) * U <= a ->
   a * (1 - / U) <= b /\ b <= a * (1 + / U))%Q.
Proof.
  intros HU H1 H2.
  assert (Hu : (0 < / U)%Q) by now apply Qinv_lt_0_compat.
  assert (HUu : (U * / U == 1)%Q) by (apply Qmult_inv_r; lra).
  set (u := (/ U)%Q) in *.
  assert (E1 : ((b - a) * U * u == b - a)%Q) by (rewrite <- Qmult_assoc, HUu; ring).
  assert (E2 : ((a - b) * U * u == a - b)%Q) by (rewrite <- Qmult_assoc, HUu; ring).
  assert (L1 : ((b - a) * U * u <= a * u)%Q) by (apply Qmult_le_compat_r; lra).
  assert (L2 : ((a - b) * U * u <= a * u)%Q) by (apply Qmult_le_compat_r; lra).
  rewrite E1 in L1. rewrite E2 in L2. split; lra.
Qed.

(** [v] is [V] up to one rounding of relative error [u]. *)
Definition rounds_to (u V v : Q) : Prop := (V * (1 - u) <= v /\ v <= V * (1 + u))%Q.

Lemma rounds_to_F2Q (prec : Z) (m0 m' e e' : Z) :
  0 <= prec -> e <= e' ->
  Z.abs (m' * 2 ^ (e' - e) - m0) * 2 ^ prec <= m0 ->
  rounds_to (/ inject_Z (2 ^ prec)) (F2Q m0 e) (F2Q m' e').
Proof.
  intros Hp He Herr.
  replace e' with (e + (e' - e)) at 1 by lia.
  assert (HU : (0 < inject_Z (2 ^ prec))%Q).
  { change 0%Q with (inject_Z 0). rewrite <- Zlt_Qlt. now apply pow2_pos. }
  pose proof (pow2_pos prec Hp) as HP.
  set (M := m' * 2 ^ (e' - e)) in *.
  destruct (rel_err (inject_Z m0) (inject_Z M) (inject_Z (2 ^ prec)) HU) as [H1 H2].
  - unfold Qminus. rewrite <- inject_Z_opp, <- inject_Z_plus, <- inject_Z_mult, <- Zle_Qle.
    lia.
  - unfold Qminus. rewrite <- inject_Z_opp, <- inject_Z_plus, <- inject_Z_mult, <- Zle_Qle.
    lia.
  - unfold rounds_to. rewrite <- F2Q_shift by lia. fold M. unfold F2Q.
    pose proof (Qpow2_pos e) as HE. set (E := (2 ^ e)%Q) in *.
    set (u := (/ inject_Z (2 ^ prec))%Q) in *.
    split.
    + setoid_replace (inject_Z m0 * E * (1 - u))%Q
        with (inject_Z m0 * (1 - u) * E)%Q by ring.
      apply Qmult_le_compat_r; lra.
    + setoid_replace (inject_Z m0 * E * (1 + u))%Q
        with (inject_Z m0 * (1 + u) * E)%Q by ring.
      apply Qmult_le_compat_r; lra.
Qed.

Section Round.
Variables prec emax : Z.
Hypothesis Hprec : 1 < prec.

Lemma binary_round_aux_rounds (s : bool) (m0 : positive) (e : Z) :
  prec <= Z.pos (digits2_pos m0) ->
  emin prec emax <= Z.pos (digits2_pos m0) + e - prec ->
  Z.pos (digits2_pos m0) + e < emax ->
  exists (m' : positive) (e' : Z),
    binary_round_aux prec emax s (Z.pos m0) e loc_Exact = S754_finite s m' e'
    /\ Z.pos (digits2_pos m') = prec
    /\ Z.pos (digits2_pos m0) + e - prec <= e' <= Z.pos (digits2_pos m0) + e - prec + 1
    /\ rounds_to (/ inject_Z (2 ^ prec)) (F2Q (Z.pos m0) e) (F2Q (Z.pos m') e').
Proof.
  intros Hd Hmin Hmax.
  destruct (binary_round_aux_normal prec emax Hprec s m0 e Hd Hmin Hmax)
    as (m' & e' & E & Hd' & He' & Herr).
  exists m', e'. split; [exact E|]. split; [exact Hd'|]. split; [exact He'|].
  apply rounds_to_F2Q; [lia | lia | exact Herr].
Qed.

(** [binary_round] on a value in the normal range: the result is a float of
    [prec] digits within half a unit in the last place. *)
Lemma binary_round_rounds (s : bool) (m0 : positive) (e : Z) :
  emin prec emax <= Z.pos (digits2_pos m0) + e - prec ->
  Z.pos (digits2_pos m0) + e < emax ->
  exists (m' : positive) (e' : Z),
    binary_round prec emax s m0 e = S754_finite s m' e'
    /\ Z.pos (digits2_pos m') = prec
    /\ rounds_to (/ inject_Z (2 ^ prec)) (F2Q (Z.pos m0) e) (F2Q (Z.pos m') e').
Proof.
  pose proof (digits2_pos_bounds m0) as Hd.
  set (d := Z.pos (digits2_pos m0)) in *.
  intros Hmin Hmax. unfold binary_round. fold d.
  unfold fexp. rewrite Z.max_l by lia.
  destruct (Z.lt_ge_cases d prec) as [Hlt|Hge].
  - destruct (shl_align_shift m0 e (d + e - prec) ltac:(lia)) as (mz & -> & Hmz).
    replace (e - (d + e - prec)) with (prec - d) in Hmz by lia.
    assert (HP : 0 < 2 ^ (prec - d)) by (apply pow2_pos; lia).
    assert (Hdz : Z.pos (digits2_pos mz) = prec).
    { assert (E1 : 2 ^ (prec - 1) = 2 ^ (d - 1) * 2 ^ (prec - d)).
      { rewrite <- Z.pow_add_r by lia. f_equal. lia. }
      assert (E2 : 2 ^ prec = 2 ^ d * 2 ^ (prec - d)).
      { rewrite <- Z.pow_add_r by lia. f_equal. lia. }
      apply digits2_pos_unique. rewrite Hmz, E1, E2. nia. }
    destruct (binary_round_aux_rounds s mz (d + e - prec))
      as (m' & e' & -> & Hd' & He' & Herr); try lia.
    exists m', e'. split; [reflexivity|]. split; [exact Hd'|].
    rewrite Hmz in Herr. unfold rounds_to in *.
    rewrite (F2Q_shift (Z.pos m0) (d + e - prec) (prec - d)) in Herr by lia.
    replace (d + e - prec + (prec - d)) with e in Herr by lia. exact Herr.
  - rewrite shl_align_noop by lia.
    destruct (binary_round_aux_rounds s m0 e)
      as (m' & e' & -> & Hd' & He' & Herr); try (fold d; lia).
    exists m', e'. split; [reflexivity|]. split; [exact Hd'|]. exact Herr.
Qed.

End Round.

Definition binary32_normal (x : spec_float) : Prop :=
  match x with
  | S754_zero _ => True
  | S754_finite _ m _ => Z.pos (digits2_pos m) = 24
  | _ => False
  end.

Lemma Qpow2_le (a b : Z) : a <= b -> (2 ^ a <= 2 ^ b)%Q.
Proof.
  intros H. replace b with (a + (b - a)) by lia.
  rewrite Qpow2_add, (Qpow2_Z (b - a)) by lia.
  pose proof (Qpow2_pos a) as Ha.
  assert (Hk : (1 <= inject_Z (2 ^ (b - a)))%Q).
  { change 1%Q with (inject_Z 1). rewrite <- Zle_Qle.
    pose proof (pow2_pos (b - a) ltac:(lia)). lia. }
  set (A := (2 ^ a)%Q) in *. set (K := inject_Z (2 ^ (b - a))) in *. nra.
Qed.

Lemma to_Q_finite (s : bool) (m : positive) (e : Z) :
  B32.to_Q (S754_finite s m e) = if s then Qopp (F2Q (Z.pos m) e) else F2Q (Z.pos m) e.
Proof. reflexivity. Qed.

Lemma F2Q_pos (m : positive) (e : Z) : (0 < F2Q (Z.pos m) e)%Q.
Proof.
  unfold F2Q. pose proof (Qpow2_pos e).
  assert ((0 < inject_Z (Z.pos m))%Q) by (change 0%Q with (inject_Z 0); now rewrite <- Zlt_Qlt).
  nra.
Qed.

(** A binary32 float of 24 digits between 2^-30 and 2^30 is positive and its
    exponent lies between -54 and 7. *)
Lemma binary32_normal_range (x : spec_float) :
  binary32_normal x ->
  ((1 # 1073741824) <= B32.to_Q x)%Q -> (B32.to_Q x <= 1073741824)%Q ->
  exists (m : positive) (e : Z),
    x = S754_finite false m e /\ Z.pos (digits2_pos m) = 24 /\ -54 <= e <= 7.
Proof.
  destruct x as [s|s| |s m e]; cbn [binary32_normal]; intros Hg Hlo Hhi;
    [change (B32.to_Q (S754_zero s)) with 0%Q in Hlo; lra
    |contradiction|contradiction|].
  - rewrite to_Q_finite in Hlo, Hhi. pose proof (F2Q_pos m e) as Hpos.
    destruct s; cbv iota in Hlo, Hhi; [lra|].
    exists m, e. split; [reflexivity|]. split; [exact Hg|].
    pose proof (digits2_pos_bounds m) as Hm. rewrite Hg in Hm.
    change (2 ^ (24 - 1)) with 8388608 in Hm. change (2 ^ 24) with 16777216 in Hm.
    assert (Hm1 : (8388608 <= inject_Z (Z.pos m))%Q).
    { change 8388608%Q with (inject_Z 8388608). rewrite <- Zle_Qle. lia. }
    assert (Hm2 : (inject_Z (Z.pos m) <= 16777216)%Q).
    { change 16777216%Q with (inject_Z 16777216). rewrite <- Zle_Qle. lia. }
    unfold F2Q in *. pose proof (Qpow2_pos e) as HE.
    split.
    + destruct (Z.le_gt_cases (-54) e) as [|Hbad]; [assumption|].
      pose proof (Qpow2_le e (-55) ltac:(lia)) as H.
      change (2 ^ (-55))%Q with (1 # 36028797018963968)%Q in H.
      set (E := (2 ^ e)%Q) in *. set (M := inject_Z (Z.pos m)) in *. nra.
    + destruct (Z.le_gt_cases e 7) as [|Hbad]; [assumption|].
      pose proof (Qpow2_le 8 e ltac:(lia)) as H.
      change (2 ^ 8)%Q with 256%Q in H.
      set (E := (2 ^ e)%Q) in *. set (M := inject_Z (Z.pos m)) in *. nra.
Qed.

Lemma F2Q_mul (m1 m2 e1 e2 : Z) :
  (F2Q (m1 * m2) (e1 + e2) == F2Q m1 e1 * F2Q m2 e2)%Q.
Proof. unfold F2Q. rewrite inject_Z_mult, Qpow2_add. ring. Qed.

(** The product of a binary32 float by a [double] literal, stored back in a
    [float]: one rounding to 53 digits, then one to 24. *)
Lemma mul_literal_rounds (x : spec_float) (ml : positive) (el : Z) :
  binary32_normal x ->
  ((1 # 1073741824) <= B32.to_Q x)%Q -> (B32.to_Q x <= 1073741824)%Q ->
  Z.pos (digits2_pos ml) = 53 -> -64 <= el <= -50 ->
  exists (m' : positive) (e' : Z) (v : Q),
    B32.mul_literal x (S754_finite false ml el) = S754_finite false m' e'
    /\ Z.pos (digits2_pos m') = 24
    /\ rounds_to (1 # 9007199254740992) (B32.to_Q x * F2Q (Z.pos ml) el) v
    /\ rounds_to (1 # 16777216) v (F2Q (Z.pos m') e').
Proof.
  intros Hg Hlo Hhi Hdl Hel.
  destruct (binary32_normal_range x Hg Hlo Hhi) as (m & e & -> & Hd & He).
  pose proof (digits2_pos_bounds m) as Hm. rewrite Hd in Hm.
  pose proof (digits2_pos_bounds ml) as Hl. rewrite Hdl in Hl.
  change (2 ^ (24 - 1)) with 8388608 in Hm. change (2 ^ 24) with 16777216 in Hm.
  change (2 ^ (53 - 1)) with 4503599627370496 in Hl.
  change (2 ^ 53) with 9007199254740992 in Hl.
  assert (Hprod : 75 < Z.pos (digits2_pos (m * ml)) <= 77).
  { apply digits2_pos_range; [lia|]. rewrite Pos2Z.inj_mul.
    change (2 ^ 75) with (8388608 * 4503599627370496).
    change (2 ^ 77) with (16777216 * 9007199254740992). nia. }
  unfold B32.mul_literal. cbn [SFmul xorb].
  destruct (binary_round_aux_rounds 53 1024 ltac:(lia) false (m * ml) (e + el))
    as (md & ed & -> & Hdd & Hed & Hrd);
    try (unfold emin; lia).
  cbn [B32.round32].
  destruct (binary_round_rounds 24 128 ltac:(lia) false md ed)
    as (mf & ef & -> & Hdf & Hrf);
    try (unfold emin; lia).
  exists mf, ef, (F2Q (Z.pos md) ed).
  split; [reflexivity|]. split; [exact Hdf|].
  rewrite to_Q_finite. split.
  - rewrite Pos2Z.inj_mul in Hrd. unfold rounds_to in *.
    rewrite F2Q_mul in Hrd. exact Hrd.
  - exact Hrf.
Qed.

Lemma d_0_01_eq : B32.d_0_01 = S754_finite false 5764607523034235 (-59).
Proof. vm_compute. reflexivity. Qed.

Lemma d_0_1_eq : B32.d_0_1 = S754_finite false 7205759403792794 (-56).
Proof. vm_compute. reflexivity. Qed.

(** A product by a literal that is within 2^-53 of [c], in all within 2^-23
    of the product by [c]. *)
Lemma mul_literal_accurate (x : spec_float) (ml : positive) (el : Z) (c : Q) :
  binary32_normal x ->
  ((1 # 1073741824) <= B32.to_Q x)%Q -> (B32.to_Q x <= 1073741824)%Q ->
  Z.pos (digits2_pos ml) = 53 -> -64 <= el <= -50 ->
  (0 <= c)%Q ->
  rounds_to (1 # 9007199254740992) c (F2Q (Z.pos ml) el) ->
  binary32_normal (B32.mul_literal x (S754_finite false ml el))
  /\ rounds_to (1 # 8388608) (B32.to_Q x * c)
       (B32.to_Q (B32.mul_literal x (S754_finite false ml el))).
Proof.
  intros Hg Hlo Hhi Hdl Hel Hc [Hc1 Hc2].
  destruct (mul_literal_rounds x ml el Hg Hlo Hhi Hdl Hel)
    as (m' & e' & v & -> & Hd' & [Hv1 Hv2] & [Hr1 Hr2]).
  split; [exact Hd'|]. rewrite to_Q_finite.
  set (X := B32.to_Q x) in *. set (L := F2Q (Z.pos ml) el) in *.
  set (r := F2Q (Z.pos m') e') in *.
  assert (HX : (0 < X)%Q) by lra.
  assert (H1 : (X * (c * (1 - (1 # 9007199254740992))) <= X * L)%Q).
  { apply Qmult_le_l; assumption. }
  assert (H2 : (X * L <= X * (c * (1 + (1 # 9007199254740992))))%Q).
  { apply Qmult_le_l; assumption. }
  assert (HW : (0 <= X * c)%Q) by (apply Qmult_le_0_compat; lra).
  unfold rounds_to.
  set (W := (X * c)%Q) in *. set (XL := (X * L)%Q) in *.
  assert (H1' : (W * (1 - (1 # 9007199254740992)) <= XL)%Q).
  { unfold W. setoid_replace (X * c * (1 - (1 # 9007199254740992)))%Q
      with (X * (c * (1 - (1 # 9007199254740992))))%Q by ring. exact H1. }
  assert (H2' : (XL <= W * (1 + (1 # 9007199254740992)))%Q).
  { unfold W. setoid_replace (X * c * (1 + (1 # 9007199254740992)))%Q
      with (X * (c * (1 + (1 # 9007199254740992))))%Q by ring. exact H2. }
  clearbody W XL r. split; lra.
Qed.

#[export] Instance binary32_accuracy :
  FloatAccuracy B32.float B32.to_Q binary32_normal (1 # 8388608).
Proof.
  split.
  - split; discriminate.
  - intros n Hn. cbn [float_of_uint32 binary32_ops]. unfold B32.float_of_Z.
    destruct n as [|m|m]; [| |lia].
    + cbn. repeat split; discriminate.
    + cbn [binary_normalize].
      assert (Hd : 0 < Z.pos (digits2_pos m) <= 32).
      { apply digits2_pos_range; [lia|]. change (2 ^ 0) with 1. lia. }
      destruct (binary_round_rounds 24 128 ltac:(lia) false m 0)
        as (m' & e' & -> & Hd' & [Hr1 Hr2]); try (unfold emin; lia).
      split; [exact Hd'|]. rewrite to_Q_finite.
      change (/ inject_Z (2 ^ 24))%Q with (1 # 16777216)%Q in Hr1, Hr2.
      assert (E : (F2Q (Z.pos m) 0 == inject_Z (Z.pos m))%Q).
      { unfold F2Q. change (2 ^ 0)%Q with 1%Q. ring. }
      rewrite E in Hr1, Hr2.
      assert (Hpos : (0 < inject_Z (Z.pos m))%Q).
      { change 0%Q with (inject_Z 0). now rewrite <- Zlt_Qlt. }
      set (N := inject_Z (Z.pos m)) in *. set (r := F2Q (Z.pos m') e') in *.
      clearbody N r. split; lra.
  - intros x Hg. cbn [fnonzero binary32_ops].
    destruct x as [s|s| |s m e]; cbn [binary32_normal] in Hg; try contradiction.
    + split; reflexivity.
    + cbn [B32.nonzero]. rewrite to_Q_finite. pose proof (F2Q_pos m e).
      split; [discriminate|]. destruct s; intros; lra.
  - intros x Hg Hlo Hhi. cbn [fmul_0_01 binary32_ops]. rewrite d_0_01_eq.
    apply mul_literal_accurate; try assumption.
    + reflexivity.
    + lia.
    + discriminate.
    + split; vm_compute; discriminate.
  - intros x Hg Hlo Hhi. cbn [fmul_0_1 binary32_ops]. rewrite d_0_1_eq.
    apply mul_literal_accurate; try assumption.
    + reflexivity.
    + lia.
    + discriminate.
    + split; vm_compute; discriminate.
  - intros x. cbn [fneg binary32_ops].
    destruct x as [s|s| |s m e]; try reflexivity.
    cbn [SFopp]. rewrite !to_Q_finite. destruct s; cbn [negb]; ring.
  - intros x. cbn [fneg binary32_ops]. now destruct x.
Qed.

(** [v] is [V] up to five roundings of relative error [eps] each. *)
Definition within (eps : Q) (v V : Q) : Prop :=
  ((0 <= V)%Q ->
   (V * qpow (1 - eps) 5 <= v)%Q /\ (v <= V * qpow (1 + eps) 5)%Q)
  /\ ((V <= 0)%Q ->
      (V * qpow (1 + eps) 5 <= v)%Q /\ (v <= V * qpow (1 - eps) 5)%Q).

Section NumeralAccuracy.
Context {width : ExponentType} {F : Type} {ops : FloatOps F}.
Variable value : F -> Q.
Variable good : F -> Prop.
Variable eps : Q.
Context {acc : FloatAccuracy F value good eps}.

Lemma digits_value_bound (ds : string) :
  all_digits ds = true -> 0 <= digits_value ds < 10 ^ len ds.
Proof.
  intros Hd.
  pose proof (accepted_value_bound scan_init ds Hd ltac:(cbn; lia) ltac:(cbn; lia)) as H.
  cbn [scan_init integer_value num_digits] in H. exact H.
Qed.

Lemma decoded_good (x : numeral) :
  scannable x = true ->
  digit_count x <= MAX_INT_DIGITS ->
  good (decoded x).
Proof.
  unfold MAX_INT_DIGITS, digit_count. intros Hs Hc.
  assert (Hd : all_digits (all_digits_of x) = true).
  { unfold scannable in Hs. apply andb_prop in Hs as [Hs _].
    apply andb_prop in Hs as [Hs _]. apply andb_prop in Hs as [Hi Hf].
    unfold all_digits_of. now rewrite all_digits_app, Hi, Hf. }
  pose proof (digits_value_bound _ Hd) as Hb.
  pose proof (len_nonneg (frac_digits x)) as Hlf.
  pose proof (len_nonneg (int_digits x)) as Hli.
  assert (Hk : len (frac_digits x) <= 8).
  { unfold all_digits_of in Hc. rewrite len_app in Hc. lia. }
  assert (Hn : 0 <= digits_value (all_digits_of x) < 10 ^ 8).
  { split; [lia|]. eapply Z.lt_le_trans; [apply Hb|].
    apply Z.pow_le_mono_r; lia. }
  pose proof (apply_decimal_accurate value good eps _ _ Hn (conj Hlf Hk))
    as (Hg & _).
  unfold decoded. destruct (num_sign x); try exact Hg.
  now apply (@neg_good F ops value good eps acc).
Qed.

Lemma decoded_accurate (x : numeral) :
  scannable x = true ->
  digit_count x <= MAX_INT_DIGITS ->
  within eps (value (decoded x)) (numeral_value x).
Proof.
  unfold MAX_INT_DIGITS, digit_count. intros Hs Hc.
  assert (Hd : all_digits (all_digits_of x) = true).
  { unfold scannable in Hs. apply andb_prop in Hs as [Hs _].
    apply andb_prop in Hs as [Hs _]. apply andb_prop in Hs as [Hi Hf].
    unfold all_digits_of. now rewrite all_digits_app, Hi, Hf. }
  pose proof (digits_value_bound _ Hd) as Hb.
  pose proof (len_nonneg (frac_digits x)) as Hlf.
  pose proof (len_nonneg (int_digits x)) as Hli.
  assert (Hk : len (frac_digits x) <= 8).
  { unfold all_digits_of in Hc. rewrite len_app in Hc. lia. }
  assert (Hn : 0 <= digits_value (all_digits_of x) < 10 ^ 8).
  { split; [lia|]. eapply Z.lt_le_trans; [apply Hb|].
    apply Z.pow_le_mono_r; lia. }
  pose proof (apply_decimal_accurate value good eps _ _ Hn (conj Hlf Hk))
    as (_ & Hlo & Hhi).
  set (V := (inject_Z (digits_value (all_digits_of x))
             / inject_Z (10 ^ len (frac_digits x)))%Q) in *.
  assert (HV : (0 <= V)%Q).
  { unfold V. apply Qle_shift_div_l.
    - change 0%Q with (inject_Z 0). rewrite <- Zlt_Qlt. apply Z.pow_pos_nonneg; lia.
    - rewrite Qmult_0_l. change 0%Q with (inject_Z 0). rewrite <- Zle_Qle. lia. }
  unfold within, decoded, numeral_value. fold V.
  set (r := apply_decimal (digits_value (all_digits_of x)) (- len (frac_digits x))) in *.
  destruct (qpow_bounds value good eps 5 ltac:(lia)) as (Ha1 & Ha2 & Hb1 & Hb2).
  set (a := qpow (1 - eps) 5) in *. set (b := qpow (1 + eps) 5) in *.
  destruct (num_sign x).
  - split; intros ?; split; nra.
  - split; intros ?; split; nra.
  - rewrite neg_value. split; intros ?; split; nra.
Qed.

End NumeralAccuracy.

(** Five roundings of binary32 add up to a relative error below 2^-20. *)
Lemma within_binary32 (v V : Q) :
  within (1 # 8388608) v V -> (Qabs (v - V) <= Qabs V * (1 # 1048576))%Q.
Proof.
  intros [Hpos Hneg].
  assert (Ha : ((1 - (1 # 1048576)) <= qpow (1 - (1 # 8388608)) 5)%Q)
    by (vm_compute; discriminate).
  assert (Ha' : (qpow (1 - (1 # 8388608)) 5 <= 1)%Q) by (vm_compute; discriminate).
  assert (Hb : (1 <= qpow (1 + (1 # 8388608)) 5)%Q) by (vm_compute; discriminate).
  assert (Hb' : (qpow (1 + (1 # 8388608)) 5 <= 1 + (1 # 1048576))%Q)
    by (vm_compute; discriminate).
  set (a := qpow (1 - (1 # 8388608)) 5) in *.
  set (b := qpow (1 + (1 # 8388608)) 5) in *. clearbody a b.
  apply Qabs_Qle_condition.
  destruct (Qlt_le_dec V 0) as [Hlt|Hge].
  - destruct (Hneg ltac:(lra)) as [H1 H2].
    rewrite (Qabs_neg V) by lra. split; nra.
  - destruct (Hpos Hge) as [H1 H2].
    rewrite (Qabs_pos V) by lra. split; nra.
Qed.

(** ** The grammar of the specification, on texts *)

Fixpoint digits_prefix (s : string) : string :=
  match s with
  | EmptyString => EmptyString
  | String c rest => if is_digit c then String c (digits_prefix rest) else EmptyString
  end.

Fixpoint after_digits (s : string) : string :=
  match s with
  | EmptyString => EmptyString
  | String c rest => if is_digit c then after_digits rest else s
  end.

(** The whole text is [[+-]?digits[.digits]?]. *)
Definition matches_grammar (s : string) : bool :=
  let unsigned := strip_sign s in
  nonempty (digits_prefix unsigned)
  && match after_digits unsigned with
     | EmptyString => true
     | String c fraction =>
         (code c =? 46) && nonempty fraction && all_digits fraction
     end.

Lemma digits_prefix_app (ds rest : string) :
  all_digits ds = true -> starts_with_digit rest = false ->
  digits_prefix (ds ++ rest) = ds /\ after_digits (ds ++ rest) = rest.
Proof.
  intros Hd Hr. induction ds as [|c ds IH]; cbn [append].
  - destruct rest as [|c rest]; [split; reflexivity|].
    cbn in Hr |- *. rewrite Hr. split; reflexivity.
  - cbn [all_digits] in Hd. apply andb_prop in Hd as [Hc Hd].
    cbn [digits_prefix after_digits]. rewrite Hc.
    destruct (IH Hd) as [-> ->]. split; reflexivity.
Qed.

(** The two descriptions of the grammar agree. *)
Lemma in_grammar_matches (x : numeral) :
  in_grammar x = true -> matches_grammar (numeral_text x) = true.
Proof.
  unfold in_grammar, matches_grammar, numeral_text.
  destruct x as [sg i p f]; cbn [num_sign int_digits has_point frac_digits].
  intros H. apply andb_prop in H as [H Hf]. apply andb_prop in H as [Hi Hn].
  assert (Hstrip : strip_sign (sign_text sg ++ i ++ (if p then "." ++ f else ""))
                   = (i ++ (if p then "." ++ f else ""))%string).
  { destruct sg; cbn [sign_text append strip_sign]; try reflexivity.
    destruct i as [|c i]; [discriminate|]. cbn [append strip_sign].
    cbn [all_digits] in Hi. apply andb_prop in Hi as [Hc _].
    unfold is_digit in Hc. apply andb_prop in Hc as [H1 H2]. apply Z.leb_le in H1, H2.
    destruct (Z.eqb_spec (code c) 45); [lia|].
    destruct (Z.eqb_spec (code c) 43); [lia|]. reflexivity. }
  cbv zeta. rewrite Hstrip.
  assert (Hr : starts_with_digit (if p then "." ++ f else "")%string = false)
    by (destruct p; reflexivity).
  destruct (digits_prefix_app i _ Hi Hr) as [-> ->]. rewrite Hn. cbn [andb].
  destruct p; [|reflexivity].
  apply andb_prop in Hf as [Hf1 Hf2].
  change ("." ++ f)%string with (String "." f). cbv iota.
  change (code "." =? 46) with true. now rewrite Hf1, Hf2.
Qed.

(** The digits of a numeral without its leading zeros. *)
Fixpoint strip_zeros (s : string) : string :=
  match s with
  | EmptyString => EmptyString
  | String c rest => if code c =? 48 then strip_zeros rest else s
  end.

Definition significant_digits (x : numeral) : Z := len (strip_zeros (all_digits_of x)).

(** The sign is the only character [strip_sign] takes off a numeral. *)
Lemma strip_sign_body (sg : sign) (body : string) :
  match body with
  | EmptyString => True
  | String c _ => is_digit c = true \/ code c = 46
  end ->
  strip_sign (sign_text sg ++ body) = body.
Proof.
  intros Hb. destruct sg; cbn [sign_text append strip_sign]; try reflexivity.
  destruct body as [|c body]; [reflexivity|]. cbn [strip_sign].
  assert (Hc : 48 <= code c <= 57 \/ code c = 46).
  { destruct Hb as [Hd|Hp]; [left | now right].
    unfold is_digit in Hd. apply andb_prop in Hd as [H1 H2].
    apply Z.leb_le in H1, H2. lia. }
  destruct (Z.eqb_spec (code c) 45); [lia|].
  destruct (Z.eqb_spec (code c) 43); [lia|]. reflexivity.
Qed.

(** A numeral with a bare decimal point, [.digits] or [digits.], is outside
    the grammar. *)
Lemma bare_point_outside_grammar (x : numeral) :
  scannable x = true ->
  has_point x = true ->
  nonempty (int_digits x) = false \/ nonempty (frac_digits x) = false ->
  in_grammar x = false /\ matches_grammar (numeral_text x) = false.
Proof.
  unfold scannable, in_grammar, matches_grammar, numeral_text, all_digits_of.
  destruct x as [sg i p f]; cbn [num_sign int_digits has_point frac_digits].
  intros Hs -> Hbare.
  apply andb_prop in Hs as [Hs Hne]. apply andb_prop in Hs as [Hs _].
  apply andb_prop in Hs as [Hi Hf].
  split.
  - destruct Hbare as [-> | ->]; [now rewrite andb_false_r|].
    now rewrite !andb_false_r.
  - cbv zeta. rewrite strip_sign_body.
    + destruct i as [|c i].
      * reflexivity.
      * destruct Hbare as [Hbare|Hbare]; [discriminate|].
        destruct f; [|discriminate].
        assert (Hr : starts_with_digit ("." ++ "")%string = false) by reflexivity.
        destruct (digits_prefix_app (String c i) _ Hi Hr) as [-> ->].
        reflexivity.
    + destruct i as [|c i]; cbn [append].
      * now right.
      * cbn [all_digits] in Hi. apply andb_prop in Hi as [Hc _]. now left.
Qed.

(** [read_float] in binary32 on a numeral of at most eight digits. *)
Lemma read_float32_numeral {width : ExponentType} (pre : string) (x : numeral)
    (tail : string) (float_ptr : B32.float) :
  scannable x = true ->
  digit_count x <= MAX_INT_DIGITS ->
  stops x tail = true ->
  len pre + len (numeral_text x) <= 255 ->
  exists r : B32.float,
    read_float32 (pre ++ numeral_text x ++ tail) (len pre) float_ptr
    = (true, len pre + len (numeral_text x), r)
    /\ binary32_normal r
    /\ (Qabs (B32.to_Q r - numeral_value x)
        <= Qabs (numeral_value x) * (1 # 1048576))%Q.
Proof.
  intros Hs Hc Ht Hl. exists (decoded x). split; [|split].
  - unfold read_float32. rewrite (read_float_numeral pre x tail float_ptr Hs Hc Ht).
    rewrite uint8_t_small; [reflexivity|].
    pose proof (len_nonneg pre). pose proof (len_nonneg (numeral_text x)). lia.
  - exact (decoded_good B32.to_Q binary32_normal (1 # 8388608) x Hs Hc).
  - apply within_binary32.
    exact (decoded_accurate B32.to_Q binary32_normal (1 # 8388608) x Hs Hc).
Qed.

(** ** Properties of read_float as the specification states them *)

(** The evaluation of [read_float] on a short line, at any width of the
    exponent. *)
Ltac at_any_width :=
  unfold read_float32;
  rewrite read_float_any_width by (vm_compute; discriminate);
  reflexivity.

(** C8. Where no digit is readable at the cursor (after the optional sign and
    the optional decimal point the text does not continue with a digit, as in
    "abc", "+", "-" and the empty line), [read_float] returns false and leaves
    [*char_counter] and [*float_ptr] as they were. The cursor is a [uint8_t]
    within the line, its terminating NUL included. *)
Theorem read_float_fails_without_digit (width : ExponentType)
    (F : Type) (ops : FloatOps F)
    (line : string) (char_counter : Z) (float_ptr : F) :
  0 <= char_counter <= len line ->
  char_counter <= 255 ->
  no_digit_at line char_counter = true ->
  read_float line char_counter float_ptr = (false, char_counter, float_ptr).
Proof. intros _ _. apply read_float_no_digit. Qed.

Lemma read_float_fails_without_digit_witness :
  read_float32 (width := exponent_int8) "abc" 0 S754_nan = (false, 0, S754_nan)
  /\ read_float32 (width := exponent_int8) "+" 0 S754_nan = (false, 0, S754_nan)
  /\ read_float32 (width := exponent_int8) "" 0 S754_nan = (false, 0, S754_nan)
  /\ read_float32 (width := exponent_int8) "G1X-" 3 S754_nan = (false, 3, S754_nan).
Proof.
  unfold read_float32.
  split; [|split; [|split]]; apply read_float_fails_without_digit;
    solve [reflexivity | vm_compute; split; discriminate | vm_compute; discriminate].
Defined.

(** C10. [read_float] accepts numerals with a bare decimal point, which are
    outside the grammar [[+-]?digits[.digits]?]: [.digits], without a digit
    before the point, and [digits.], with nothing after it. For at most eight
    digits it succeeds, returns the cursor past the whole numeral, the point
    included, and stores its value to within 2^-20 in relative terms. ".5" is
    decoded to one half and "5." to five, with the cursor at 2. *)
Theorem read_float_accepts_bare_point (width : ExponentType) :
  (forall (pre : string) (x : numeral) (tail : string) (float_ptr : B32.float),
      scannable x = true ->
      has_point x = true ->
      nonempty (int_digits x) = false \/ nonempty (frac_digits x) = false ->
      digit_count x <= MAX_INT_DIGITS ->
      starts_with_digit tail = false ->
      len pre + len (numeral_text x) <= 255 ->
      in_grammar x = false
      /\ matches_grammar (numeral_text x) = false
      /\ exists r : B32.float,
           read_float32 (pre ++ numeral_text x ++ tail) (len pre) float_ptr
           = (true, len pre + len (numeral_text x), r)
           /\ binary32_normal r
           /\ (Qabs (B32.to_Q r - numeral_value x)
               <= Qabs (numeral_value x) * (1 # 1048576))%Q)
  /\ matches_grammar ".5" = false
  /\ matches_grammar "5." = false
  /\ (forall old : B32.float,
        read_float32 ".5" 0 old = (true, 2, S754_finite false 8388608 (-24))
        /\ read_float32 "5." 0 old = (true, 2, S754_finite false 10485760 (-21)))
  /\ (B32.to_Q (S754_finite false 8388608 (-24)) == 1 # 2)%Q
  /\ (B32.to_Q (S754_finite false 10485760 (-21)) == 5)%Q
  /\ (forall old : Q,
        @read_float width Q exact_ops ".5" 0 old = (true, 2, (5 * (1 # 10))%Q)
        /\ @read_float width Q exact_ops "5." 0 old = (true, 2, 5%Q)).
Proof.
  split.
  { intros pre x tail float_ptr Hs Hp Hbare Hc Ht Hl.
    destruct (bare_point_outside_grammar x Hs Hp Hbare) as [Hg Hm].
    split; [exact Hg|]. split; [exact Hm|].
    apply read_float32_numeral; try assumption.
    unfold stops. destruct tail as [|c tail]; [reflexivity|].
    cbn [starts_with_digit] in Ht. now rewrite Ht, Hp. }
  split; [reflexivity|]. split; [reflexivity|].
  split; [intros old; split; at_any_width|].
  split; [reflexivity|]. split; [reflexivity|].
  intros old; split; at_any_width.
Qed.

Lemma read_float_accepts_bare_point_witness :
  (exists r : B32.float,
      read_float32 (width := exponent_int8) "G1X.25Y" 3 S754_nan = (true, 6, r)
      /\ (Qabs (B32.to_Q r - (25 # 100)) <= (25 # 100) * (1 # 1048576))%Q)
  /\ (exists r : B32.float,
        read_float32 (width := exponent_int8) "-25. " 0 S754_nan = (true, 4, r)
        /\ (Qabs (B32.to_Q r - - (25 # 1)) <= (25 # 1) * (1 # 1048576))%Q).
Proof.
  destruct (read_float_accepts_bare_point exponent_int8) as [H _].
  split.
  - destruct (H "G1X"%string
                {| num_sign := NoSign; int_digits := ""; has_point := true;
                   frac_digits := "25" |} "Y"%string S754_nan
                eq_refl eq_refl (or_introl eq_refl)
                ltac:(vm_compute; discriminate) eq_refl
                ltac:(vm_compute; discriminate)) as (_ & _ & r & E & _ & Herr).
    exists r. split; [exact E | exact Herr].
  - destruct (H ""%string
                {| num_sign := Minus; int_digits := "25"; has_point := true;
                   frac_digits := "" |} " "%string S754_nan
                eq_refl eq_refl (or_intror eq_refl)
                ltac:(vm_compute; discriminate) eq_refl
                ltac:(vm_compute; discriminate)) as (_ & _ & r & E & _ & Herr).
    exists r. split; [exact E | exact Herr].
Defined.

(** C7 (amended). For a numeral of fewer than 256 digits, with its decimal
    point anywhere or absent, read at a cursor that fits its [uint8_t], and
    with no more digits beyond the eighth before the point than the exponent
    type holds (fewer than [2 ^ (exponent_bits - 1)], which is 128 at eight
    bits), [read_float] succeeds; the accumulator holds the first eight
    digits; the exponent is the number of digits beyond the eighth that stand
    before the point, less the number of accepted digits after the point:
    digits beyond the cap raise the exponent by one each while before the
    point, and change neither accumulator nor exponent after it. *)
Theorem digit_cap (width : ExponentType) (F : Type) (ops : FloatOps F)
    (pre : string) (x : numeral) (tail : string) (float_ptr : F) :
  len pre <= 255 ->
  scannable x = true ->
  digit_count x <= 255 ->
  exponent_holds x = true ->
  stops x tail = true ->
  let accumulator := digits_value (keep 8 (all_digits_of x)) in
  let excess_before_point := Z.max 0 (len (int_digits x) - MAX_INT_DIGITS) in
  let accepted_after_point :=
    Z.min (len (frac_digits x)) (Z.max 0 (MAX_INT_DIGITS - len (int_digits x))) in
  let float_value :=
    apply_decimal accumulator (excess_before_point - accepted_after_point) in
  loop_on (int_digits x ++ (if has_point x then "." ++ frac_digits x else "") ++ tail)
          scan_init 0
  = ({| integer_value := accumulator;
        exponent := excess_before_point - accepted_after_point;
        num_digits := digit_count x;
        is_decimal := has_point x |},
     len (int_digits x) + (if has_point x then 1 + len (frac_digits x) else 0) + 1)
  /\ read_float (pre ++ numeral_text x ++ tail) (len pre) float_ptr
     = (true, uint8_t (len pre + len (numeral_text x)),
        match num_sign x with
        | Minus => fneg float_value
        | _ => float_value
        end).
Proof.
  intros _ Hs Hc Hw Ht. cbv zeta. split.
  - rewrite (loop_on_long_numeral x tail 0 Hs Hc Hw Ht). reflexivity.
  - rewrite (read_float_long_numeral pre x tail float_ptr Hs Hc Hw Ht). reflexivity.
Qed.

Lemma digit_cap_witness :
  @read_float exponent_int8 Q exact_ops "G1X1234567890.5 " 3 0%Q
  = (true, 15, 1234567800%Q)
  /\ @read_float exponent_int8 Q exact_ops "0.1234567890" 0 0%Q
     = (true, 12, (1234567 * (1 # 100) * (1 # 100) * (1 # 100) * (1 # 10))%Q).
Proof.
  pose proof (digit_cap exponent_int8 Q exact_ops "G1X"
                {| num_sign := NoSign; int_digits := "1234567890";
                   has_point := true; frac_digits := "5" |} " " 0%Q
                ltac:(vm_compute; discriminate)
                eq_refl ltac:(vm_compute; discriminate) eq_refl eq_refl) as [_ H1].
  pose proof (digit_cap exponent_int8 Q exact_ops ""
                {| num_sign := NoSign; int_digits := "0";
                   has_point := true; frac_digits := "1234567890" |} "" 0%Q
                ltac:(vm_compute; discriminate)
                eq_refl ltac:(vm_compute; discriminate) eq_refl eq_refl) as [_ H2].
  split; [exact H1 | exact H2].
Defined.

(** C7 as stated fails on a numeral of 256 digits: [num_digits], a [uint8_t],
    is zero again after the last of them and [read_float] reports that no
    digit was read, with an exponent of 8, 16, 32 or 64 bits alike. It fails
    as well where the exponent type does not hold the count of excess digits:
    at eight bits a one followed by 135 zeros leaves the exponent at -128 and
    the value read is zero; at sixteen bits the exponent is 128. *)
Lemma digit_count_wraps :
  Forall (fun width : ExponentType =>
            @read_float32 width (replicate 256 "0") 0 S754_nan = (false, 0, S754_nan)
            /\ @read_float32 width (replicate 255 "0") 0 S754_nan
               = (true, 255, S754_zero false))
         [exponent_int8; exponent_int16; exponent_int32; exponent_int64]
  /\ exponent (fst (@loop_on exponent_int8 (String "1" (replicate 135 "0")) scan_init 0))
     = -128
  /\ @read_float32 exponent_int8 (String "1" (replicate 135 "0")) 0 S754_nan
     = (true, 136, S754_zero false)
  /\ exponent (fst (@loop_on exponent_int16 (String "1" (replicate 135 "0")) scan_init 0))
     = 128.
Proof.
  split; [repeat constructor; vm_compute; reflexivity|].
  split; [vm_compute; reflexivity|]. split; vm_compute; reflexivity.
Qed.

(** C2 (amended). For every line and cursor such that the text at the cursor
    is a numeral that the scan takes in, that is a numeral
    [[+-]?digits[.digits]?] of the grammar or one with a bare decimal point,
    of at most eight digit characters in all, leading zeros counted, followed
    by a character that ends the scan, and that ends within the first 255
    characters of the line, [read_float] succeeds; the cursor it returns is
    the index of that first unconsumed character; and the binary32 value it
    stores is zero or a normal float whose relative distance to the
    mathematical value of the numeral is at most 2^-20. That value is reached
    in at most five roundings, the conversion of the accumulated integer and
    four multiplications, in any arithmetic of bounded relative error, and
    exactly in exact arithmetic. "X12.345 " read after the X gives
    12944670 * 2^-20, within 2^-23 of 12.345 in relative terms, with the
    cursor on the space, and "+5" gives the same value, five, as "5". *)
Theorem read_float_decodes_numeral (width : ExponentType) :
  (forall x : numeral, in_grammar x = true -> scannable x = true)
  /\ (forall (pre : string) (x : numeral) (tail : string) (float_ptr : B32.float),
        scannable x = true ->
        digit_count x <= MAX_INT_DIGITS ->
        stops x tail = true ->
        len pre + len (numeral_text x) <= 255 ->
        exists r : B32.float,
          read_float32 (pre ++ numeral_text x ++ tail) (len pre) float_ptr
          = (true, len pre + len (numeral_text x), r)
          /\ binary32_normal r
          /\ (Qabs (B32.to_Q r - numeral_value x)
              <= Qabs (numeral_value x) * (1 # 1048576))%Q)
  /\ (forall (F : Type) (ops : FloatOps F) (value : F -> Q) (good : F -> Prop) (eps : Q),
        FloatAccuracy F value good eps ->
        forall (pre : string) (x : numeral) (tail : string) (float_ptr : F),
          scannable x = true ->
          digit_count x <= MAX_INT_DIGITS ->
          stops x tail = true ->
          len pre + len (numeral_text x) <= 255 ->
          exists r : F,
            read_float (pre ++ numeral_text x ++ tail) (len pre) float_ptr
            = (true, len pre + len (numeral_text x), r)
            /\ within eps (value r) (numeral_value x))
  /\ (forall old : B32.float,
        read_float32 "X12.345 " 1 old = (true, 7, S754_finite false 12944670 (-20))
        /\ read_float32 "+5" 0 old = (true, 2, S754_finite false 10485760 (-21))
        /\ read_float32 "5" 0 old = (true, 1, S754_finite false 10485760 (-21)))
  /\ (Qabs (B32.to_Q (S754_finite false 12944670 (-20)) - (12345 # 1000))
       <= (12345 # 1000) * (1 # 8388608))%Q
  /\ (B32.to_Q (S754_finite false 10485760 (-21)) == 5)%Q.
Proof.
  assert (Hgen : forall (F : Type) (ops : FloatOps F)
                        (pre : string) (x : numeral) (tail : string) (float_ptr : F),
              scannable x = true ->
              digit_count x <= MAX_INT_DIGITS ->
              stops x tail = true ->
              len pre + len (numeral_text x) <= 255 ->
              read_float (pre ++ numeral_text x ++ tail) (len pre) float_ptr
              = (true, len pre + len (numeral_text x), decoded x)).
  { intros F ops pre x tail float_ptr Hs Hc Ht Hl.
    rewrite (read_float_numeral pre x tail float_ptr Hs Hc Ht).
    rewrite uint8_t_small; [reflexivity|].
    pose proof (len_nonneg pre). pose proof (len_nonneg (numeral_text x)). lia. }
  split; [exact in_grammar_scannable|].
  split; [|split; [|split; [|split]]].
  - exact read_float32_numeral.
  - intros F ops value good eps acc pre x tail float_ptr Hs Hc Ht Hl.
    exists (decoded x). split.
    + exact (Hgen F ops pre x tail float_ptr Hs Hc Ht Hl).
    + exact (decoded_accurate value good eps x Hs Hc).
  - intros old. split; [|split]; at_any_width.
  - vm_compute. discriminate.
  - reflexivity.
Qed.

Lemma read_float_decodes_numeral_witness :
  (exists r : B32.float,
      read_float32 (width := exponent_int8) "X12.345 " 1 S754_nan = (true, 7, r)
      /\ binary32_normal r
      /\ (Qabs (B32.to_Q r - (12345 # 1000)) <= (12345 # 1000) * (1 # 1048576))%Q)
  /\ (exists r : Q,
        @read_float exponent_int8 Q exact_ops "-0.5" 0 0%Q = (true, 4, r)
        /\ within 0 r (- (5 # 10))).
Proof.
  destruct (read_float_decodes_numeral exponent_int8) as (_ & H32 & H & _).
  split.
  - exact (H32 "X"%string
             {| num_sign := NoSign; int_digits := "12"; has_point := true;
                frac_digits := "345" |} " "%string S754_nan
             eq_refl ltac:(vm_compute; discriminate) eq_refl
             ltac:(vm_compute; discriminate)).
  - exact (H Q exact_ops (fun x => x) (fun _ => True) 0%Q exact_accuracy ""%string
             {| num_sign := Minus; int_digits := "0"; has_point := true;
                frac_digits := "5" |} ""%string 0%Q
             eq_refl ltac:(vm_compute; discriminate) eq_refl
             ltac:(vm_compute; discriminate)).
Defined.

(** C2 as stated fails on leading zeros: "000000001" and "0.00000001" match
    the grammar and have one significant digit each, but the ninth digit
    character is beyond the cap of eight and is dropped; the value decoded is
    zero, not one, respectively not 10^-8, at every width of the exponent. *)
Lemma leading_zeros_use_up_the_cap :
  in_grammar {| num_sign := NoSign; int_digits := "000000001";
                has_point := false; frac_digits := "" |} = true
  /\ significant_digits {| num_sign := NoSign; int_digits := "000000001";
                           has_point := false; frac_digits := "" |} = 1
  /\ (numeral_value {| num_sign := NoSign; int_digits := "000000001";
                       has_point := false; frac_digits := "" |} == 1)%Q
  /\ (forall width : ExponentType,
        @read_float32 width "000000001" 0 S754_nan = (true, 9, S754_zero false))
  /\ (forall width : ExponentType,
        @read_float width Q exact_ops "000000001" 0 (7 # 1) = (true, 9, 0%Q))
  /\ in_grammar {| num_sign := NoSign; int_digits := "0";
                   has_point := true; frac_digits := "00000001" |} = true
  /\ significant_digits {| num_sign := NoSign; int_digits := "0";
                           has_point := true; frac_digits := "00000001" |} = 1
  /\ (numeral_value {| num_sign := NoSign; int_digits := "0";
                       has_point := true; frac_digits := "00000001" |}
      == 1 # 100000000)%Q
  /\ (forall width : ExponentType,
        @read_float32 width "0.00000001" 0 S754_nan = (true, 10, S754_zero false)).
Proof.
  split; [reflexivity|]. split; [reflexivity|]. split; [reflexivity|].
  split; [intros width; at_any_width|]. split; [intros width; at_any_width|].
  split; [reflexivity|]. split; [reflexivity|]. split; [reflexivity|].
  intros width; at_any_width.
Qed.

(** * The decoder on arbitrary lines *)

Lemma code_inj (c c' : ascii) : code c = code c' -> c = c'.
Proof.
  unfold code. intros H. apply N2Z.inj in H.
  rewrite <- (ascii_N_embedding c), <- (ascii_N_embedding c'). now rewrite H.
Qed.

Lemma digits_prefix_after (s : string) : (digits_prefix s ++ after_digits s)%string = s.
Proof.
  induction s as [|c s IH]; [reflexivity|]. cbn [digits_prefix after_digits].
  destruct (is_digit c); [cbn [append]; now rewrite IH | reflexivity].
Qed.

Lemma all_digits_prefix (s : string) : all_digits (digits_prefix s) = true.
Proof.
  induction s as [|c s IH]; [reflexivity|]. cbn [digits_prefix].
  destruct (is_digit c) eqn:E; [cbn [all_digits]; now rewrite E, IH | reflexivity].
Qed.

Lemma after_digits_stop (s : string) : starts_with_digit (after_digits s) = false.
Proof.
  induction s as [|c s IH]; [reflexivity|]. cbn [after_digits].
  destruct (is_digit c) eqn:E; [exact IH | cbn [starts_with_digit]; exact E].
Qed.

(** The sign character a text starts with. *)
Definition sign_of (text : string) : sign :=
  match text with
  | EmptyString => NoSign
  | String c _ =>
      if code c =? 45 then Minus else if code c =? 43 then Plus else NoSign
  end.

(** The numeral the digit loop takes off the start of a text, and the rest of
    the text. *)
Definition split_numeral (text : string) : numeral * string :=
  let body := strip_sign text in
  let i := digits_prefix body in
  match after_digits body with
  | EmptyString =>
      ({| num_sign := sign_of text; int_digits := i; has_point := false;
          frac_digits := EmptyString |}, EmptyString)
  | String c rest =>
      if code c =? 46
      then ({| num_sign := sign_of text; int_digits := i; has_point := true;
               frac_digits := digits_prefix rest |}, after_digits rest)
      else ({| num_sign := sign_of text; int_digits := i; has_point := false;
               frac_digits := EmptyString |}, String c rest)
  end.

Lemma sign_of_strip (text : string) :
  (sign_text (sign_of text) ++ strip_sign text)%string = text.
Proof.
  destruct text as [|c rest]; [reflexivity|]. cbn [sign_of strip_sign].
  destruct (Z.eqb_spec (code c) 45) as [E|E].
  - cbn [orb sign_text append]. f_equal. apply code_inj. exact (eq_sym E).
  - destruct (Z.eqb_spec (code c) 43) as [E'|E'].
    + cbn [orb sign_text append]. f_equal. apply code_inj. exact (eq_sym E').
    + reflexivity.
Qed.

Lemma split_numeral_text (text : string) :
  (numeral_text (fst (split_numeral text)) ++ snd (split_numeral text))%string = text.
Proof.
  unfold split_numeral, numeral_text. cbv zeta.
  pose proof (sign_of_strip text) as Hs.
  pose proof (digits_prefix_after (strip_sign text)) as Hb.
  destruct (after_digits (strip_sign text)) as [|c rest] eqn:E.
  - cbn [fst snd numeral_text num_sign int_digits has_point frac_digits].
    rewrite !append_nil_r. rewrite append_nil_r in Hb. now rewrite Hb.
  - destruct (Z.eqb_spec (code c) 46) as [Ec|Ec].
    + cbn [fst snd numeral_text num_sign int_digits has_point frac_digits].
      rewrite !append_assoc. rewrite digits_prefix_after.
      assert (Hc : c = "."%char) by (apply code_inj; exact Ec).
      subst c. cbn [append] in Hb |- *. now rewrite Hb.
    + cbn [fst snd numeral_text num_sign int_digits has_point frac_digits].
      rewrite append_nil_r, append_assoc. now rewrite Hb.
Qed.

Lemma split_numeral_stops (text : string) :
  stops (fst (split_numeral text)) (snd (split_numeral text)) = true.
Proof.
  unfold split_numeral. cbv zeta.
  pose proof (after_digits_stop (strip_sign text)) as Hd.
  destruct (after_digits (strip_sign text)) as [|c rest] eqn:E; [reflexivity|].
  destruct (Z.eqb_spec (code c) 46) as [Ec|Ec].
  - cbn [fst snd]. unfold stops. cbn [has_point].
    pose proof (after_digits_stop rest) as Hr.
    destruct (after_digits rest) as [|c' rest']; [reflexivity|].
    cbn [starts_with_digit] in Hr. now rewrite Hr.
  - cbn [fst snd]. unfold stops. cbn [has_point].
    cbn [starts_with_digit] in Hd. rewrite Hd. cbn [negb andb orb].
    apply negb_true_iff. now apply Z.eqb_neq.
Qed.

Lemma nonempty_prefix (s : string) : nonempty (digits_prefix s) = starts_with_digit s.
Proof. destruct s as [|c s]; [reflexivity|]. cbn. now destruct (is_digit c). Qed.


Lemma digit_not_point (c : ascii) : is_digit c = true -> (code c =? 46) = false.
Proof.
  unfold is_digit. intros H. apply andb_prop in H as [H1 H2].
  apply Z.leb_le in H1, H2. apply Z.eqb_neq. lia.
Qed.

(** The numeral taken off a text is one the digit loop accepts exactly when a
    digit is readable after the optional sign and the optional point. *)
Lemma split_numeral_scannable (text : string) :
  scannable (fst (split_numeral text))
  = starts_with_digit (strip_point (strip_sign text)).
Proof.
  unfold split_numeral. cbv zeta.
  destruct (strip_sign text) as [|b body]; [reflexivity|].
  cbn [digits_prefix after_digits strip_point].
  destruct (is_digit b) eqn:Eb.
  - rewrite (digit_not_point b Eb). cbn [starts_with_digit]. rewrite Eb.
    pose proof (all_digits_prefix body) as Hi.
    destruct (after_digits body) as [|c rest]; [|destruct (code c =? 46)];
      cbn [fst]; unfold scannable, all_digits_of;
      cbn [int_digits has_point frac_digits all_digits append nonempty negb orb andb];
      rewrite Eb, Hi, ?all_digits_prefix; reflexivity.
  - destruct (code b =? 46).
    + cbn [fst]. unfold scannable, all_digits_of.
      cbn [int_digits has_point frac_digits all_digits append orb andb].
      now rewrite all_digits_prefix, nonempty_prefix.
    + cbn [fst starts_with_digit]. now rewrite Eb.
Qed.

Lemma split_numeral_count (text : string) :
  digit_count (fst (split_numeral text)) <= len text.
Proof.
  rewrite <- (split_numeral_text text) at 2.
  pose proof (len_nonneg (snd (split_numeral text))) as Ht.
  rewrite len_app. revert Ht. generalize (len (snd (split_numeral text))).
  unfold split_numeral. cbv zeta.
  destruct (after_digits (strip_sign text)) as [|c rest]; [|destruct (code c =? 46)];
    cbn [fst]; unfold digit_count, all_digits_of, numeral_text;
    cbn [num_sign int_digits has_point frac_digits]; intros t Ht;
    rewrite !len_app; pose proof (len_nonneg (sign_text (sign_of text)));
    change (len "") with 0.
  - lia.
  - change (len ".") with 1. lia.
  - lia.
Qed.

(** A numeral's text holds all its digits, and at least one. *)
Lemma numeral_text_digits (x : numeral) :
  scannable x = true -> 1 <= digit_count x <= len (numeral_text x).
Proof.
  unfold scannable, digit_count, all_digits_of, numeral_text.
  destruct x as [sg i p f]; cbn [num_sign int_digits has_point frac_digits].
  intros Hs. apply andb_prop in Hs as [Hs Hne]. apply andb_prop in Hs as [_ Hpf].
  apply nonempty_len in Hne. rewrite !len_app in *.
  pose proof (len_nonneg (sign_text sg)). split; [exact Hne|].
  pose proof (len_nonneg f).
  destruct p.
  - rewrite len_app. change (len ".") with 1. lia.
  - cbn [orb] in Hpf. destruct f; [|discriminate]. change (len "") with 0. lia.
Qed.

Section ReadFloatAnyLine.
Context {width : ExponentType} {F : Type} `{FloatOps F}.

(** [read_float] on any line of at most 135 characters, which leaves the
    exponent within what every width holds, read at any cursor within it:
    the numeral at the cursor is taken off, whatever follows. *)
Lemma read_float_split (line : string) (char_counter : Z) (float_ptr : F) :
  0 <= char_counter <= len line ->
  len line <= 135 ->
  let x := fst (split_numeral (advance (Z.to_nat char_counter) line)) in
  read_float line char_counter float_ptr
  = if no_digit_at line char_counter then (false, char_counter, float_ptr)
    else (true, char_counter + len (numeral_text x), decoded_capped x).
Proof.
  intros Hc Hl. cbv zeta.
  destruct (no_digit_at line char_counter) eqn:En.
  - now apply read_float_no_digit.
  - set (text := advance (Z.to_nat char_counter) line).
    pose proof (keep_advance (Z.to_nat char_counter) line) as Hline. fold text in Hline.
    pose proof (len_keep (Z.to_nat char_counter) line) as Hpre.
    rewrite Z2Nat.id, Z.min_l in Hpre by lia.
    pose proof (split_numeral_text text) as Ht.
    pose proof (split_numeral_stops text) as Hs.
    pose proof (split_numeral_scannable text) as Hn.
    pose proof (split_numeral_count text) as Hd.
    unfold no_digit_at in En. fold text in En. apply negb_false_iff in En.
    rewrite En in Hn.
    assert (Hlen : len line = char_counter + len text).
    { rewrite <- Hline at 1. rewrite len_app. lia. }
    assert (Hx : len text = len (numeral_text (fst (split_numeral text)))
                            + len (snd (split_numeral text))).
    { rewrite <- Ht at 1. now rewrite len_app. }
    pose proof (len_nonneg (snd (split_numeral text))).
    pose proof (len_nonneg (numeral_text (fst (split_numeral text)))).
    rewrite <- Hline at 1. rewrite <- Ht at 1. rewrite <- Hpre at 2.
    pose proof (numeral_text_digits _ Hn) as Hnd.
    assert (Hw : exponent_holds (fst (split_numeral text)) = true).
    { apply exponent_holds_127. unfold digit_count, all_digits_of in Hnd.
      rewrite len_app in Hnd.
      pose proof (len_nonneg (frac_digits (fst (split_numeral text)))). lia. }
    rewrite (read_float_long_numeral _ _ _ float_ptr Hn ltac:(lia) Hw Hs).
    rewrite Hpre, uint8_t_small by lia. reflexivity.
Qed.

End ReadFloatAnyLine.

(** X1. On a line of at most 135 characters, read at a cursor within it,
    [read_float] returns true exactly when a digit is readable at the cursor,
    after the optional sign and the optional decimal point; when it returns
    false, [*char_counter] and [*float_ptr] are as they were. *)
Theorem read_float_succeeds_iff_digit (width : ExponentType)
    (F : Type) (ops : FloatOps F)
    (line : string) (char_counter : Z) (float_ptr : F) :
  0 <= char_counter <= len line ->
  len line <= 135 ->
  let r := read_float line char_counter float_ptr in
  (fst (fst r) = true
   <-> starts_with_digit (strip_point (strip_sign (advance (Z.to_nat char_counter) line)))
       = true)
  /\ (fst (fst r) = false -> r = (false, char_counter, float_ptr)).
Proof.
  intros Hc Hl r. subst r.
  rewrite (read_float_split line char_counter float_ptr Hc Hl).
  unfold no_digit_at.
  destruct (starts_with_digit _); cbn [negb fst]; split;
    solve [split; [reflexivity | discriminate] | discriminate
          | split; discriminate | reflexivity | split; [discriminate|reflexivity]
          | intros; reflexivity].
Qed.

Lemma read_float_succeeds_iff_digit_witness :
  fst (fst (read_float32 (width := exponent_int8) "G1 X-.5Y" 4 S754_nan)) = true
  /\ fst (fst (read_float32 (width := exponent_int8) "G1 X-.5Y" 3 S754_nan)) = false.
Proof.
  pose proof (read_float_succeeds_iff_digit exponent_int8 B32.float binary32_ops
                "G1 X-.5Y" 4 S754_nan
                ltac:(vm_compute; split; discriminate) ltac:(vm_compute; discriminate))
    as [H1 _].
  pose proof (read_float_succeeds_iff_digit exponent_int8 B32.float binary32_ops
                "G1 X-.5Y" 3 S754_nan
                ltac:(vm_compute; split; discriminate) ltac:(vm_compute; discriminate))
    as [H2 _].
  split.
  - apply H1. reflexivity.
  - destruct (fst (fst (read_float32 (width := exponent_int8) "G1 X-.5Y" 3 S754_nan)))
      eqn:E; [|reflexivity].
    unfold read_float32 in E. apply H2 in E. discriminate E.
Defined.



(** ** The sign *)

Section ReadFloatShift.
Context {width : ExponentType}.

Lemma read_float_loop_shift (ptr : string) :
  forall (c : Z) (s : scan) (n k : Z),
    read_float_loop ptr c s (n + k)
    = (fst (read_float_loop ptr c s n), snd (read_float_loop ptr c s n) + k).
Proof.
  induction ptr as [|c' ptr IH]; intros c s n k; cbn [read_float_loop].
  - destruct (scan_char s c); cbn [fst snd]; f_equal; lia.
  - destruct (scan_char s c) as [s'|]; [|reflexivity].
    replace (n + k + 1) with (n + 1 + k) by lia. apply IH.
Qed.

Lemma loop_on_shift (text : string) (s : scan) (n k : Z) :
  loop_on text s (n + k) = (fst (loop_on text s n), snd (loop_on text s n) + k).
Proof.
  unfold loop_on. destruct (fetch text) as [c ptr].
  replace (n + k + 1) with (n + 1 + k) by lia. apply read_float_loop_shift.
Qed.

End ReadFloatShift.

Lemma uint8_t_succ (z : Z) : uint8_t (uint8_t z + 1) = uint8_t (z + 1).
Proof. unfold uint8_t. now rewrite Z.add_mod_idemp_l. Qed.

Section ReadFloatSign.
Context {width : ExponentType} {F : Type} `{FloatOps F}.

(** The text after the cursor does not start with a sign character. *)
Definition unsigned_text (body : string) : bool :=
  match body with
  | EmptyString => true
  | String c _ => negb ((code c =? 45) || (code c =? 43))
  end.

Lemma read_float_unsigned (pre body : string) (old : F) :
  unsigned_text body = true ->
  read_float (pre ++ body) (len pre) old
  = finish (len pre) old false (loop_on body scan_init (len pre)).
Proof.
  intros Hu. rewrite read_float_eq, advance_app. cbv zeta.
  destruct body as [|c rest]; [reflexivity|].
  cbn [unsigned_text] in Hu. apply negb_true_iff, orb_false_iff in Hu as [H1 H2].
  cbn [fetch fst]. now rewrite H1, H2.
Qed.

Lemma read_float_signed (pre body : string) (old : F) (minus : bool) :
  read_float (pre ++ (if minus then "-" else "+") ++ body) (len pre) old
  = finish (len pre) old minus (loop_on body scan_init (len pre + 1)).
Proof.
  rewrite read_float_eq, advance_app. cbv zeta. destruct minus; reflexivity.
Qed.

Lemma finish_shift (cc : Z) (old : F) (neg : bool) (body : string) :
  finish cc old neg (loop_on body scan_init (cc + 1))
  = let '(ok, n, v) := finish cc old false (loop_on body scan_init cc) in
    if ok then (true, uint8_t (n + 1), if neg then fneg v else v)
    else (false, cc, old).
Proof.
  rewrite loop_on_shift. destruct (loop_on body scan_init cc) as [s n].
  cbn [fst snd]. unfold finish.
  destruct (num_digits s =? 0); [reflexivity|].
  rewrite uint8_t_succ. f_equal. f_equal. f_equal. lia.
Qed.

End ReadFloatSign.

(** X3. One leading sign is read and applied to the value: for a text that
    does not itself start with a sign, [-text] is decoded exactly when [text]
    is, to the negated value with the cursor one further, and [+text] to the
    same value; a second sign character is never accepted. *)
Theorem read_float_sign (width : ExponentType) (F : Type) (ops : FloatOps F)
    (pre body : string) (old : F) :
  unsigned_text body = true ->
  let '(ok, n, v) := read_float (pre ++ body) (len pre) old in
  read_float (pre ++ "-" ++ body) (len pre) old
  = (if ok then (true, uint8_t (n + 1), fneg v) else (false, len pre, old))
  /\ read_float (pre ++ "+" ++ body) (len pre) old
     = (if ok then (true, uint8_t (n + 1), v) else (false, len pre, old))
  /\ (forall minus minus' : bool,
        read_float (pre ++ (if minus then "-" else "+")
                        ++ (if minus' then "-" else "+") ++ body) (len pre) old
        = (false, len pre, old)).
Proof.
  intros Hu. rewrite (read_float_unsigned pre body old Hu).
  pose proof (finish_shift (len pre) old true body) as Hm.
  pose proof (finish_shift (len pre) old false body) as Hp.
  rewrite <- (read_float_signed pre body old true) in Hm.
  rewrite <- (read_float_signed pre body old false) in Hp.
  destruct (finish (len pre) old false (loop_on body scan_init (len pre)))
    as [[ok n] v].
  split; [exact Hm|]. split; [exact Hp|].
  intros minus minus'. apply read_float_no_digit.
  unfold no_digit_at. rewrite advance_app.
  destruct minus, minus'; cbn [append strip_sign];
    (change (code "-" =? 45) with true || change (code "+" =? 45) with false);
    cbn [orb]; try change (code "+" =? 43) with true; cbv iota;
    reflexivity.
Qed.

Lemma read_float_sign_witness :
  read_float32 (width := exponent_int8) "X-2.5" 1 S754_nan
  = (true, 5, S754_finite true 10485760 (-22))
  /\ read_float32 (width := exponent_int8) "X+2.5" 1 S754_nan
     = (true, 5, S754_finite false 10485760 (-22)).
Proof.
  pose proof (read_float_sign exponent_int8 B32.float binary32_ops "X" "2.5" S754_nan
                eq_refl) as H.
  assert (E : @read_float exponent_int8 B32.float binary32_ops ("X" ++ "2.5") (len "X")
                S754_nan
              = (true, 4, S754_finite false 10485760 (-22))) by reflexivity.
  rewrite E in H. cbv beta iota in H. destruct H as (Hm & Hp & _).
  split; [exact Hm | exact Hp].
Defined.

(** ** Integers *)

(** A mantissa of exactly [prec] digits within the exponent range is left as
    it is by the rounding. *)
Lemma binary_round_aux_exact (prec emax : Z) (s : bool) (m0 : positive) (e : Z) :
  Z.pos (digits2_pos m0) = prec ->
  emin prec emax <= e <= emax - prec ->
  binary_round_aux prec emax s (Z.pos m0) e loc_Exact = S754_finite s m0 e.
Proof.
  intros Hd He. unfold binary_round_aux, shr_fexp, fexp.
  cbn [Zdigits2 shr_record_of_loc]. rewrite Hd.
  replace (Z.max (prec + e - prec) (emin prec emax) - e) with 0 by lia.
  cbn [shr shr_m loc_of_shr_record round_nearest_even Zdigits2 shr_record_of_loc].
  rewrite Hd.
  replace (Z.max (prec + e - prec) (emin prec emax) - e) with 0 by lia.
  cbn [shr shr_m].
  destruct (Z.leb_spec e (emax - prec)); [reflexivity | lia].
Qed.

(** The conversion of an integer below 2^24 to [float] is exact. *)
Lemma float_of_Z_exact (n : Z) :
  0 <= n < 16777216 ->
  binary32_normal (B32.float_of_Z n)
  /\ (B32.to_Q (B32.float_of_Z n) == inject_Z n)%Q.
Proof.
  intros Hn. unfold B32.float_of_Z. destruct n as [|m|m]; [| |lia].
  - split; [exact I | reflexivity].
  - cbn [binary_normalize]. unfold binary_round.
    assert (Hd : 0 < Z.pos (digits2_pos m) <= 24).
    { apply digits2_pos_range; [lia|]. change (2 ^ 0) with 1.
      change (2 ^ 24) with 16777216. lia. }
    set (d := Z.pos (digits2_pos m)) in *.
    unfold fexp. rewrite Z.max_l by (unfold emin; lia).
    pose proof (digits2_pos_bounds m) as Hb. fold d in Hb.
    destruct (Z.eq_dec d 24) as [E|E].
    + rewrite shl_align_noop by lia.
      rewrite binary_round_aux_exact; [| exact E | unfold emin; lia].
      split; [exact E|]. rewrite to_Q_finite. unfold F2Q.
      change (2 ^ 0)%Q with 1%Q. ring.
    + destruct (shl_align_shift m 0 (d + 0 - 24) ltac:(lia)) as (mz & -> & Hmz).
      replace (0 - (d + 0 - 24)) with (24 - d) in Hmz by lia.
      assert (HP : 0 < 2 ^ (24 - d)) by (apply pow2_pos; lia).
      assert (Hdz : Z.pos (digits2_pos mz) = 24).
      { assert (E1 : 2 ^ (24 - 1) = 2 ^ (d - 1) * 2 ^ (24 - d)).
        { rewrite <- Z.pow_add_r by lia. f_equal. lia. }
        assert (E2 : 2 ^ 24 = 2 ^ d * 2 ^ (24 - d)).
        { rewrite <- Z.pow_add_r by lia. f_equal. lia. }
        apply digits2_pos_unique. rewrite Hmz, E1, E2. nia. }
      rewrite binary_round_aux_exact; [| exact Hdz | unfold emin; lia].
      split; [exact Hdz|]. rewrite to_Q_finite, Hmz.
      rewrite (F2Q_shift (Z.pos m) (d + 0 - 24) (24 - d)) by lia.
      replace (d + 0 - 24 + (24 - d)) with 0 by lia. unfold F2Q.
      change (2 ^ 0)%Q with 1%Q. ring.
Qed.

Lemma apply_decimal_0 {width : ExponentType} {F : Type} `{FloatOps F} (n : Z) :
  apply_decimal n 0 = float_of_uint32 n.
Proof.
  unfold apply_decimal. cbv zeta.
  destruct (fnonzero (float_of_uint32 n)); [apply apply_exponent_0 | reflexivity].
Qed.

(** X4. An integer numeral, digits with nothing after them but perhaps a bare
    point, of at most eight digits and of value below 2^24 is decoded without
    any rounding: the [float] stored is the integer itself, with its sign. *)
Theorem read_float_integer_exact (width : ExponentType)
    (pre : string) (x : numeral) (tail : string) (float_ptr : B32.float) :
  scannable x = true ->
  frac_digits x = EmptyString ->
  digit_count x <= MAX_INT_DIGITS ->
  digits_value (int_digits x) < 16777216 ->
  stops x tail = true ->
  len pre + len (numeral_text x) <= 255 ->
  exists r : B32.float,
    read_float32 (pre ++ numeral_text x ++ tail) (len pre) float_ptr
    = (true, len pre + len (numeral_text x), r)
    /\ binary32_normal r
    /\ (B32.to_Q r == numeral_value x)%Q
    /\ (B32.to_Q r
        == match num_sign x with
           | Minus => - inject_Z (digits_value (int_digits x))
           | _ => inject_Z (digits_value (int_digits x))
           end)%Q.
Proof.
  intros Hs Hf Hc Hv Ht Hl. exists (decoded x).
  assert (Hd : all_digits (int_digits x) = true).
  { unfold scannable in Hs. apply andb_prop in Hs as [Hs _].
    apply andb_prop in Hs as [Hs _]. now apply andb_prop in Hs as [Hi _]. }
  pose proof (digits_value_bound (int_digits x) Hd) as [Hv0 _].
  assert (Hall : all_digits_of x = int_digits x).
  { unfold all_digits_of. now rewrite Hf, append_nil_r. }
  destruct (float_of_Z_exact (digits_value (int_digits x)) (conj Hv0 Hv)) as [Hg Hq].
  assert (Hdec : @decoded width B32.float binary32_ops x
                 = match num_sign x with
                   | Minus => SFopp (B32.float_of_Z (digits_value (int_digits x)))
                   | _ => B32.float_of_Z (digits_value (int_digits x))
                   end).
  { unfold decoded. rewrite Hall, Hf. change (- len "") with 0.
    rewrite apply_decimal_0. reflexivity. }
  assert (Hval : (numeral_value x
                  == match num_sign x with
                     | Minus => - inject_Z (digits_value (int_digits x))
                     | _ => inject_Z (digits_value (int_digits x))
                     end)%Q).
  { unfold numeral_value. rewrite Hall, Hf. change (10 ^ len "") with 1.
    destruct (num_sign x); unfold Qdiv; change (/ inject_Z 1)%Q with 1%Q; ring. }
  assert (Hr : (B32.to_Q (@decoded width B32.float binary32_ops x)
                == match num_sign x with
                   | Minus => - inject_Z (digits_value (int_digits x))
                   | _ => inject_Z (digits_value (int_digits x))
                   end)%Q).
  { rewrite Hdec. destruct (num_sign x); try exact Hq.
    change SFopp with (@fneg B32.float binary32_ops).
    rewrite (@neg_value B32.float binary32_ops B32.to_Q binary32_normal _
               binary32_accuracy). now rewrite Hq. }
  split; [|split; [|split]].
  - unfold read_float32. rewrite (read_float_numeral pre x tail float_ptr Hs Hc Ht).
    rewrite uint8_t_small; [reflexivity|].
    pose proof (len_nonneg pre). pose proof (len_nonneg (numeral_text x)). lia.
  - rewrite Hdec. destruct (num_sign x); try exact Hg.
    now apply (@neg_good B32.float binary32_ops B32.to_Q binary32_normal _
                 binary32_accuracy).
  - now rewrite Hval.
  - exact Hr.
Qed.

Lemma read_float_integer_exact_witness :
  exists r : B32.float,
    read_float32 (width := exponent_int8) "G-16777215 " 1 S754_nan = (true, 10, r)
    /\ (B32.to_Q r == - inject_Z 16777215)%Q.
Proof.
  destruct (read_float_integer_exact exponent_int8 "G"
              {| num_sign := Minus; int_digits := "16777215"; has_point := false;
                 frac_digits := "" |} " " S754_nan
              eq_refl eq_refl ltac:(vm_compute; discriminate)
              ltac:(vm_compute; reflexivity) eq_refl
              ltac:(vm_compute; discriminate)) as (r & E & _ & _ & Hq).
  exists r. split; [exact E | exact Hq].
Defined.

(** * The formatter's output read back by the decoder *)









(** * Formatted sending and delays *)

(** What the functions below do to the world outside, in order. *)
Inductive effect : Type :=
  | New_char (size : Z) (allocated : bool)   (* temp = new char[size] *)
  | Delete_temp                              (* delete[] temp *)
  | Channel_write (w : channel_write)
  | WdtFeed                                  (* ESP.wdtFeed() *)
  | DelayMicroseconds (us : Z)
  | Protocol_execute_realtime
  | Protocol_exec_rt_system.

Definition uint16_t (z : Z) : Z := z mod 65536.

(** [sizeof(local_buffer)]. *)
Definition LOCAL_BUFFER_SIZE : Z := 64.

(** The constants of the message and delay code that the sources at hand do
    not define. *)
Record messages_hpp : Type := {
  GRBL_MSG_LEVEL : Z;
  MSG_LEVEL_INFO : Z;
  MESSAGE_CRITICAL_EVENT : Z; MESSAGE_ALARM_LOCK : Z; MESSAGE_ALARM_UNLOCK : Z;
  MESSAGE_ENABLED : Z; MESSAGE_DISABLED : Z; MESSAGE_SAFETY_DOOR_AJAR : Z;
  MESSAGE_CHECK_LIMITS : Z; MESSAGE_PROGRAM_END : Z; MESSAGE_RESTORE_DEFAULTS : Z;
  MESSAGE_SPINDLE_RESTORE : Z; MESSAGE_SLEEP_MODE : Z;
  DWELL_TIME_STEP : Z;
  DELAY_MODE_DWELL : Z;
  SUSPEND_RESTART_RETRACT : Z
}.

Section Sending.
Variable g : grbl_hpp.
Variable mh : messages_hpp.

(** [grbl_sendf] with its buffer: [text] is what the format and its arguments
    render to, [vsnprintf] returning its length both times; [allocated] tells
    whether [new] returns a buffer. *)
Definition grbl_sendf_effects (allocated : bool) (client : Z) (text : string)
  : list effect :=
  let length := len text in
  let on_heap := length >=? LOCAL_BUFFER_SIZE in
  if on_heap && negb allocated then [New_char (length + 1) false]
  else
    (if on_heap then [New_char (length + 1) true] else [])
    ++ map Channel_write (grbl_send g client text)
    ++ (if length >? 64 then [Delete_temp] else []).

(** [grbl_msg_sendf]: the same buffer code around a call of [grbl_sendf]. *)
Definition grbl_msg_sendf_effects (allocated allocated' : bool) (client level : Z)
    (text : string) : list effect :=
  if level >? GRBL_MSG_LEVEL mh then []
  else
    let length := len text in
    let on_heap := length >=? LOCAL_BUFFER_SIZE in
    if on_heap && negb allocated then [New_char (length + 1) false]
    else
      (if on_heap then [New_char (length + 1) true] else [])
      ++ grbl_sendf_effects allocated' client ("[MSG:" ++ text ++ "]" ++ CRLF)
      ++ (if length >? 64 then [Delete_temp] else []).

(** [report_feedback_message]: the text of each message code. *)
Definition feedback_text (message_code : Z) : option string :=
  if message_code =? MESSAGE_CRITICAL_EVENT mh then Some "Reset to continue"%string
  else if message_code =? MESSAGE_ALARM_LOCK mh then Some "'$H'|'$X' to unlock"%string
  else if message_code =? MESSAGE_ALARM_UNLOCK mh then Some "Caution: Unlocked"%string
  else if message_code =? MESSAGE_ENABLED mh then Some "Enabled"%string
  else if message_code =? MESSAGE_DISABLED mh then Some "Disabled"%string
  else if message_code =? MESSAGE_SAFETY_DOOR_AJAR mh then Some "Check door"%string
  else if message_code =? MESSAGE_CHECK_LIMITS mh then Some "Check limits"%string
  else if message_code =? MESSAGE_PROGRAM_END mh then Some "Program End"%string
  else if message_code =? MESSAGE_RESTORE_DEFAULTS mh then Some "Restoring defaults"%string
  else if message_code =? MESSAGE_SPINDLE_RESTORE mh then Some "Restoring spindle"%string
  else if message_code =? MESSAGE_SLEEP_MODE mh then Some "Sleeping"%string
  else None.

Definition report_feedback_message (allocated allocated' : bool) (message_code : Z)
  : list effect :=
  match feedback_text message_code with
  | Some text =>
      grbl_msg_sendf_effects allocated allocated' (CLIENT_SERIAL g) (MSG_LEVEL_INFO mh) text
  | None => []
  end.

(** [delay_ms]: [while ( milliseconds-- ) { ESP.wdtFeed(); delayMicroseconds(950); }]
    on a [uint16_t]; [None] when the fuel runs out first. *)
Fixpoint delay_ms_loop (fuel : nat) (milliseconds : Z) : option (list effect) :=
  match fuel with
  | O => None
  | S fuel' =>
      if milliseconds =? 0 then Some []
      else
        match delay_ms_loop fuel' (uint16_t (milliseconds - 1)) with
        | Some effects => Some (WdtFeed :: DelayMicroseconds 950 :: effects)
        | None => None
        end
  end.

Definition delay_ms (fuel : nat) (milliseconds : Z) : option (list effect) :=
  delay_ms_loop fuel (uint16_t milliseconds).

(** [report_alarm_message]. *)
Definition report_alarm_message (fuel : nat) (allocated : bool) (alarm_code : Z)
  : option (list effect) :=
  match delay_ms fuel 500 with
  | Some waits =>
      Some (grbl_sendf_effects allocated (CLIENT_ALL g)
              ("ALARM:" ++ decimal alarm_code ++ CRLF) ++ waits)
  | None => None
  end.

End Sending.

(** ** Measures of a trace *)

Definition is_write (e : effect) : bool :=
  match e with Channel_write _ => true | _ => false end.

Definition writes_of (effects : list effect) : list channel_write :=
  flat_map (fun e => match e with Channel_write w => [w] | _ => [] end) effects.

(** Buffers obtained from [new] less buffers given back. *)
Fixpoint heap_balance (effects : list effect) : Z :=
  match effects with
  | [] => 0
  | New_char _ true :: rest => 1 + heap_balance rest
  | Delete_temp :: rest => heap_balance rest - 1
  | _ :: rest => heap_balance rest
  end.

Fixpoint delayed_us (effects : list effect) : Z :=
  match effects with
  | [] => 0
  | DelayMicroseconds us :: rest => us + delayed_us rest
  | _ :: rest => delayed_us rest
  end.

Definition count_effect (p : effect -> bool) (effects : list effect) : Z :=
  Z.of_nat (List.length (filter p effects)).

Definition is_feed (e : effect) : bool :=
  match e with WdtFeed => true | _ => false end.

Lemma writes_of_app (a b : list effect) : writes_of (a ++ b) = writes_of a ++ writes_of b.
Proof. apply flat_map_app. Qed.

Lemma writes_of_map (ws : list channel_write) : writes_of (map Channel_write ws) = ws.
Proof.
  unfold writes_of. induction ws as [|w ws IH]; [reflexivity|].
  cbn [map flat_map app]. now rewrite IH.
Qed.

Lemma heap_balance_app (a b : list effect) :
  heap_balance (a ++ b) = heap_balance a + heap_balance b.
Proof.
  induction a as [|e a IH]; [reflexivity|]. cbn [app heap_balance].
  destruct e as [size [|]| | | | | |]; lia.
Qed.

Lemma heap_balance_writes (ws : list channel_write) : heap_balance (map Channel_write ws) = 0.
Proof. induction ws as [|w ws IH]; [reflexivity | exact IH]. Qed.

(** X6. [grbl_sendf] sends the formatted text to the client's channels
    whenever it has a buffer for it. A text shorter than 64 characters goes
    through the buffer on the stack; one longer than 64 through a heap buffer
    that is given back; one of exactly 64 characters through a heap buffer
    that is never given back; and when [new] fails nothing is sent. *)
Theorem grbl_sendf_buffer (g : grbl_hpp) (allocated : bool) (client : Z) (text : string) :
  let effects := grbl_sendf_effects g allocated client text in
  (len text < 64 ->
   effects = map Channel_write (grbl_send g client text))
  /\ (64 <= len text -> allocated = false ->
      writes_of effects = [] /\ heap_balance effects = 0)
  /\ (64 <= len text -> allocated = true ->
      writes_of effects = grbl_sendf g client text
      /\ (heap_balance effects = 1 <-> len text = 64)
      /\ (heap_balance effects = 0 <-> 64 < len text)).
Proof.
  cbv zeta. unfold grbl_sendf_effects, LOCAL_BUFFER_SIZE, grbl_sendf. cbv zeta.
  split; [|split].
  - intros Hl. destruct (Z.geb_spec (len text) 64) as [|_]; [lia|].
    destruct (Z.gtb_spec (len text) 64) as [|_]; [lia|].
    cbn [andb app]. now rewrite app_nil_r.
  - intros Hl ->. destruct (Z.geb_spec (len text) 64) as [_|]; [|lia].
    cbn [andb negb]. split; reflexivity.
  - intros Hl ->. destruct (Z.geb_spec (len text) 64) as [_|]; [|lia].
    cbn [andb negb]. rewrite !writes_of_app, !heap_balance_app, writes_of_map,
      heap_balance_writes.
    destruct (Z.gtb_spec (len text) 64) as [Hg|Hg];
      change (writes_of [New_char (len text + 1) true]) with (@nil channel_write);
      change (writes_of [Delete_temp]) with (@nil channel_write);
      change (writes_of []) with (@nil channel_write);
      cbn [heap_balance app]; rewrite ?app_nil_r;
      (split; [reflexivity|]); split; split; lia.
Qed.

Lemma grbl_sendf_buffer_witness :
  heap_balance (grbl_sendf_effects grbl_defaults true 0 (replicate 64 "a")) = 1
  /\ heap_balance (grbl_sendf_effects grbl_defaults true 0 (replicate 65 "a")) = 0
  /\ writes_of (grbl_sendf_effects grbl_defaults false 0 (replicate 64 "a")) = [].
Proof.
  pose proof (grbl_sendf_buffer grbl_defaults true 0 (replicate 64 "a")) as (_ & _ & H1).
  pose proof (grbl_sendf_buffer grbl_defaults true 0 (replicate 65 "a")) as (_ & _ & H2).
  pose proof (grbl_sendf_buffer grbl_defaults false 0 (replicate 64 "a")) as (_ & H3 & _).
  destruct (H1 ltac:(vm_compute; discriminate) eq_refl) as (_ & H1' & _).
  destruct (H2 ltac:(vm_compute; discriminate) eq_refl) as (_ & _ & H2').
  destruct (H3 ltac:(vm_compute; discriminate) eq_refl) as (H3' & _).
  split; [apply H1'; reflexivity|]. split; [apply H2'; vm_compute; reflexivity | exact H3'].
Defined.

(** The clients are told apart. *)
Definition clients_distinct (g : grbl_hpp) : Prop :=
  CLIENT_SERIAL g <> CLIENT_WEBSOCKET g /\ CLIENT_SERIAL g <> CLIENT_ALL g.

Lemma grbl_send_serial (g : grbl_hpp) (text : string) :
  clients_distinct g -> grbl_send g (CLIENT_SERIAL g) text = [Serial_print text].
Proof.
  intros [H1 H2]. unfold grbl_send. rewrite Z.eqb_refl.
  apply Z.eqb_neq in H1, H2. now rewrite H1, H2.
Qed.

Lemma feedback_text_short (mh : messages_hpp) (code : Z) (text : string) :
  feedback_text mh code = Some text -> len text <= 19.
Proof.
  unfold feedback_text.
  repeat (match goal with
          | |- context [if ?b then _ else _] => destruct b
          end; [intros E; injection E as <-; vm_compute; discriminate|]).
  discriminate.
Qed.

(** X7. [report_feedback_message] writes at most one message, on the serial
    channel only and never through the heap: for a known message code at a
    level that is not suppressed it is [[MSG:<text>]] followed by CR LF; for
    an unknown code, or when [MSG_LEVEL_INFO] is above [GRBL_MSG_LEVEL],
    nothing at all. *)
Theorem feedback_message_serial_only (g : grbl_hpp) (mh : messages_hpp)
    (allocated allocated' : bool) (message_code : Z) :
  clients_distinct g ->
  let effects := report_feedback_message g mh allocated allocated' message_code in
  (effects = []
   \/ exists text : string,
        feedback_text mh message_code = Some text
        /\ effects = [Channel_write (Serial_print ("[MSG:" ++ text ++ "]" ++ CRLF))])
  /\ (effects = []
      <-> feedback_text mh message_code = None
          \/ GRBL_MSG_LEVEL mh < MSG_LEVEL_INFO mh).
Proof.
  intros Hd. cbv zeta. unfold report_feedback_message.
  destruct (feedback_text mh message_code) as [text|] eqn:E.
  - pose proof (feedback_text_short mh message_code text E) as Hs.
    unfold grbl_msg_sendf_effects, grbl_sendf_effects, LOCAL_BUFFER_SIZE. cbv zeta.
    destruct (Z.gtb_spec (MSG_LEVEL_INFO mh) (GRBL_MSG_LEVEL mh)) as [Hl|Hl].
    + split; [now left|]. split; [intros _; now right | reflexivity].
    + assert (Hlen : len ("[MSG:" ++ text ++ "]" ++ CRLF) = len text + 8).
      { rewrite !len_app. change (len "[MSG:") with 5. change (len "]") with 1.
        change (len CRLF) with 2. lia. }
      rewrite Hlen.
      destruct (Z.geb_spec (len text) 64) as [|_]; [lia|].
      destruct (Z.gtb_spec (len text) 64) as [|_]; [lia|].
      destruct (Z.geb_spec (len text + 8) 64) as [|_]; [lia|].
      destruct (Z.gtb_spec (len text + 8) 64) as [|_]; [lia|].
      cbn [andb app]. rewrite grbl_send_serial by exact Hd. cbn [map app].
      split.
      * right. exists text. split; reflexivity.
      * split; [discriminate|]. intros [H|H]; [discriminate | lia].
  - split; [now left|]. split; [intros _; now left | reflexivity].
Qed.

(** The message and delay constants of the Grbl headers. *)
Definition messages_defaults : messages_hpp :=
  {| GRBL_MSG_LEVEL := 3; MSG_LEVEL_INFO := 3;
     MESSAGE_CRITICAL_EVENT := 1; MESSAGE_ALARM_LOCK := 2; MESSAGE_ALARM_UNLOCK := 3;
     MESSAGE_ENABLED := 4; MESSAGE_DISABLED := 5; MESSAGE_SAFETY_DOOR_AJAR := 6;
     MESSAGE_CHECK_LIMITS := 7; MESSAGE_PROGRAM_END := 8; MESSAGE_RESTORE_DEFAULTS := 9;
     MESSAGE_SPINDLE_RESTORE := 10; MESSAGE_SLEEP_MODE := 11;
     DWELL_TIME_STEP := 50;
     DELAY_MODE_DWELL := 0;
     SUSPEND_RESTART_RETRACT := bit 1 |}.

Lemma feedback_message_serial_only_witness :
  report_feedback_message grbl_defaults messages_defaults true true 2
  = [Channel_write (Serial_print ("[MSG:'$H'|'$X' to unlock]" ++ CRLF))]
  /\ report_feedback_message grbl_defaults messages_defaults true true 12 = [].
Proof.
  pose proof (feedback_message_serial_only grbl_defaults messages_defaults true true 2
                ltac:(split; discriminate)) as [H1 _].
  pose proof (feedback_message_serial_only grbl_defaults messages_defaults true true 12
                ltac:(split; discriminate)) as [_ H2].
  cbv zeta in H1, H2. split.
  - destruct H1 as [H1|(text & Et & H1)]; [discriminate H1|].
    injection Et as <-. exact H1.
  - apply H2. now left.
Defined.

(** ** delay_ms *)

(** [n] passes of the loop of [delay_ms]. *)
Fixpoint waits (n : nat) : list effect :=
  match n with
  | O => []
  | S k => WdtFeed :: DelayMicroseconds 950 :: waits k
  end.

Lemma delay_ms_loop_waits (k : nat) :
  forall fuel : nat,
    (k < fuel)%nat -> Z.of_nat k < 65536 ->
    delay_ms_loop fuel (Z.of_nat k) = Some (waits k).
Proof.
  induction k as [|k IH]; intros fuel Hf Hk.
  - destruct fuel as [|fuel]; [lia | reflexivity].
  - destruct fuel as [|fuel]; [lia|]. cbn [delay_ms_loop waits].
    destruct (Z.eqb_spec (Z.of_nat (S k)) 0) as [|_]; [lia|].
    replace (uint16_t (Z.of_nat (S k) - 1)) with (Z.of_nat k)
      by (unfold uint16_t; rewrite Z.mod_small; lia).
    rewrite IH by lia. reflexivity.
Qed.

Lemma waits_measures (k : nat) :
  delayed_us (waits k) = 950 * Z.of_nat k
  /\ count_effect is_feed (waits k) = Z.of_nat k
  /\ writes_of (waits k) = []
  /\ heap_balance (waits k) = 0.
Proof.
  unfold count_effect.
  induction k as [|k (I1 & I2 & I3 & I4)]; [repeat split|].
  cbn [waits delayed_us filter is_feed List.length heap_balance].
  split; [lia|]. split; [lia|]. split; [exact I3 | exact I4].
Qed.

Lemma uint16_t_range (z : Z) : 0 <= uint16_t z < 65536.
Proof. unfold uint16_t. apply Z.mod_pos_bound. lia. Qed.

Lemma delay_ms_waits (fuel : nat) (milliseconds : Z) :
  (Z.to_nat (uint16_t milliseconds) < fuel)%nat ->
  delay_ms fuel milliseconds = Some (waits (Z.to_nat (uint16_t milliseconds))).
Proof.
  intros Hf. unfold delay_ms. pose proof (uint16_t_range milliseconds) as Hr.
  rewrite <- (Z2Nat.id (uint16_t milliseconds)) at 1 by lia.
  apply delay_ms_loop_waits; lia.
Qed.

(** X8. [delay_ms] always returns, after as many passes as its [uint16_t]
    argument counts; each pass feeds the watchdog once and waits 950
    microseconds, so that [delay_ms(n)] waits [950 * n] microseconds in all,
    a twentieth short of [n] milliseconds, and writes nothing. *)
Theorem delay_ms_duration (fuel : nat) (milliseconds : Z) :
  0 <= milliseconds < 65536 ->
  (Z.to_nat milliseconds < fuel)%nat ->
  exists effects : list effect,
    delay_ms fuel milliseconds = Some effects
    /\ delayed_us effects = 950 * milliseconds
    /\ count_effect is_feed effects = milliseconds
    /\ writes_of effects = [].
Proof.
  intros Hm Hf. exists (waits (Z.to_nat (uint16_t milliseconds))).
  split; [apply delay_ms_waits; unfold uint16_t; rewrite Z.mod_small; lia|].
  destruct (waits_measures (Z.to_nat (uint16_t milliseconds))) as (H1 & H2 & H3 & _).
  unfold uint16_t in *. rewrite Z.mod_small in * by lia.
  rewrite Z2Nat.id in * by lia. split; [exact H1|]. split; [exact H2 | exact H3].
Qed.

Lemma delay_ms_duration_witness :
  exists effects : list effect,
    delay_ms 501 500 = Some effects
    /\ delayed_us effects = 950 * 500
    /\ count_effect is_feed effects = 500
    /\ writes_of effects = [].
Proof.
  apply delay_ms_duration; [lia | vm_compute; lia].
Defined.

(** ** report_alarm_message *)

Lemma decimal_uint8 (n : Z) : 0 <= n < 256 -> len (decimal n) <= 3.
Proof.
  intros Hn.
  assert (H : forallb (fun k => len (decimal (Z.of_nat k)) <=? 3) (seq 0 256) = true)
    by (vm_compute; reflexivity).
  rewrite forallb_forall in H.
  specialize (H (Z.to_nat n) ltac:(apply in_seq; lia)).
  rewrite Z2Nat.id in H by lia. now apply Z.leb_le.
Qed.

(** X9. [report_alarm_message] sends [ALARM:<code>] and CR LF to both
    channels, the web socket first, through the buffer on the stack, and only
    then holds the caller for 500 passes of [delay_ms], 475 milliseconds, with
    the watchdog fed at every pass. *)
Theorem alarm_message_then_delay (g : grbl_hpp) (fuel : nat) (allocated : bool)
    (alarm_code : Z) :
  0 <= alarm_code < 256 ->
  (500 < fuel)%nat ->
  let text := ("ALARM:" ++ decimal alarm_code ++ CRLF)%string in
  exists waiting : list effect,
    report_alarm_message g fuel allocated alarm_code
    = Some ([Channel_write (Serial2Socket_write text); Channel_write (Serial_print text)] ++ waiting)
    /\ writes_of waiting = []
    /\ delayed_us waiting = 475000
    /\ count_effect is_feed waiting = 500.
Proof.
  intros Hc Hf text. unfold report_alarm_message.
  rewrite (delay_ms_waits fuel 500) by (vm_compute; lia).
  change (Z.to_nat (uint16_t 500)) with 500%nat.
  exists (waits 500). split.
  - f_equal. f_equal. unfold grbl_sendf_effects, LOCAL_BUFFER_SIZE. cbv zeta.
    assert (Hl : len text <= 11).
    { subst text. rewrite !len_app. change (len "ALARM:") with 6.
      change (len CRLF) with 2. pose proof (decimal_uint8 alarm_code Hc). lia. }
    fold text.
    destruct (Z.geb_spec (len text) 64) as [|_]; [lia|].
    destruct (Z.gtb_spec (len text) 64) as [|_]; [lia|].
    cbn [andb app]. rewrite app_nil_r. unfold grbl_send.
    rewrite Z.eqb_refl, !orb_true_r. reflexivity.
  - destruct (waits_measures 500) as (H1 & H2 & H3 & _).
    split; [exact H3|]. split; [exact H1 | exact H2].
Qed.

Lemma alarm_message_then_delay_witness :
  exists waiting : list effect,
    report_alarm_message grbl_defaults 501 true 9
    = Some ([Channel_write (Serial2Socket_write ("ALARM:9" ++ CRLF));
             Channel_write (Serial_print ("ALARM:9" ++ CRLF))] ++ waiting)
    /\ writes_of waiting = []
    /\ delayed_us waiting = 475000
    /\ count_effect is_feed waiting = 500.
Proof.
  exact (alarm_message_then_delay grbl_defaults 501 true 9 ltac:(lia)
           ltac:(vm_compute; lia)).
Defined.

(** ** delay_sec *)

(** [ceil] of a [float], where it is a number. *)
Definition float_ceil (x : spec_float) : option Z :=
  match x with
  | S754_zero _ => Some 0
  | S754_finite s m e =>
      if 0 <=? e then Some ((if s then - Z.pos m else Z.pos m) * 2 ^ e)
      else
        let q := 2 ^ (- e) in
        Some (if s then - (Z.pos m / q) else (Z.pos m + q - 1) / q)
  | _ => None
  end.

Section DelaySec.
Variable mh : messages_hpp.

(** The controller as [delay_sec] meets it: [sys.abort], [sys.suspend] and
    what [protocol_execute_realtime] and [protocol_exec_rt_system] do to it. *)
Variable world : Type.
Variable abort : world -> bool.
Variable suspend_of : world -> Z.
Variable protocol_execute_realtime : world -> world.
Variable protocol_exec_rt_system : world -> world.

(** [uint16_t iterations = ceil(1000/DWELL_TIME_STEP*seconds)]; [None] where
    the division or the conversion to [uint16_t] is not defined. *)
Definition dwell_iterations (seconds : spec_float) : option Z :=
  if DWELL_TIME_STEP mh =? 0 then None
  else
    match float_ceil (SFmul 24 128 (B32.float_of_Z (Z.quot 1000 (DWELL_TIME_STEP mh)))
                            seconds) with
    | Some c => if (0 <=? c) && (c <? 65536) then Some c else None
    | None => None
    end.

(** The [while] loop; the two fuels bound its passes and those of
    [delay_ms]. *)
Fixpoint delay_sec_loop (fuel fuel_ms : nat) (iterations mode : Z) (w : world)
  : option (world * list effect) :=
  match fuel with
  | O => None
  | S fuel' =>
      if iterations >? 0 then
        let iterations := uint16_t (iterations - 1) in
        if abort w then Some (w, [WdtFeed])
        else
          let dwell := mode =? DELAY_MODE_DWELL mh in
          let w' := if dwell then protocol_execute_realtime w
                    else protocol_exec_rt_system w in
          let executed := if dwell then Protocol_execute_realtime
                          else Protocol_exec_rt_system in
          if negb dwell
             && negb (Z.land (suspend_of w') (SUSPEND_RESTART_RETRACT mh) =? 0)
          then Some (w', [WdtFeed; executed])
          else
            match delay_ms fuel_ms (DWELL_TIME_STEP mh) with
            | None => None
            | Some waiting =>
                match delay_sec_loop fuel' fuel_ms iterations mode w' with
                | None => None
                | Some (w'', rest) => Some (w'', WdtFeed :: executed :: waiting ++ rest)
                end
            end
      else Some (w, [])
  end.

Definition delay_sec (fuel fuel_ms : nat) (seconds : spec_float) (mode : Z) (w : world)
  : option (world * list effect) :=
  match dwell_iterations seconds with
  | Some iterations => delay_sec_loop fuel fuel_ms iterations mode w
  | None => None
  end.

(** The controller after [k] calls of [protocol_execute_realtime]. *)
Fixpoint realtime (k : nat) (w : world) : world :=
  match k with
  | O => w
  | S k' => realtime k' (protocol_execute_realtime w)
  end.

(** One undisturbed pass of a dwell. *)
Definition dwell_pass : list effect :=
  WdtFeed :: Protocol_execute_realtime
  :: waits (Z.to_nat (uint16_t (DWELL_TIME_STEP mh))).

Fixpoint dwell_passes (k : nat) : list effect :=
  match k with
  | O => []
  | S k' => dwell_pass ++ dwell_passes k'
  end.

Lemma delay_sec_loop_dwell (k : nat) :
  forall (fuel fuel_ms : nat) (w : world),
    (k < fuel)%nat -> Z.of_nat k < 65536 ->
    (Z.to_nat (uint16_t (DWELL_TIME_STEP mh)) < fuel_ms)%nat ->
    (forall j : nat, (j < k)%nat -> abort (realtime j w) = false) ->
    delay_sec_loop fuel fuel_ms (Z.of_nat k) (DELAY_MODE_DWELL mh) w
    = Some (realtime k w, dwell_passes k).
Proof.
  induction k as [|k IH]; intros fuel fuel_ms w Hf Hk Hms Hab.
  - destruct fuel as [|fuel]; [lia | reflexivity].
  - destruct fuel as [|fuel]; [lia|]. cbn [delay_sec_loop].
    destruct (Z.gtb_spec (Z.of_nat (S k)) 0) as [_|]; [|lia].
    pose proof (Hab 0%nat ltac:(lia)) as H0. cbn [realtime] in H0.
    cbv zeta. rewrite H0, Z.eqb_refl. cbn [negb andb].
    rewrite (delay_ms_waits fuel_ms _ Hms).
    replace (uint16_t (Z.of_nat (S k) - 1)) with (Z.of_nat k)
      by (unfold uint16_t; rewrite Z.mod_small; lia).
    rewrite IH; [reflexivity | lia | lia | exact Hms |].
    intros j Hj. exact (Hab (S j) ltac:(lia)).
Qed.

Lemma dwell_passes_measures (k : nat) :
  delayed_us (dwell_passes k) = 950 * uint16_t (DWELL_TIME_STEP mh) * Z.of_nat k
  /\ count_effect is_feed (dwell_passes k)
     = (1 + uint16_t (DWELL_TIME_STEP mh)) * Z.of_nat k
  /\ writes_of (dwell_passes k) = [].
Proof.
  pose proof (uint16_t_range (DWELL_TIME_STEP mh)) as Hr.
  destruct (waits_measures (Z.to_nat (uint16_t (DWELL_TIME_STEP mh)))) as (W1 & W2 & W3 & _).
  rewrite Z2Nat.id in W1, W2 by lia.
  assert (P1 : delayed_us dwell_pass = 950 * uint16_t (DWELL_TIME_STEP mh))
    by (unfold dwell_pass; cbn [delayed_us]; exact W1).
  assert (P2 : count_effect is_feed dwell_pass = 1 + uint16_t (DWELL_TIME_STEP mh)).
  { unfold dwell_pass, count_effect in *. cbn [filter is_feed List.length]. lia. }
  assert (P3 : writes_of dwell_pass = []) by (unfold dwell_pass; exact W3).
  assert (Happ : forall a b, delayed_us (a ++ b) = delayed_us a + delayed_us b).
  { induction a as [|e a IHa]; intros b; [reflexivity|].
    cbn [app delayed_us]. rewrite IHa. destruct e; lia. }
  induction k as [|k (I1 & I2 & I3)]; [repeat split; cbn; lia|].
  cbn [dwell_passes]. rewrite Happ, writes_of_app, P1, P3, I1, I3.
  unfold count_effect in *. rewrite filter_app, length_app. 
  split; [lia|]. split; [lia | reflexivity].
Qed.



End DelaySec.


(** A controller of which only the two flags matter. *)
Definition sample_world : Type := bool * Z.


(** X11. A dwell that nothing aborts runs its full count of passes: each
    feeds the watchdog, calls [protocol_execute_realtime] once and waits
    [delay_ms(DWELL_TIME_STEP)], so that the whole dwell waits
    [950 * DWELL_TIME_STEP] microseconds per pass. *)
Theorem delay_sec_dwell (mh : messages_hpp) (world : Type) (abort : world -> bool)
    (suspend_of : world -> Z) (protocol_execute_realtime protocol_exec_rt_system : world -> world)
    (fuel fuel_ms : nat) (seconds : spec_float) (iterations : Z) (w : world) :
  dwell_iterations mh seconds = Some iterations ->
  (Z.to_nat iterations < fuel)%nat ->
  (Z.to_nat (uint16_t (DWELL_TIME_STEP mh)) < fuel_ms)%nat ->
  (forall j : nat, (j < Z.to_nat iterations)%nat ->
                   abort (realtime world protocol_execute_realtime j w) = false) ->
  exists effects : list effect,
    delay_sec mh world abort suspend_of protocol_execute_realtime protocol_exec_rt_system
              fuel fuel_ms seconds (DELAY_MODE_DWELL mh) w
    = Some (realtime world protocol_execute_realtime (Z.to_nat iterations) w, effects)
    /\ delayed_us effects = 950 * uint16_t (DWELL_TIME_STEP mh) * iterations
    /\ count_effect is_feed effects = (1 + uint16_t (DWELL_TIME_STEP mh)) * iterations
    /\ writes_of effects = [].
Proof.
  intros Hi Hf Hms Hab. unfold delay_sec. rewrite Hi.
  assert (Hr : 0 <= iterations < 65536).
  { unfold dwell_iterations in Hi.
    destruct (DWELL_TIME_STEP mh =? 0); [discriminate|].
    destruct (float_ceil _) as [c|]; [|discriminate].
    destruct (Z.leb_spec 0 c), (Z.ltb_spec c 65536); cbn [andb] in Hi;
      try discriminate. injection Hi as <-. lia. }
  exists (dwell_passes mh (Z.to_nat iterations)).
  pose proof (delay_sec_loop_dwell mh world abort suspend_of protocol_execute_realtime
                protocol_exec_rt_system (Z.to_nat iterations) fuel fuel_ms w
                Hf ltac:(lia) Hms Hab) as E.
  rewrite Z2Nat.id in E by lia. split; [exact E|].
  destruct (dwell_passes_measures mh (Z.to_nat iterations)) as (H1 & H2 & H3).
  rewrite Z2Nat.id in H1, H2 by lia. split; [exact H1|]. split; [exact H2 | exact H3].
Qed.

Lemma delay_sec_dwell_witness :
  exists effects : list effect,
    delay_sec messages_defaults sample_world fst snd (fun w => w) (fun w => w)
              41 51 (B32.float_of_Z 2) 0 (false, 0)
    = Some ((false, 0), effects)
    /\ delayed_us effects = 1900000
    /\ count_effect is_feed effects = 2040.
Proof.
  destruct (delay_sec_dwell messages_defaults sample_world fst snd (fun w => w)
              (fun w => w) 41 51 (B32.float_of_Z 2) 40 (false, 0)
              ltac:(vm_compute; reflexivity) ltac:(vm_compute; lia)
              ltac:(vm_compute; lia)) as (effects & E & H1 & H2 & _).
  - intros j _. induction j as [|j IH]; [reflexivity | exact IH].
  - exists effects. split; [|split; [exact H1 | exact H2]].
    change (DELAY_MODE_DWELL messages_defaults) with 0 in E.
    assert (Hk : forall k, realtime sample_world (fun w => w) k (false, 0) = (false, 0))
      by (induction k as [|k IH]; [reflexivity | exact IH]).
    rewrite E, Hk. reflexivity.
Defined.

(** * The vector helpers of nuts_bolts.cpp *)

(** [x != 0] on a [float]: true of a NaN. *)
Definition float_ne_zero (x : spec_float) : bool := negb (SFeqb x (S754_zero false)).

(** A [float] read as a [double]. *)
Definition double_of_float (x : spec_float) : spec_float :=
  match x with
  | S754_finite s m e => binary_round 53 1024 s m e
  | _ => x
  end.

Section Vectors.
Variable g : grbl_hpp.
(** [sqrt] of the C library, its result stored in a [float]. *)
Variable sqrt_f : spec_float -> spec_float.
(** [SOME_LARGE_VALUE] of [nuts_bolts.h], as a [float], and [min] of the
    Arduino core on two [double]s that hold [float] values. *)
Variable SOME_LARGE_VALUE : spec_float.
Variable min : spec_float -> spec_float -> spec_float.

Definition hypot_f (x y : spec_float) : spec_float :=
  sqrt_f (SFadd 24 128 (SFmul 24 128 x x) (SFmul 24 128 y y)).

(** The first loop of [convert_delta_vector_to_unit_vector]. *)
Fixpoint magnitude_loop (vector : list spec_float) (fuel idx : nat)
    (magnitude : spec_float) : spec_float :=
  match fuel with
  | O => magnitude
  | S fuel' =>
      let v := nth idx vector float_zero in
      let magnitude :=
        if float_ne_zero v then SFadd 24 128 magnitude (SFmul 24 128 v v)
        else magnitude in
      magnitude_loop vector fuel' (S idx) magnitude
  end.

(** The magnitude returned and the vector as the call leaves it; [vector]
    holds [N_AXIS] values at least. *)
Definition convert_delta_vector_to_unit_vector (vector : list spec_float)
  : spec_float * list spec_float :=
  let magnitude := magnitude_loop vector (N_AXIS g) 0 float_zero in
  let magnitude := sqrt_f magnitude in
  let inv_magnitude :=
    B32.round32 (SFdiv 53 1024 (B32.double_of_Z 1) (double_of_float magnitude)) in
  (magnitude,
   map (fun v => SFmul 24 128 v inv_magnitude) (firstn (N_AXIS g) vector)
   ++ skipn (N_AXIS g) vector).

(** [fabs(max_value[idx]/unit_vec[idx])]. *)
Definition axis_limit (max_value unit_vec : list spec_float) (idx : nat) : spec_float :=
  SFabs (SFdiv 24 128 (nth idx max_value float_zero) (nth idx unit_vec float_zero)).

Fixpoint limit_value_loop (max_value unit_vec : list spec_float) (fuel idx : nat)
    (limit_value : spec_float) : spec_float :=
  match fuel with
  | O => limit_value
  | S fuel' =>
      let limit_value :=
        if float_ne_zero (nth idx unit_vec float_zero)
        then min limit_value (axis_limit max_value unit_vec idx)
        else limit_value in
      limit_value_loop max_value unit_vec fuel' (S idx) limit_value
  end.

Definition limit_value_by_axis_maximum (max_value unit_vec : list spec_float)
  : spec_float :=
  limit_value_loop max_value unit_vec (N_AXIS g) 0 SOME_LARGE_VALUE.

End Vectors.

(** The [min] macro, [((a)<(b)?(a):(b))]. *)
Definition min_macro (a b : spec_float) : spec_float := if SFltb a b then a else b.

(** What the code needs of [min], on values that are no NaN. *)
Definition is_min (min : spec_float -> spec_float -> spec_float) : Prop :=
  forall a b : spec_float,
    a <> S754_nan -> b <> S754_nan ->
    (min a b = a \/ min a b = b)
    /\ SFltb a (min a b) = false /\ SFltb b (min a b) = false.

Ltac compare_cases :=
  repeat match goal with
    | |- context [Z.compare ?x ?y] => destruct (Z.compare_spec x y)
    | |- context [Pos.compare_cont Eq ?x ?y] =>
        change (Pos.compare_cont Eq x y) with (Pos.compare x y);
        destruct (Pos.compare_spec x y)
    | H : context [Z.compare ?x ?y] |- _ => destruct (Z.compare_spec x y)
    | H : context [Pos.compare_cont Eq ?x ?y] |- _ =>
        change (Pos.compare_cont Eq x y) with (Pos.compare x y) in H;
        destruct (Pos.compare_spec x y)
    end.

Lemma SFltb_neg_trans (a b c : spec_float) :
  a <> S754_nan -> b <> S754_nan -> c <> S754_nan ->
  SFltb b a = false -> SFltb c b = false -> SFltb c a = false.
Proof.
  intros Ha Hb Hc. unfold SFltb, SFcompare.
  destruct a as [[|]|[|]| |[|] ma ea], b as [[|]|[|]| |[|] mb eb],
           c as [[|]|[|]| |[|] mc ec];
    try congruence; try reflexivity; try discriminate;
    compare_cases; cbn; try congruence; try lia.
Qed.

Lemma SFltb_irrefl (a : spec_float) : SFltb a a = false.
Proof.
  unfold SFltb, SFcompare. destruct a as [[|]|[|]| |[|] ma ea]; try reflexivity;
    rewrite Z.compare_refl; change (Pos.compare_cont Eq ma ma) with (Pos.compare ma ma);
    now rewrite Pos.compare_refl.
Qed.

Lemma SFltb_asym (a b : spec_float) : SFltb a b = true -> SFltb b a = false.
Proof.
  unfold SFltb, SFcompare.
  destruct a as [[|]|[|]| |[|] ma ea], b as [[|]|[|]| |[|] mb eb];
    try congruence; try reflexivity; try discriminate;
    compare_cases; cbn; try congruence; try lia.
Qed.

Lemma min_macro_is_min : is_min min_macro.
Proof.
  intros a b _ _. unfold min_macro. destruct (SFltb a b) eqn:E.
  - split; [now left|]. split; [apply SFltb_irrefl | now apply SFltb_asym].
  - split; [now right|]. split; [exact E | apply SFltb_irrefl].
Qed.

(** ** hypot_f *)

Lemma SFadd_comm (prec emax : Z) (x y : spec_float) :
  SFadd prec emax x y = SFadd prec emax y x.
Proof.
  destruct x as [[|]|[|]| |sx mx ex], y as [[|]|[|]| |sy my ey]; try reflexivity.
  cbn [SFadd]. rewrite (Z.min_comm ey ex). f_equal. apply Z.add_comm.
Qed.

Lemma SFmul_square_opp (prec emax : Z) (x : spec_float) :
  SFmul prec emax (SFopp x) (SFopp x) = SFmul prec emax x x.
Proof. destruct x as [[|]|[|]| |[|] mx ex]; reflexivity. Qed.

(** X12. [hypot_f] does not tell its arguments apart, nor their signs:
    [hypot_f(x, y) = hypot_f(y, x) = hypot_f(-x, y)], bit for bit in [float]
    arithmetic and whatever [sqrt] the C library has. *)
Theorem hypot_f_symmetric (sqrt_f : spec_float -> spec_float) (x y : spec_float) :
  hypot_f sqrt_f x y = hypot_f sqrt_f y x
  /\ hypot_f sqrt_f (SFopp x) y = hypot_f sqrt_f x y
  /\ hypot_f sqrt_f x (SFopp y) = hypot_f sqrt_f x y.
Proof.
  unfold hypot_f. rewrite !SFmul_square_opp.
  split; [|split; reflexivity]. f_equal. apply SFadd_comm.
Qed.

(** ** convert_delta_vector_to_unit_vector *)

Definition is_zero (x : spec_float) : bool :=
  match x with S754_zero _ => true | _ => false end.

Lemma magnitude_loop_zero (vector : list spec_float) :
  forallb is_zero vector = true ->
  forall (fuel idx : nat) (magnitude : spec_float),
    magnitude_loop vector fuel idx magnitude = magnitude.
Proof.
  intros Hz. induction fuel as [|fuel IH]; intros idx magnitude; [reflexivity|].
  cbn [magnitude_loop]. cbv zeta.
  assert (Hn : is_zero (nth idx vector float_zero) = true).
  { destruct (nth_in_or_default idx vector float_zero) as [Hin| ->]; [|reflexivity].
    rewrite forallb_forall in Hz. now apply Hz. }
  destruct (nth idx vector float_zero); try discriminate. cbn. apply IH.
Qed.

(** X13. A delta vector of zeros, of either sign, is not refused by
    [convert_delta_vector_to_unit_vector]: the magnitude returned is
    [sqrt(+0)], and where that is [+0] the inverse [1.0/magnitude] is
    infinite and every component of the vector is left a NaN. *)
Theorem zero_vector_becomes_nan (g : grbl_hpp) (sqrt_f : spec_float -> spec_float)
    (vector : list spec_float) :
  List.length vector = N_AXIS g ->
  forallb is_zero vector = true ->
  sqrt_f (S754_zero false) = S754_zero false ->
  convert_delta_vector_to_unit_vector g sqrt_f vector
  = (S754_zero false, map (fun _ => S754_nan) vector).
Proof.
  intros Hl Hz Hs. unfold convert_delta_vector_to_unit_vector.
  rewrite magnitude_loop_zero by exact Hz. unfold float_zero. rewrite Hs.
  rewrite <- Hl, firstn_all, skipn_all, app_nil_r. f_equal.
  apply map_ext_in. intros v Hv. rewrite forallb_forall in Hz.
  specialize (Hz v Hv). destruct v; try discriminate. reflexivity.
Qed.

Lemma zero_vector_becomes_nan_witness :
  convert_delta_vector_to_unit_vector grbl_defaults (SFsqrt 24 128)
    [S754_zero false; S754_zero true; S754_zero false]
  = (S754_zero false, [S754_nan; S754_nan; S754_nan]).
Proof.
  apply (zero_vector_becomes_nan grbl_defaults (SFsqrt 24 128)
           [S754_zero false; S754_zero true; S754_zero false]); reflexivity.
Defined.

(** ** limit_value_by_axis_maximum *)

Section Limit.
Variable g : grbl_hpp.
Variable SOME_LARGE_VALUE : spec_float.
Variable min : spec_float -> spec_float -> spec_float.
Variables max_value unit_vec : list spec_float.
Hypothesis min_ok : is_min min.
Hypothesis no_nan :
  forall idx : nat, float_ne_zero (nth idx unit_vec float_zero) = true ->
                    axis_limit max_value unit_vec idx <> S754_nan.

(** The axes [first .. first + fuel - 1] have been added to the bound. *)
Lemma limit_value_loop_bound (fuel : nat) :
  forall (first : nat) (limit_value : spec_float),
    limit_value <> S754_nan ->
    let r := limit_value_loop min max_value unit_vec fuel first limit_value in
    r <> S754_nan
    /\ SFltb limit_value r = false
    /\ (forall idx : nat, (first <= idx < first + fuel)%nat ->
          float_ne_zero (nth idx unit_vec float_zero) = true ->
          SFltb (axis_limit max_value unit_vec idx) r = false)
    /\ (r = limit_value
        \/ exists idx : nat, (first <= idx < first + fuel)%nat
             /\ float_ne_zero (nth idx unit_vec float_zero) = true
             /\ r = axis_limit max_value unit_vec idx).
Proof.
  induction fuel as [|fuel IH]; intros first limit_value Hl; cbv zeta.
  - cbn [limit_value_loop]. split; [exact Hl|]. split; [apply SFltb_irrefl|].
    split; [intros idx Hi; lia | now left].
  - cbn [limit_value_loop]. cbv zeta.
    destruct (float_ne_zero (nth first unit_vec float_zero)) eqn:Hu.
    + pose proof (no_nan first Hu) as Hq.
      destruct (min_ok limit_value (axis_limit max_value unit_vec first) Hl Hq)
        as (Hc & Hm1 & Hm2).
      set (l' := min limit_value (axis_limit max_value unit_vec first)) in *.
      assert (Hl' : l' <> S754_nan) by (destruct Hc as [-> | ->]; assumption).
      destruct (IH (S first) l' Hl') as (Hr & Hb & Hall & Hex).
      set (r := limit_value_loop min max_value unit_vec fuel (S first) l') in *.
      split; [exact Hr|].
      split; [now apply (SFltb_neg_trans r l' limit_value)|].
      split.
      * intros idx Hi Hz. destruct (Nat.eq_dec idx first) as [-> | Hne].
        -- now apply (SFltb_neg_trans r l' _).
        -- apply Hall; [lia | exact Hz].
      * destruct Hex as [Hex | (idx & Hi & Hz & Hex)].
        -- destruct Hc as [Hc | Hc]; rewrite Hc in Hex.
           ++ now left.
           ++ right. exists first. split; [lia|]. split; [exact Hu | exact Hex].
        -- right. exists idx. split; [lia|]. split; [exact Hz | exact Hex].
    + destruct (IH (S first) limit_value Hl) as (Hr & Hb & Hall & Hex).
      split; [exact Hr|]. split; [exact Hb|]. split.
      * intros idx Hi Hz. destruct (Nat.eq_dec idx first) as [-> | Hne];
          [congruence|]. apply Hall; [lia | exact Hz].
      * destruct Hex as [Hex | (idx & Hi & Hz & Hex)]; [now left|].
        right. exists idx. split; [lia|]. split; [exact Hz | exact Hex].
Qed.

End Limit.

(** X14. Where no quotient [max_value[idx]/unit_vec[idx]] of an axis with a
    nonzero unit component is a NaN, [limit_value_by_axis_maximum] returns
    the least of [SOME_LARGE_VALUE] and the absolute quotients of those axes:
    the result exceeds none of them and is one of them. Axes whose unit
    component is zero take no part. *)
Theorem limit_value_is_least (g : grbl_hpp) (SOME_LARGE_VALUE : spec_float)
    (min : spec_float -> spec_float -> spec_float)
    (max_value unit_vec : list spec_float) :
  is_min min ->
  SOME_LARGE_VALUE <> S754_nan ->
  (forall idx : nat, float_ne_zero (nth idx unit_vec float_zero) = true ->
                     axis_limit max_value unit_vec idx <> S754_nan) ->
  let r := limit_value_by_axis_maximum g SOME_LARGE_VALUE min max_value unit_vec in
  SFltb SOME_LARGE_VALUE r = false
  /\ (forall idx : nat, (idx < N_AXIS g)%nat ->
        float_ne_zero (nth idx unit_vec float_zero) = true ->
        SFltb (axis_limit max_value unit_vec idx) r = false)
  /\ (r = SOME_LARGE_VALUE
      \/ exists idx : nat, (idx < N_AXIS g)%nat
           /\ float_ne_zero (nth idx unit_vec float_zero) = true
           /\ r = axis_limit max_value unit_vec idx).
Proof.
  intros Hmin Hl Hq. cbv zeta. unfold limit_value_by_axis_maximum.
  destruct (limit_value_loop_bound min max_value unit_vec Hmin Hq (N_AXIS g) 0
              SOME_LARGE_VALUE Hl) as (_ & Hb & Hall & Hex).
  split; [exact Hb|]. split.
  - intros idx Hi. apply Hall. lia.
  - destruct Hex as [Hex | (idx & Hi & Hz & Hex)]; [now left|].
    right. exists idx. split; [lia|]. split; [exact Hz | exact Hex].
Qed.

(** [1.0E+38] as a [float]. *)
Definition some_large_value : spec_float := S754_finite false 9860761 103.

Lemma some_large_value_literal :
  some_large_value = B32.round32 (B32.double_of_Z (10 ^ 38)).
Proof. vm_compute. reflexivity. Qed.

(** Maximum rates of 500 on three axes and a move along [(0.5, -0.25, 0)]. *)
Definition sample_max : list spec_float :=
  [B32.float_of_Z 500; B32.float_of_Z 500; B32.float_of_Z 500].
Definition sample_unit : list spec_float :=
  [S754_finite false 8388608 (-24); S754_finite true 8388608 (-25); S754_zero false].

Lemma limit_value_is_least_witness :
  limit_value_by_axis_maximum grbl_defaults some_large_value min_macro
    sample_max sample_unit = B32.float_of_Z 1000
  /\ SFltb (axis_limit sample_max sample_unit 1)
           (limit_value_by_axis_maximum grbl_defaults some_large_value min_macro
              sample_max sample_unit) = false.
Proof.
  split; [vm_compute; reflexivity|].
  refine (proj1 (proj2 (limit_value_is_least grbl_defaults some_large_value min_macro
            sample_max sample_unit min_macro_is_min _ _)) 1%nat _ _).
  - discriminate.
  - intros [|[|[|idx]]] Hz; try (vm_compute; discriminate).
    exfalso. revert Hz. unfold sample_unit.
    replace (nth (S (S (S idx))) _ float_zero) with float_zero
      by (destruct idx; reflexivity).
    vm_compute. discriminate.
  - unfold grbl_defaults, N_AXIS. lia.
  - vm_compute. reflexivity.
Defined.

(** * The parameter report when every read succeeds *)

Section NgcReport.
Variable g : grbl_hpp.
Variable sprintf_f : nat -> spec_float -> string.
Variable settings : settings_t.




End NgcReport.



